(** * STABS-to-AST lowering and the mdebug symbolic header of ccc

    A shallow embedding of [src/src/ccc/stabs_to_ast.cpp] and of
    [parse_symbol_table] from [src/ccc/mdebug.cpp], with the properties
    stated in the specification proved, corrected or refuted against it;
    and of the strings and paths of [src/ccc/util.cpp] and the command
    line and symbol joining of [src/stdump.cpp], with further properties
    of the code. *)

From Stdlib Require Import ZArith String Ascii Strings.Byte List Bool Lia.
From stdpp Require Import base option list strings pretty gmap.

Open Scope string_scope.
Open Scope Z_scope.

(** ** C strings and [strtoll] *)

Module CStr.

(** [std::string::c_str()] seen through [strcmp] and [strtoll]: the
    characters up to the first NUL. *)
Fixpoint c_str (s : string) : string :=
  match s with
  | EmptyString => EmptyString
  | String c rest => if Ascii.eqb c "000"%char then EmptyString else String c (c_str rest)
  end.

(** [s[0]], which is the terminating NUL for the empty string. *)
Definition front (s : string) : ascii :=
  match s with
  | EmptyString => "000"%char
  | String c _ => c
  end.

(** [strcmp(a, b) == 0] on two C strings. *)
Definition strcmp_eq (a b : string) : bool := String.eqb a b.

(** [std::string::starts_with]. *)
Definition starts_with (s p : string) : bool := String.prefix p s.

(** [isspace] in the "C" locale. *)
Definition isspace (c : ascii) : bool :=
  let n := Z.of_N (N_of_ascii c) in
  (n =? 32) || ((9 <=? n) && (n <=? 13)).

Fixpoint skip_spaces (s : string) : string :=
  match s with
  | String c rest => if isspace c then skip_spaces rest else s
  | EmptyString => s
  end.

(** Value of a character as a digit, for bases up to 36. *)
Definition digit_value (c : ascii) : option Z :=
  let n := Z.of_N (N_of_ascii c) in
  if (48 <=? n) && (n <=? 57) then Some (n - 48)
  else if (97 <=? n) && (n <=? 122) then Some (n - 87)
  else if (65 <=? n) && (n <=? 90) then Some (n - 55)
  else None.

(** The longest run of digits of the base at the head of [s]: its value
    and whether any digit was consumed. *)
Fixpoint digits (base : Z) (s : string) (acc : Z) (any : bool) : Z * bool :=
  match s with
  | String c rest =>
      match digit_value c with
      | Some d => if d <? base then digits base rest (acc * base + d) true else (acc, any)
      | None => (acc, any)
      end
  | EmptyString => (acc, any)
  end.

Definition LLONG_MAX : Z := 9223372036854775807.
Definition LLONG_MIN : Z := -9223372036854775808.

(** Out-of-range values are clamped, as [strtoll] does with [ERANGE]. *)
Definition clamp (v : Z) : Z :=
  if v <? LLONG_MIN then LLONG_MIN else if LLONG_MAX <? v then LLONG_MAX else v.

(** Two's-complement wrap-around of 64-bit and 32-bit signed arithmetic. *)
Definition wrap64 (v : Z) : Z := (v + 2 ^ 63) mod 2 ^ 64 - 2 ^ 63.
Definition wrap32 (v : Z) : Z := (v + 2 ^ 31) mod 2 ^ 32 - 2 ^ 31.

(** [strtoll(s, &end, base)] for base 8 or 10: the value and [end != s]. *)
Definition strtoll (s : string) (base : Z) : Z * bool :=
  let s1 := skip_spaces s in
  let '(negative, s2) :=
    match s1 with
    | String "-"%char rest => (true, rest)
    | String "+"%char rest => (false, rest)
    | _ => (false, s1)
    end in
  let '(magnitude, any) := digits base s2 0 false in
  if any then (clamp (if negative then - magnitude else magnitude), true)
  else (0, false).

End CStr.

Import CStr.

(** ** [ccc::Result] *)

(** Modelled from the spec: [Result] and the macros [CCC_FAILURE],
    [CCC_CHECK], [CCC_RETURN_IF_ERROR] and [CCC_WARN] are declared in a
    header that is not part of the sources. By section 7 of the
    specification a lowering step gives a value or fails with an error that
    carries a message; [CCC_CHECK] fails with its message when the
    condition is false, and [CCC_RETURN_IF_ERROR] returns the failure of
    the result it is given. *)
Inductive Result (A : Type) : Type :=
  | Success (value : A)
  | Failure (message : string).
Arguments Success {A} value.
Arguments Failure {A} message.

(** [CCC_CHECK(condition, message)] followed by the rest of the function. *)
Definition CCC_CHECK {A} (condition : bool) (message : string) (rest : Result A) : Result A :=
  if condition then rest else Failure message.

(** ** Built-in classes and range classification *)

Inductive BuiltInClass : Set :=
  | VOID | BOOL_8
  | UNSIGNED_8 | SIGNED_8 | UNQUALIFIED_8
  | UNSIGNED_16 | SIGNED_16
  | UNSIGNED_32 | SIGNED_32 | FLOAT_32
  | UNSIGNED_64 | SIGNED_64 | FLOAT_64
  | UNSIGNED_128 | SIGNED_128 | UNQUALIFIED_128 | FLOAT_128.

Record StabsRangeType : Type := { low : string; high : string }.

(** The table [strings] of [classify_range]. *)
Definition strings : list (string * string * BuiltInClass) :=
  [ ("4", "0", FLOAT_32);
    ("000000000000000000000000", "001777777777777777777777", UNSIGNED_64);
    ("00000000000000000000000000000000000000000000", "00000000000000000000001777777777777777777777", UNSIGNED_64);
    ("0000000000000", "01777777777777777777777", UNSIGNED_64);
    ("0", "18446744073709551615", UNSIGNED_64);
    ("001000000000000000000000", "000777777777777777777777", SIGNED_64);
    ("00000000000000000000001000000000000000000000", "00000000000000000000000777777777777777777777", SIGNED_64);
    ("01000000000000000000000", "0777777777777777777777", SIGNED_64);
    ("-9223372036854775808", "9223372036854775807", SIGNED_64);
    ("8", "0", FLOAT_64);
    ("00000000000000000000000000000000000000000000", "03777777777777777777777777777777777777777777", UNSIGNED_128);
    ("02000000000000000000000000000000000000000000", "01777777777777777777777777777777777777777777", SIGNED_128);
    ("000000000000000000000000", "0377777777777777777777777777777777", UNQUALIFIED_128);
    ("16", "0", FLOAT_128);
    ("0", "-1", UNQUALIFIED_128) ].

(** The table [integers] of [classify_range]. *)
Definition integers : list (Z * Z * BuiltInClass) :=
  [ (0, 255, UNSIGNED_8);
    (-128, 127, SIGNED_8);
    (0, 127, UNQUALIFIED_8);
    (0, 65535, UNSIGNED_16);
    (-32768, 32767, SIGNED_16);
    (0, 4294967295, UNSIGNED_32);
    (-2147483648, 2147483647, SIGNED_32) ].

(** The first loop: the first row whose two strings both compare equal. *)
Fixpoint match_strings (rows : list (string * string * BuiltInClass)) (low high : string)
    : option BuiltInClass :=
  match rows with
  | [] => None
  | (range_low, range_high, classification) :: rest =>
      if strcmp_eq range_low low && strcmp_eq range_high high then Some classification
      else match_strings rest low high
  end.

(** The second loop, on the parsed bounds; [-low_value] is 64-bit. *)
Fixpoint match_integers (rows : list (Z * Z * BuiltInClass)) (low_value high_value : Z)
    : option BuiltInClass :=
  match rows with
  | [] => None
  | (range_low, range_high, classification) :: rest =>
      if ((range_low =? low_value) || (range_low =? wrap64 (- low_value)))
         && (range_high =? high_value)
      then Some classification
      else match_integers rest low_value high_value
  end.

Definition classify_range (type : StabsRangeType) : Result BuiltInClass :=
  let low := c_str type.(low) in
  let high := c_str type.(high) in
  match match_strings strings low high with
  | Some classification => Success classification
  | None =>
      let '(low_value, low_end) :=
        strtoll low (if Ascii.eqb (front low) "0"%char then 8 else 10) in
      CCC_CHECK low_end "Failed to parse low part of range as integer." (
      let '(high_value, high_end) :=
        strtoll high (if Ascii.eqb (front high) "0"%char then 8 else 10) in
      CCC_CHECK high_end "Failed to parse high part of range as integer." (
      match match_integers integers low_value high_value with
      | Some classification => Success classification
      | None => Failure "Failed to classify range."
      end))
  end.

(** ** STABS types

    Modelled from the spec: [stabs.h] is not part of the sources, so the
    types below follow section 3 of the specification and the members that
    [stabs_to_ast.cpp] reads. [address] is the identity of the object, which
    [detect_bitfield] compares when it meets an index entry. A type without
    a body still has a descriptor, which the name substitution reads. *)

Record StabsTypeNumber : Type := { file : Z; type : Z }.

Inductive ForwardDeclaredType : Set := FDT_STRUCT | FDT_UNION | FDT_ENUM.

Inductive Visibility : Set :=
  | VIS_NONE | VIS_PRIVATE | VIS_PROTECTED | VIS_PUBLIC | VIS_PUBLIC_OPTIMIZED_OUT.

Inductive StabsTypeDescriptor : Set :=
  | TYPE_REFERENCE | ARRAY | ENUM | FUNCTION | VOLATILE_QUALIFIER | CONST_QUALIFIER
  | RANGE | STRUCT | UNION | CROSS_REFERENCE | FLOATING_POINT_BUILTIN | METHOD
  | REFERENCE | POINTER | TYPE_ATTRIBUTE | POINTER_TO_DATA_MEMBER | BUILTIN.

Inductive StabsType : Type :=
  | mkStabsType (address : Z) (type_number : StabsTypeNumber) (name : option string)
      (is_root anonymous has_body : bool) (body : StabsTypeBody)
with StabsTypeBody : Type :=
  | StabsTypeReferenceType (type : StabsType)
  | StabsArrayType (index_type element_type : StabsType)
  | StabsEnumType (fields : list (Z * string))
  | StabsFunctionType (return_type : StabsType)
  | StabsVolatileQualifierType (type : StabsType)
  | StabsConstQualifierType (type : StabsType)
  | StabsRange (range : StabsRangeType)
  | StabsStructType (struct_or_union : StabsStructOrUnionType)
  | StabsUnionType (struct_or_union : StabsStructOrUnionType)
  | StabsCrossReferenceType (type : ForwardDeclaredType) (identifier : string)
  | StabsFloatingPointBuiltInType (fpclass bytes : Z)
  | StabsMethodType (return_type : StabsType) (parameter_types : list StabsType)
  | StabsReferenceType (value_type : StabsType)
  | StabsPointerType (value_type : StabsType)
  | StabsSizeTypeAttributeType (size_bits : Z) (type : StabsType)
  | StabsPointerToDataMemberType (class_type member_type : StabsType)
  | StabsBuiltInType (type_id : Z)
with StabsStructOrUnionType : Type :=
  | mkStabsStructOrUnionType (size : Z) (base_classes : list BaseClass)
      (fields : list Field) (member_functions : list MemberFunctionSet)
with BaseClass : Type :=
  | mkBaseClass (visibility : Visibility) (offset : Z) (type : StabsType)
with Field : Type :=
  | mkField (name : string) (visibility : Visibility) (type : StabsType)
      (is_static : bool) (offset_bits size_bits : Z)
with MemberFunctionSet : Type :=
  | mkMemberFunctionSet (name : string) (overloads : list MemberFunction)
with MemberFunction : Type :=
  | mkMemberFunction (type : StabsType) (visibility : Visibility)
      (modifier vtable_index : Z).

(** Members of [StabsType]. *)
Definition address (t : StabsType) : Z := let 'mkStabsType a _ _ _ _ _ _ := t in a.
Definition type_number (t : StabsType) : StabsTypeNumber := let 'mkStabsType _ n _ _ _ _ _ := t in n.
Definition name (t : StabsType) : option string := let 'mkStabsType _ _ n _ _ _ _ := t in n.
Definition is_root (t : StabsType) : bool := let 'mkStabsType _ _ _ r _ _ _ := t in r.
Definition anonymous (t : StabsType) : bool := let 'mkStabsType _ _ _ _ a _ _ := t in a.
Definition has_body (t : StabsType) : bool := let 'mkStabsType _ _ _ _ _ h _ := t in h.
Definition body (t : StabsType) : StabsTypeBody := let 'mkStabsType _ _ _ _ _ _ b := t in b.

(** Members of [StabsStructOrUnionType]. *)
Definition size (s : StabsStructOrUnionType) : Z :=
  let 'mkStabsStructOrUnionType n _ _ _ := s in n.
Definition base_classes (s : StabsStructOrUnionType) : list BaseClass :=
  let 'mkStabsStructOrUnionType _ b _ _ := s in b.
Definition fields (s : StabsStructOrUnionType) : list Field :=
  let 'mkStabsStructOrUnionType _ _ f _ := s in f.
Definition member_functions (s : StabsStructOrUnionType) : list MemberFunctionSet :=
  let 'mkStabsStructOrUnionType _ _ _ m := s in m.

(** Members of [StabsStructOrUnionType::BaseClass]. *)
Definition base_visibility (b : BaseClass) : Visibility := let 'mkBaseClass v _ _ := b in v.
Definition base_offset (b : BaseClass) : Z := let 'mkBaseClass _ o _ := b in o.
Definition base_type (b : BaseClass) : StabsType := let 'mkBaseClass _ _ t := b in t.

(** Members of [StabsStructOrUnionType::Field]. *)
Definition field_name (f : Field) : string := let 'mkField n _ _ _ _ _ := f in n.
Definition field_visibility (f : Field) : Visibility := let 'mkField _ v _ _ _ _ := f in v.
Definition field_type (f : Field) : StabsType := let 'mkField _ _ t _ _ _ := f in t.
Definition is_static (f : Field) : bool := let 'mkField _ _ _ s _ _ := f in s.
Definition offset_bits (f : Field) : Z := let 'mkField _ _ _ _ o _ := f in o.
Definition field_size_bits (f : Field) : Z := let 'mkField _ _ _ _ _ s := f in s.

(** Members of [MemberFunctionSet] and [MemberFunction]. *)
Definition set_name (s : MemberFunctionSet) : string := let 'mkMemberFunctionSet n _ := s in n.
Definition overloads (s : MemberFunctionSet) : list MemberFunction :=
  let 'mkMemberFunctionSet _ o := s in o.
Definition function_type (f : MemberFunction) : StabsType :=
  let 'mkMemberFunction t _ _ _ := f in t.
Definition function_visibility (f : MemberFunction) : Visibility :=
  let 'mkMemberFunction _ v _ _ := f in v.
Definition modifier (f : MemberFunction) : Z := let 'mkMemberFunction _ _ m _ := f in m.
Definition vtable_index (f : MemberFunction) : Z := let 'mkMemberFunction _ _ _ i := f in i.

(** [type.descriptor]. *)
Definition descriptor (t : StabsType) : StabsTypeDescriptor :=
  match body t with
  | StabsTypeReferenceType _ => TYPE_REFERENCE
  | StabsArrayType _ _ => ARRAY
  | StabsEnumType _ => ENUM
  | StabsFunctionType _ => FUNCTION
  | StabsVolatileQualifierType _ => VOLATILE_QUALIFIER
  | StabsConstQualifierType _ => CONST_QUALIFIER
  | StabsRange _ => RANGE
  | StabsStructType _ => STRUCT
  | StabsUnionType _ => UNION
  | StabsCrossReferenceType _ _ => CROSS_REFERENCE
  | StabsFloatingPointBuiltInType _ _ => FLOATING_POINT_BUILTIN
  | StabsMethodType _ _ => METHOD
  | StabsReferenceType _ => REFERENCE
  | StabsPointerType _ => POINTER
  | StabsSizeTypeAttributeType _ _ => TYPE_ATTRIBUTE
  | StabsPointerToDataMemberType _ _ => POINTER_TO_DATA_MEMBER
  | StabsBuiltInType _ => BUILTIN
  end.

(** [type_number == other] on [StabsTypeNumber]. *)
Definition type_number_eq (a b : StabsTypeNumber) : bool :=
  (file a =? file b) && (type a =? type b).

#[global] Instance StabsTypeNumber_eq_dec : EqDecision StabsTypeNumber.
Proof. solve_decision. Defined.

Definition StabsTypeNumber_of_pair (p : Z * Z) : StabsTypeNumber :=
  {| file := p.1; type := p.2 |}.

Definition StabsTypeNumber_pair_inverse (n : StabsTypeNumber) :
  StabsTypeNumber_of_pair (file n, type n) = n :=
  match n with Build_StabsTypeNumber _ _ => eq_refl end.

#[global] Instance StabsTypeNumber_countable : Countable StabsTypeNumber :=
  inj_countable' (fun n => (file n, type n)) StabsTypeNumber_of_pair
    StabsTypeNumber_pair_inverse.

(** ** The AST

    Modelled from the spec: [ast.h] is not part of the sources. The node
    variants and the common attribute block follow section 3 of the
    specification. An attribute or member that the lowering never assigns
    keeps the default of its declaration, which the sources do not show:
    such numeric members are [None] here, and flags start out [false]. *)

Module ast.

Inductive AccessSpecifier : Set := AS_PUBLIC | AS_PROTECTED | AS_PRIVATE.

Inductive StorageClass : Set := STORAGE_CLASS_NONE | STORAGE_CLASS_STATIC.

Inductive TypeNameSource : Set := REFERENCE | CROSS_REFERENCE | THIS.

Record UnresolvedStabs : Type := {
  type_name : option string;
  referenced_file_handle : option Z;
  stabs_type_number_file : option Z;
  stabs_type_number_type : option Z;
  type : option ForwardDeclaredType }.

Record Common : Type := {
  name : string;
  offset_bytes : option Z;
  size_bits : option Z;
  is_const : bool;
  is_volatile : bool;
  is_base_class : bool;
  is_vtable_pointer : bool;
  is_constructor_or_destructor : bool;
  is_special_member_function : bool;
  is_operator_member_function : bool;
  storage_class : StorageClass;
  access_specifier : AccessSpecifier }.

Inductive Node : Type :=
  | mkNode (common : Common) (data : NodeData)
with NodeData : Type :=
  | Array (element_type : Node) (element_count : Z)
  | BitField (underlying_type : Node) (bitfield_offset_bits : Z)
  | BuiltIn (bclass : BuiltInClass)
  | Enum (constants : list (Z * string))
  | Error (message : string)
  | Function (return_type : Node) (parameters : option (list Node))
      (modifier vtable_index : option Z)
  | PointerOrReference (is_pointer : bool) (value_type : Node)
  | PointerToDataMember (class_type member_type : Node)
  | StructOrUnion (is_struct : bool) (base_classes fields member_functions : list Node)
  | TypeName (source : TypeNameSource) (unresolved_stabs : UnresolvedStabs).

Definition common (n : Node) : Common := let 'mkNode c _ := n in c.
Definition data (n : Node) : NodeData := let 'mkNode _ d := n in d.

(** The attribute block of a node fresh from [std::make_unique]. *)
Definition fresh : Common := {|
  name := ""; offset_bytes := None; size_bits := None;
  is_const := false; is_volatile := false; is_base_class := false;
  is_vtable_pointer := false; is_constructor_or_destructor := false;
  is_special_member_function := false; is_operator_member_function := false;
  storage_class := STORAGE_CLASS_NONE; access_specifier := AS_PUBLIC |}.

Definition make (d : NodeData) : Node := mkNode fresh d.

(** Assignments to the members of the common block. *)
Definition set_name (v : string) (n : Node) : Node :=
  let 'mkNode c d := n in
  mkNode {| name := v; offset_bytes := offset_bytes c; size_bits := size_bits c;
            is_const := is_const c; is_volatile := is_volatile c;
            is_base_class := is_base_class c; is_vtable_pointer := is_vtable_pointer c;
            is_constructor_or_destructor := is_constructor_or_destructor c;
            is_special_member_function := is_special_member_function c;
            is_operator_member_function := is_operator_member_function c;
            storage_class := storage_class c; access_specifier := access_specifier c |} d.

Definition set_offset_bytes (v : Z) (n : Node) : Node :=
  let 'mkNode c d := n in
  mkNode {| name := name c; offset_bytes := Some v; size_bits := size_bits c;
            is_const := is_const c; is_volatile := is_volatile c;
            is_base_class := is_base_class c; is_vtable_pointer := is_vtable_pointer c;
            is_constructor_or_destructor := is_constructor_or_destructor c;
            is_special_member_function := is_special_member_function c;
            is_operator_member_function := is_operator_member_function c;
            storage_class := storage_class c; access_specifier := access_specifier c |} d.

Definition set_size_bits (v : Z) (n : Node) : Node :=
  let 'mkNode c d := n in
  mkNode {| name := name c; offset_bytes := offset_bytes c; size_bits := Some v;
            is_const := is_const c; is_volatile := is_volatile c;
            is_base_class := is_base_class c; is_vtable_pointer := is_vtable_pointer c;
            is_constructor_or_destructor := is_constructor_or_destructor c;
            is_special_member_function := is_special_member_function c;
            is_operator_member_function := is_operator_member_function c;
            storage_class := storage_class c; access_specifier := access_specifier c |} d.

Definition set_is_const (v : bool) (n : Node) : Node :=
  let 'mkNode c d := n in
  mkNode {| name := name c; offset_bytes := offset_bytes c; size_bits := size_bits c;
            is_const := v; is_volatile := is_volatile c;
            is_base_class := is_base_class c; is_vtable_pointer := is_vtable_pointer c;
            is_constructor_or_destructor := is_constructor_or_destructor c;
            is_special_member_function := is_special_member_function c;
            is_operator_member_function := is_operator_member_function c;
            storage_class := storage_class c; access_specifier := access_specifier c |} d.

Definition set_is_volatile (v : bool) (n : Node) : Node :=
  let 'mkNode c d := n in
  mkNode {| name := name c; offset_bytes := offset_bytes c; size_bits := size_bits c;
            is_const := is_const c; is_volatile := v;
            is_base_class := is_base_class c; is_vtable_pointer := is_vtable_pointer c;
            is_constructor_or_destructor := is_constructor_or_destructor c;
            is_special_member_function := is_special_member_function c;
            is_operator_member_function := is_operator_member_function c;
            storage_class := storage_class c; access_specifier := access_specifier c |} d.

Definition set_is_base_class (v : bool) (n : Node) : Node :=
  let 'mkNode c d := n in
  mkNode {| name := name c; offset_bytes := offset_bytes c; size_bits := size_bits c;
            is_const := is_const c; is_volatile := is_volatile c;
            is_base_class := v; is_vtable_pointer := is_vtable_pointer c;
            is_constructor_or_destructor := is_constructor_or_destructor c;
            is_special_member_function := is_special_member_function c;
            is_operator_member_function := is_operator_member_function c;
            storage_class := storage_class c; access_specifier := access_specifier c |} d.

Definition set_is_vtable_pointer (v : bool) (n : Node) : Node :=
  let 'mkNode c d := n in
  mkNode {| name := name c; offset_bytes := offset_bytes c; size_bits := size_bits c;
            is_const := is_const c; is_volatile := is_volatile c;
            is_base_class := is_base_class c; is_vtable_pointer := v;
            is_constructor_or_destructor := is_constructor_or_destructor c;
            is_special_member_function := is_special_member_function c;
            is_operator_member_function := is_operator_member_function c;
            storage_class := storage_class c; access_specifier := access_specifier c |} d.

(** The three flags that [member_functions_to_ast] copies from a
    [MemberFunctionInfo]. *)
Definition set_member_function_flags (cd special operator : bool) (n : Node) : Node :=
  let 'mkNode c d := n in
  mkNode {| name := name c; offset_bytes := offset_bytes c; size_bits := size_bits c;
            is_const := is_const c; is_volatile := is_volatile c;
            is_base_class := is_base_class c; is_vtable_pointer := is_vtable_pointer c;
            is_constructor_or_destructor := cd;
            is_special_member_function := special;
            is_operator_member_function := operator;
            storage_class := storage_class c; access_specifier := access_specifier c |} d.

Definition set_storage_class (v : StorageClass) (n : Node) : Node :=
  let 'mkNode c d := n in
  mkNode {| name := name c; offset_bytes := offset_bytes c; size_bits := size_bits c;
            is_const := is_const c; is_volatile := is_volatile c;
            is_base_class := is_base_class c; is_vtable_pointer := is_vtable_pointer c;
            is_constructor_or_destructor := is_constructor_or_destructor c;
            is_special_member_function := is_special_member_function c;
            is_operator_member_function := is_operator_member_function c;
            storage_class := v; access_specifier := access_specifier c |} d.

(** Modelled from the spec: [Node::set_access_specifier] is declared in
    [ast.h]; sections 4.4.4 to 4.4.7 say that the access specifier is set
    from the visibility. *)
Definition set_access_specifier (v : AccessSpecifier) (parser_flags : Z) (n : Node) : Node :=
  let 'mkNode c d := n in
  mkNode {| name := name c; offset_bytes := offset_bytes c; size_bits := size_bits c;
            is_const := is_const c; is_volatile := is_volatile c;
            is_base_class := is_base_class c; is_vtable_pointer := is_vtable_pointer c;
            is_constructor_or_destructor := is_constructor_or_destructor c;
            is_special_member_function := is_special_member_function c;
            is_operator_member_function := is_operator_member_function c;
            storage_class := storage_class c; access_specifier := v |} d.

(** [function.modifier = ...; function.vtable_index = ...;] under the test
    [node->descriptor == ast::FUNCTION]. *)
Definition set_function_members (m i : Z) (n : Node) : Node :=
  match n with
  | mkNode c (Function r p _ _) => mkNode c (Function r p (Some m) (Some i))
  | _ => n
  end.

Definition is_bitfield (n : Node) : bool :=
  match data n with BitField _ _ => true | _ => false end.

End ast.

(** ** Lowering state, flags and outcomes *)

(** [DemanglerFunctions]: the optional hook [cplus_demangle_opname], which
    returns a C string or a null pointer. *)
Record DemanglerFunctions : Type := {
  cplus_demangle_opname : option (string -> Z -> option string) }.

Record StabsToAstState : Type := {
  file_handle : Z;
  stabs_types : gmap StabsTypeNumber StabsType;
  parser_flags : Z;
  demangler : DemanglerFunctions }.

(** Declarations that the sources use and do not contain: the values of
    the parser flags and [builtin_class_size]. Every result below holds for
    any choice of them. *)
Class Declarations : Type := {
  STRICT_PARSING : Z;
  NO_MEMBER_FUNCTIONS : Z;
  NO_GENERATED_MEMBER_FUNCTIONS : Z;
  builtin_class_size : BuiltInClass -> Z }.

(** [flags & mask] used as a condition. *)
Definition flag_set (flags mask : Z) : bool := negb (Z.land flags mask =? 0).

(** What a call of the lowering does: it returns a [Result], or it applies
    [operator*] to a failed [Result] (or [as<T>] to a type of another
    descriptor). A failed [Result] holds no value, so from there on the
    call has nothing to compute with and returns nothing to its caller:
    [Faulted]. [OutOfFuel] belongs to the model only and is shown below
    never to surface. *)
Inductive Outcome (A : Type) : Type :=
  | Returned (result : Result A)
  | Faulted
  | OutOfFuel.
Arguments Returned {A} result.
Arguments Faulted {A}.
Arguments OutOfFuel {A}.

(** An outcome together with the warnings printed by [CCC_WARN] on the way. *)
Definition Lowering (A : Type) : Type := Outcome A * list string.

Definition ret {A} (a : A) : Lowering A := (Returned (Success a), []).
Definition CCC_FAILURE {A} (message : string) : Lowering A := (Returned (Failure message), []).
Definition CCC_WARN (message : string) : Lowering unit := (Returned (Success tt), [message]).
Definition fault {A} : Lowering A := (Faulted, []).
Definition of_result {A} (r : Result A) : Lowering A := (Returned r, []).

(** [auto x = call; CCC_RETURN_IF_ERROR(x); ... *x ...] *)
Definition bind {A B} (m : Lowering A) (k : A -> Lowering B) : Lowering B :=
  match m with
  | (Returned (Success a), w) => let '(r, w') := k a in (r, (w ++ w')%list)
  | (Returned (Failure e), w) => (Returned (Failure e), w)
  | (Faulted, w) => (Faulted, w)
  | (OutOfFuel, w) => (OutOfFuel, w)
  end.

(** [auto x = call; ... *x ...] without the check: a failed [Result] is
    dereferenced. *)
Definition bind_unchecked {A B} (m : Lowering A) (k : A -> Lowering B) : Lowering B :=
  match m with
  | (Returned (Success a), w) => let '(r, w') := k a in (r, (w ++ w')%list)
  | (Returned (Failure e), w) => (Faulted, w)
  | (Faulted, w) => (Faulted, w)
  | (OutOfFuel, w) => (OutOfFuel, w)
  end.

Notation "'let*' x := m 'in' k" := (bind m (fun x => k))
  (at level 10, x name, m at level 100, k at level 200).
Notation "'let*' '_' := m 'in' k" := (bind m (fun _ => k))
  (at level 10, m at level 100, k at level 200).
Notation "'let*' ' p := m 'in' k" := (bind m (fun x => match x with p => k end))
  (at level 10, p pattern, m at level 100, k at level 200).

(** A range-based [for] whose body lowers one element and appends it. *)
Fixpoint for_each {A B} (f : A -> Lowering B) (l : list A) : Lowering (list B) :=
  match l with
  | [] => ret []
  | x :: rest => let* y := f x in let* ys := for_each f rest in ret (y :: ys)
  end.

Definition stabs_field_visibility_to_access_specifier (visibility : Visibility)
    : ast.AccessSpecifier :=
  match visibility with
  | VIS_NONE => ast.AS_PUBLIC
  | VIS_PUBLIC => ast.AS_PUBLIC
  | VIS_PROTECTED => ast.AS_PROTECTED
  | VIS_PRIVATE => ast.AS_PRIVATE
  | VIS_PUBLIC_OPTIMIZED_OUT => ast.AS_PUBLIC
  end.

(** ** Member function classification *)

Record MemberFunctionInfo : Type := {
  info_name : string;
  is_constructor_or_destructor : bool;
  is_special_member_function : bool;
  is_operator_member_function : bool }.

(** [info.name] after the optional demangling: the demangled name when
    the hook is present and returns a non-empty string, else the mangled
    name. *)
Definition demangled_name (mangled_name : string) (demangler : DemanglerFunctions) : string :=
  let name :=
    match cplus_demangle_opname demangler with
    | Some hook =>
        match hook (c_str mangled_name) 0 with
        | Some demangled => c_str demangled
        | None => ""
        end
    | None => ""
    end in
  if String.eqb name "" then mangled_name else name.

(** The local [is_constructor] of [check_member_function]. *)
Definition is_constructor (name type_name_no_template_args : string) : bool :=
  let is_constructor :=
    String.eqb name "__ct" || String.eqb name "__comp_ctor" || String.eqb name "__base_ctor" in
  if negb is_constructor && negb (String.eqb type_name_no_template_args "")
  then is_constructor || String.eqb name type_name_no_template_args
  else is_constructor.

(** The local [is_destructor] of [check_member_function]. *)
Definition is_destructor (name type_name_no_template_args : string) : bool :=
  let is_destructor :=
    String.eqb name "__dt" || String.eqb name "__comp_dtor" || String.eqb name "__base_dtor"
    || String.eqb name "__deleting_dtor" in
  if negb is_destructor && negb (String.eqb name "")
  then is_destructor
       || match name with
          | String c rest => Ascii.eqb c "~"%char && String.eqb rest type_name_no_template_args
          | EmptyString => false
          end
  else is_destructor.

Definition check_member_function (mangled_name type_name_no_template_args : string)
    (demangler : DemanglerFunctions) : MemberFunctionInfo :=
  let name := demangled_name mangled_name demangler in
  let is_constructor := is_constructor name type_name_no_template_args in
  let is_destructor := is_destructor name type_name_no_template_args in
  let is_constructor_or_destructor :=
    is_constructor || is_destructor || starts_with name "$_" in
  {| info_name := name;
     is_constructor_or_destructor := is_constructor_or_destructor;
     is_special_member_function := is_constructor_or_destructor || String.eqb name "operator=";
     is_operator_member_function := false |}.

(** [std::string_view(name).substr(0, name.find("<"))]. *)
Fixpoint strip_template_args (name : string) : string :=
  match name with
  | EmptyString => EmptyString
  | String c rest => if Ascii.eqb c "<"%char then EmptyString else String c (strip_template_args rest)
  end.

Section Lowerer.

Context `{Declarations}.

(** ** Bitfield detection *)

(** How the loop "Resolve type references" of [detect_bitfield] ends:
    [break] leaves the type to look at, [return false] gives up. *)
Inductive Resolution : Type :=
  | ResolvedTo (type : StabsType)
  | GaveUp.

(** The loop [for(s32 i = 0; i < 50; i++)], from iteration [i] on with
    [iterations] of them left. *)
Fixpoint resolve_type_references (state : StabsToAstState) (iterations : nat) (i : Z)
    (type : StabsType) : Resolution :=
  match iterations with
  | O => ResolvedTo type
  | S iterations' =>
      let next_iteration (next : StabsType) :=
        if i =? 49 then GaveUp
        else resolve_type_references state iterations' (i + 1) next in
      if negb (has_body type) then
        if anonymous type then GaveUp
        else
          match stabs_types state !! type_number type with
          | None => GaveUp
          | Some next_type =>
              if address next_type =? address type then GaveUp
              else next_iteration next_type
          end
      else
        match body type with
        | StabsTypeReferenceType referenced => next_iteration referenced
        | StabsConstQualifierType qualified => next_iteration qualified
        | StabsVolatileQualifierType qualified => next_iteration qualified
        | _ => ResolvedTo type
        end
  end.

(** The tail of [detect_bitfield], from the test of
    [underlying_type_size_bits] on. *)
Definition compare_sizes (field : Field) (underlying_type_size_bits : Z) : Result bool :=
  if underlying_type_size_bits =? 0 then Success false
  else Success (negb (field_size_bits field =? underlying_type_size_bits)).

(** The sizes are the values of the members as the parser stored them; the
    sources do not show the declared widths of those members. *)
Definition detect_bitfield (field : Field) (state : StabsToAstState) : Result bool :=
  if is_static field then Success false
  else
    match resolve_type_references state 50 0 (field_type field) with
    | GaveUp => Success false
    | ResolvedTo type =>
        match body type with
        | StabsRange range =>
            match classify_range range with
            | Failure message => Failure message
            | Success bclass => compare_sizes field (builtin_class_size bclass * 8)
            end
        | StabsCrossReferenceType FDT_ENUM _ => compare_sizes field 32
        | StabsCrossReferenceType _ _ => Success false
        | StabsSizeTypeAttributeType size_bits _ => compare_sizes field size_bits
        | StabsBuiltInType _ => compare_sizes field 8
        | _ => Success false
        end
    end.

(** ** Fields and member functions

    [field_to_ast] and [member_functions_to_ast] call [stabs_type_to_ast]
    back; they take it as [lower], and the recursion is closed below. *)

Definition Lower : Type :=
  StabsType -> option StabsType -> StabsToAstState -> Z -> bool -> bool -> Lowering ast.Node.

Definition field_to_ast (lower : Lower) (field : Field) (enclosing_struct : StabsType)
    (state : StabsToAstState) (depth : Z) : Lowering ast.Node :=
  let* is_bitfield := of_result (detect_bitfield field state) in
  if is_bitfield : bool then
    let* bitfield_node :=
      lower (field_type field) (Some enclosing_struct) state (depth + 1) true false in
    let bitfield := ast.make (ast.BitField bitfield_node (Z.rem (offset_bits field) 8)) in
    let bitfield :=
      ast.set_name (if String.eqb (field_name field) " " then "" else field_name field) bitfield in
    let bitfield := ast.set_offset_bytes (Z.quot (offset_bits field) 8) bitfield in
    let bitfield := ast.set_size_bits (field_size_bits field) bitfield in
    let bitfield :=
      ast.set_access_specifier
        (stabs_field_visibility_to_access_specifier (field_visibility field))
        (parser_flags state) bitfield in
    ret bitfield
  else
    let* node :=
      lower (field_type field) (Some enclosing_struct) state (depth + 1) true false in
    let node := ast.set_name (field_name field) node in
    let node := ast.set_offset_bytes (Z.quot (offset_bits field) 8) node in
    let node := ast.set_size_bits (field_size_bits field) node in
    let node :=
      ast.set_access_specifier
        (stabs_field_visibility_to_access_specifier (field_visibility field))
        (parser_flags state) node in
    let node :=
      if starts_with (field_name field) "$vf" || starts_with (field_name field) "_vptr$"
         || starts_with (field_name field) "_vptr."
      then ast.set_is_vtable_pointer true node else node in
    let node :=
      if is_static field then ast.set_storage_class ast.STORAGE_CLASS_STATIC node else node in
    ret node.

(** [is_special] of the first pass, for one overload of a set. *)
Definition is_special (function_set_name type_name_no_template_args : string)
    (func_type : StabsType) : bool :=
  let parameter_count :=
    match body func_type with
    | StabsMethodType _ parameter_types => Z.of_nat (length parameter_types)
    | _ => 0
    end in
  String.eqb function_set_name "__as"
  || String.eqb function_set_name "operator="
  || starts_with function_set_name "$"
  || (String.eqb function_set_name type_name_no_template_args && (parameter_count =? 0)).

Definition is_function_or_method (func_type : StabsType) : bool :=
  match descriptor func_type with
  | FUNCTION | METHOD => true
  | _ => false
  end.

(** The inner loop of the first pass: [only_special_functions] when it
    ends, [false] meaning that it broke out. *)
Fixpoint overloads_only_special (function_set_name type_name_no_template_args : string)
    (overloads : list MemberFunction) : bool :=
  match overloads with
  | [] => true
  | stabs_func :: rest =>
      if is_function_or_method (function_type stabs_func) then
        if negb (is_special function_set_name type_name_no_template_args
                   (function_type stabs_func))
        then false
        else overloads_only_special function_set_name type_name_no_template_args rest
      else overloads_only_special function_set_name type_name_no_template_args rest
  end.

(** The outer loop of the first pass. *)
Fixpoint sets_only_special (type_name_no_template_args : string)
    (sets : list MemberFunctionSet) : bool :=
  match sets with
  | [] => true
  | function_set :: rest =>
      if overloads_only_special (set_name function_set) type_name_no_template_args
           (overloads function_set)
      then sets_only_special type_name_no_template_args rest
      else false
  end.

(** The body of the inner loop of the second pass, for one overload. *)
Definition member_function_to_ast (lower : Lower) (info : MemberFunctionInfo)
    (type : StabsType) (state : StabsToAstState) (depth : Z) (stabs_func : MemberFunction)
    : Lowering ast.Node :=
  let* node := lower (function_type stabs_func) (Some type) state (depth + 1) true true in
  let node :=
    ast.set_member_function_flags (is_constructor_or_destructor info)
      (is_special_member_function info) (is_operator_member_function info) node in
  let node := ast.set_name (info_name info) node in
  let node :=
    ast.set_access_specifier
      (stabs_field_visibility_to_access_specifier (function_visibility stabs_func))
      (parser_flags state) node in
  ret (ast.set_function_members (modifier stabs_func) (vtable_index stabs_func) node).

(** The outer loop of the second pass: the functions appended to
    [member_functions] and the final [only_special_functions]. *)
Fixpoint member_function_sets_to_ast (lower : Lower) (type_name_no_template_args : string)
    (type : StabsType) (state : StabsToAstState) (depth : Z)
    (sets : list MemberFunctionSet) (only_special_functions : bool)
    : Lowering (list ast.Node * bool) :=
  match sets with
  | [] => ret ([], only_special_functions)
  | function_set :: rest =>
      let info :=
        check_member_function (set_name function_set) type_name_no_template_args
          (demangler state) in
      let only_special_functions :=
        if negb (is_special_member_function info) then false else only_special_functions in
      let* nodes :=
        for_each (member_function_to_ast lower info type state depth) (overloads function_set) in
      let* '(more, only_special_functions) :=
        member_function_sets_to_ast lower type_name_no_template_args type state depth rest
          only_special_functions in
      ret ((nodes ++ more)%list, only_special_functions)
  end.

(** [type] is the struct or union being lowered and [members] its
    [StabsStructOrUnionType] part. *)
Definition member_functions_to_ast (lower : Lower) (type : StabsType)
    (members : StabsStructOrUnionType) (state : StabsToAstState) (depth : Z)
    : Lowering (list ast.Node) :=
  if flag_set (parser_flags state) NO_MEMBER_FUNCTIONS then ret []
  else
    let type_name_no_template_args :=
      match name type with
      | Some type_name => strip_template_args type_name
      | None => ""
      end in
    if flag_set (parser_flags state) NO_GENERATED_MEMBER_FUNCTIONS
       && sets_only_special type_name_no_template_args (member_functions members)
    then ret []
    else
      let* '(member_functions, only_special_functions) :=
        member_function_sets_to_ast lower type_name_no_template_args type state depth
          (member_functions members) true in
      if only_special_functions && flag_set (parser_flags state) NO_GENERATED_MEMBER_FUNCTIONS
      then ret []
      else ret member_functions.

(** ** The lowering proper *)

(** [std::to_string] on an [s32]. *)
Definition to_string (v : Z) : string := pretty v.

Definition call_depth_message : string :=
  "Call depth greater than 200 in stabs_type_to_ast, probably infinite recursion.".

Definition lookup_failure_message (number : StabsTypeNumber) : string :=
  "Failed to lookup STABS type by its type number ("
  ++ to_string (file number) ++ "," ++ to_string (type number) ++ ").".

(** The [TypeName] that replaces a named type. *)
Definition reference_type_name (type_name : string) (state : StabsToAstState)
    (number : StabsTypeNumber) : ast.Node :=
  ast.make (ast.TypeName ast.REFERENCE
    {| ast.type_name := Some type_name;
       ast.referenced_file_handle := Some (file_handle state);
       ast.stabs_type_number_file := Some (file number);
       ast.stabs_type_number_type := Some (type number);
       ast.type := None |}).

(** The [TypeName] that stands for the enclosing struct itself. *)
Definition this_type_name (state : StabsToAstState) (number : StabsTypeNumber) : ast.Node :=
  ast.make (ast.TypeName ast.THIS
    {| ast.type_name := None;
       ast.referenced_file_handle := Some (file_handle state);
       ast.stabs_type_number_file := Some (file number);
       ast.stabs_type_number_type := Some (type number);
       ast.type := None |}).

(** The block "types are replaced with their type name": the node it
    returns, if it returns. *)
Definition substitute_name (type : StabsType) (state : StabsToAstState) (depth : Z)
    (substitute_type_name : bool) : option ast.Node :=
  match name type with
  | Some type_name =>
      let try_substitute :=
        (0 <? depth)
        && (is_root type
            || match descriptor type with RANGE | BUILTIN => true | _ => false end) in
      let is_name_empty := String.eqb type_name "" || String.eqb type_name " " in
      let is_cross_reference :=
        match descriptor type with CROSS_REFERENCE => true | _ => false end in
      let is_void := String.eqb type_name "void" || String.eqb type_name "__builtin_va_list" in
      if (substitute_type_name || try_substitute) && negb is_name_empty
         && negb is_cross_reference && negb is_void
      then Some (reference_type_name type_name state (type_number type))
      else None
  | None => None
  end.

(** The test of the block "prevents infinite recursion when an
    automatically generated member function references an unnamed type". *)
Definition substitute_this (type : StabsType) (enclosing_struct : option StabsType)
    (force_substitute : bool) : bool :=
  match enclosing_struct with
  | Some enclosing =>
      let can_compare_type_numbers := negb (anonymous type) && negb (anonymous enclosing) in
      force_substitute && can_compare_type_numbers
      && type_number_eq (type_number type) (type_number enclosing)
  | None => false
  end.

(** The [ARRAY] case after the element type has been lowered. [as<T>] on
    an index type that is not a range has no value to offer. The element
    count is the 64-bit value of [high_value + 1]. *)
Definition array_to_ast (element_node : ast.Node) (index_type : StabsType)
    : Lowering ast.Node :=
  match body index_type with
  | StabsRange index =>
      let '(low_value, low_end) := strtoll (c_str (low index)) 10 in
      of_result (
        CCC_CHECK low_end "Failed to parse low part of range as integer." (
        CCC_CHECK (low_value =? 0) "Invalid index type for array." (
        let '(high_value, high_end) := strtoll (c_str (high index)) 10 in
        CCC_CHECK high_end "Failed to parse low part of range as integer." (
        let element_count :=
          if high_value =? 4294967295 then 0 else wrap64 (high_value + 1) in
        Success (ast.make (ast.Array element_node element_count))))))
  | _ => fault
  end.

(** The [switch] of [stabs_type_to_ast]. Every call of [lower] is made at
    [depth + 1] and only when [depth <= 200], so the 32-bit [depth + 1]
    does not wrap. Every case assigns [result], so the check for a null
    [result] that follows the [switch] always passes. *)
Definition dispatch (lower : Lower) (type : StabsType) (enclosing_struct : option StabsType)
    (state : StabsToAstState) (depth : Z) (substitute_type_name force_substitute : bool)
    : Lowering ast.Node :=
  match body type with
  | StabsTypeReferenceType referenced =>
      if anonymous type || anonymous referenced
         || negb (type_number_eq (type_number referenced) (type_number type))
      then
        let* node :=
          lower referenced enclosing_struct state (depth + 1) substitute_type_name
            force_substitute in
        ret node
      else ret (ast.make (ast.BuiltIn VOID))
  | StabsArrayType index_type element_type =>
      let* element_node :=
        lower element_type enclosing_struct state (depth + 1) true force_substitute in
      array_to_ast element_node index_type
  | StabsEnumType fields => ret (ast.make (ast.Enum fields))
  | StabsFunctionType return_type =>
      let* node := lower return_type enclosing_struct state (depth + 1) true force_substitute in
      ret (ast.make (ast.Function node None None None))
  | StabsVolatileQualifierType qualified =>
      let* node :=
        lower qualified enclosing_struct state (depth + 1) substitute_type_name
          force_substitute in
      ret (ast.set_is_volatile true node)
  | StabsConstQualifierType qualified =>
      bind_unchecked
        (lower qualified enclosing_struct state (depth + 1) substitute_type_name
           force_substitute)
        (fun node => ret (ast.set_is_const true node))
  | StabsRange range =>
      let* bclass := of_result (classify_range range) in
      ret (ast.make (ast.BuiltIn bclass))
  | StabsStructType members | StabsUnionType members =>
      let is_struct := match descriptor type with STRUCT => true | _ => false end in
      let size_bits := wrap32 (wrap32 (size members) * 8) in
      let* base_classes :=
        for_each
          (fun stabs_base_class =>
             let* base_class :=
               lower (base_type stabs_base_class) (Some type) state (depth + 1) true
                 force_substitute in
             let base_class := ast.set_is_base_class true base_class in
             let base_class := ast.set_offset_bytes (base_offset stabs_base_class) base_class in
             ret (ast.set_access_specifier
                    (stabs_field_visibility_to_access_specifier
                       (base_visibility stabs_base_class))
                    (parser_flags state) base_class))
          (base_classes members) in
      let* fields :=
        for_each (fun field => field_to_ast lower field type state depth) (fields members) in
      let* member_functions := member_functions_to_ast lower type members state depth in
      ret (ast.set_size_bits size_bits
             (ast.make (ast.StructOrUnion is_struct base_classes fields member_functions)))
  | StabsCrossReferenceType forward_declared identifier =>
      ret (ast.make (ast.TypeName ast.CROSS_REFERENCE
             {| ast.type_name := Some identifier;
                ast.referenced_file_handle := None;
                ast.stabs_type_number_file := None;
                ast.stabs_type_number_type := None;
                ast.type := Some forward_declared |}))
  | StabsFloatingPointBuiltInType _ bytes =>
      let bclass :=
        if bytes =? 1 then UNSIGNED_8
        else if bytes =? 2 then UNSIGNED_16
        else if bytes =? 4 then UNSIGNED_32
        else if bytes =? 8 then UNSIGNED_64
        else if bytes =? 16 then UNSIGNED_128
        else UNSIGNED_8 in
      ret (ast.make (ast.BuiltIn bclass))
  | StabsMethodType return_type parameter_types =>
      let* return_node := lower return_type enclosing_struct state (depth + 1) true true in
      let* parameters :=
        for_each
          (fun parameter_type =>
             lower parameter_type enclosing_struct state (depth + 1) true true)
          parameter_types in
      ret (ast.make (ast.Function return_node (Some parameters) None None))
  | StabsPointerType value_type =>
      let* value_node :=
        lower value_type enclosing_struct state (depth + 1) true force_substitute in
      ret (ast.make (ast.PointerOrReference true value_node))
  | StabsReferenceType value_type =>
      let* value_node :=
        lower value_type enclosing_struct state (depth + 1) true force_substitute in
      ret (ast.make (ast.PointerOrReference false value_node))
  | StabsSizeTypeAttributeType size_bits attributed =>
      let* node :=
        lower attributed enclosing_struct state (depth + 1) substitute_type_name
          force_substitute in
      ret (ast.set_size_bits size_bits node)
  | StabsPointerToDataMemberType class_type member_type =>
      let* class_node := lower class_type enclosing_struct state (depth + 1) true true in
      let* member_node := lower member_type enclosing_struct state (depth + 1) true true in
      ret (ast.make (ast.PointerToDataMember class_node member_node))
  | StabsBuiltInType type_id =>
      if type_id =? 16 then ret (ast.make (ast.BuiltIn BOOL_8))
      else CCC_FAILURE "Unknown built-in type!"
  end.

(** The part of [stabs_type_to_ast] for a type without a body. *)
Definition lookup_body (lower : Lower) (type : StabsType) (enclosing_struct : option StabsType)
    (state : StabsToAstState) (depth : Z) (substitute_type_name force_substitute : bool)
    : Lowering ast.Node :=
  if anonymous type then CCC_FAILURE "Cannot lookup type (type is anonymous)."
  else
    match stabs_types state !! type_number type with
    | None =>
        let error_message := lookup_failure_message (type_number type) in
        if flag_set (parser_flags state) STRICT_PARSING then CCC_FAILURE error_message
        else
          let* _ := CCC_WARN error_message in
          ret (ast.make (ast.Error error_message))
    | Some stabs_type =>
        lower stabs_type enclosing_struct state (depth + 1) substitute_type_name
          force_substitute
    end.

(** One call of [stabs_type_to_ast], its recursive calls going to [lower]. *)
Definition stabs_type_to_ast_body (lower : Lower) (type : StabsType)
    (enclosing_struct : option StabsType) (state : StabsToAstState) (depth : Z)
    (substitute_type_name force_substitute : bool) : Lowering ast.Node :=
  if 200 <? depth then
    if flag_set (parser_flags state) STRICT_PARSING then CCC_FAILURE call_depth_message
    else ret (ast.make (ast.Error call_depth_message))
  else
    match substitute_name type state depth substitute_type_name with
    | Some type_name => ret type_name
    | None =>
        if substitute_this type enclosing_struct force_substitute
        then ret (this_type_name state (type_number type))
        else if negb (has_body type)
        then lookup_body lower type enclosing_struct state depth substitute_type_name
               force_substitute
        else dispatch lower type enclosing_struct state depth substitute_type_name
               force_substitute
    end.

(** The recursion, closed on a count of the nested calls still allowed. *)
Fixpoint stabs_type_to_ast_fuel (fuel : nat) : Lower :=
  fun type enclosing_struct state depth substitute_type_name force_substitute =>
    match fuel with
    | O => (OutOfFuel, [])
    | S fuel' =>
        stabs_type_to_ast_body (stabs_type_to_ast_fuel fuel') type enclosing_struct state depth
          substitute_type_name force_substitute
    end.

(** Nested calls that a call at [depth] can need: one per level up to the
    level 201, which returns at once. *)
Definition call_budget (depth : Z) : nat := S (Z.to_nat (201 - depth)).

Definition stabs_type_to_ast : Lower :=
  fun type enclosing_struct state depth substitute_type_name force_substitute =>
    stabs_type_to_ast_fuel (call_budget depth) type enclosing_struct state depth
      substitute_type_name force_substitute.

End Lowerer.

(** ** The mdebug symbolic header: [parse_symbol_table] *)

Module mdebug.

(** Modelled from the spec: [verify], [get_packed], [get_string] and
    [get_c_string] are declared in headers that are not part of the
    sources. [verify] fails with the message written at the call; the
    readers follow section 4.1 of the specification, and fail with
    [BadRecord] when the record would exceed the image and with
    [UnterminatedString] when no NUL follows. *)
Inductive Error : Type :=
  | VerifyFailed (message : string)
  | BadRecord (label : string) (offset : Z)
  | UnterminatedString (offset : Z).

(** A computation on the image: how it ends, and the records it has read
    (label and offset), in order. *)
Definition Parse (A : Type) : Type := (Error + A) * list (string * Z).

Definition ret {A} (a : A) : Parse A := (inr a, []).
Definition fail {A} (e : Error) : Parse A := (inl e, []).
Definition bind {A B} (m : Parse A) (k : A -> Parse B) : Parse B :=
  match m with
  | (inr a, reads) => let '(r, reads') := k a in (r, (reads ++ reads')%list)
  | (inl e, reads) => (inl e, reads)
  end.

Notation "'do*' x := m 'in' k" := (bind m (fun x => k))
  (at level 10, x name, m at level 100, k at level 200).
Notation "'do*' '_' := m 'in' k" := (bind m (fun _ => k))
  (at level 10, m at level 100, k at level 200).
Notation "'do*' ' p := m 'in' k" := (bind m (fun x => match x with p => k end))
  (at level 10, p pattern, m at level 100, k at level 200).

Definition verify (condition : bool) (message : string) : Parse unit :=
  if condition then ret tt else fail (VerifyFailed message).

Fixpoint for_each {A B} (f : A -> Parse B) (l : list A) : Parse (list B) :=
  match l with
  | [] => ret []
  | x :: rest => do* y := f x in do* ys := for_each f rest in ret (y :: ys)
  end.

(** Unsigned and signed views of fixed-width integers. *)
Definition to_u32 (v : Z) : Z := v mod 2 ^ 32.
Definition to_u64 (v : Z) : Z := v mod 2 ^ 64.
Definition to_s16 (v : Z) : Z := (v + 2 ^ 15) mod 2 ^ 16 - 2 ^ 15.
Definition to_s32 (v : Z) : Z := (v + 2 ^ 31) mod 2 ^ 32 - 2 ^ 31.

(** Little-endian fields of a packed record that starts at [base]. *)
Definition u8_at (image : list byte) (offset : Z) : Z :=
  match image !! Z.to_nat offset with
  | Some b => Z.of_N (Byte.to_N b)
  | None => 0
  end.
Definition u16_at (image : list byte) (offset : Z) : Z :=
  Z.lor (u8_at image offset) (Z.shiftl (u8_at image (offset + 1)) 8).
Definition u32_at (image : list byte) (offset : Z) : Z :=
  Z.lor (u16_at image offset) (Z.shiftl (u16_at image (offset + 2)) 16).
Definition s16_at (image : list byte) (offset : Z) : Z := to_s16 (u16_at image offset).
Definition s32_at (image : list byte) (offset : Z) : Z := to_s32 (u32_at image offset).

Record SymbolicHeader : Type := {
  magic : Z;
  version_stamp : Z;
  line_number_count : Z;
  line_numbers_size_bytes : Z;
  line_numbers_offset : Z;
  dense_numbers_count : Z;
  dense_numbers_offset : Z;
  procedure_descriptor_count : Z;
  procedure_descriptors_offset : Z;
  local_symbol_count : Z;
  local_symbols_offset : Z;
  optimization_symbols_count : Z;
  optimization_symbols_offset : Z;
  auxiliary_symbol_count : Z;
  auxiliary_symbols_offset : Z;
  local_strings_size_bytes : Z;
  local_strings_offset : Z;
  external_strings_size_bytes : Z;
  external_strings_offset : Z;
  file_descriptor_count : Z;
  file_descriptors_offset : Z;
  relative_file_descriptor_count : Z;
  relative_file_descriptors_offset : Z;
  external_symbols_count : Z;
  external_symbols_offset : Z }.

Definition sizeof_SymbolicHeader : Z := 0x60.

Definition SymbolicHeader_at (image : list byte) (base : Z) : SymbolicHeader := {|
  magic := s16_at image (base + 0x00);
  version_stamp := s16_at image (base + 0x02);
  line_number_count := s32_at image (base + 0x04);
  line_numbers_size_bytes := s32_at image (base + 0x08);
  line_numbers_offset := s32_at image (base + 0x0c);
  dense_numbers_count := s32_at image (base + 0x10);
  dense_numbers_offset := s32_at image (base + 0x14);
  procedure_descriptor_count := s32_at image (base + 0x18);
  procedure_descriptors_offset := s32_at image (base + 0x1c);
  local_symbol_count := s32_at image (base + 0x20);
  local_symbols_offset := s32_at image (base + 0x24);
  optimization_symbols_count := s32_at image (base + 0x28);
  optimization_symbols_offset := s32_at image (base + 0x2c);
  auxiliary_symbol_count := s32_at image (base + 0x30);
  auxiliary_symbols_offset := s32_at image (base + 0x34);
  local_strings_size_bytes := s32_at image (base + 0x38);
  local_strings_offset := s32_at image (base + 0x3c);
  external_strings_size_bytes := s32_at image (base + 0x40);
  external_strings_offset := s32_at image (base + 0x44);
  file_descriptor_count := s32_at image (base + 0x48);
  file_descriptors_offset := s32_at image (base + 0x4c);
  relative_file_descriptor_count := s32_at image (base + 0x50);
  relative_file_descriptors_offset := s32_at image (base + 0x54);
  external_symbols_count := s32_at image (base + 0x58);
  external_symbols_offset := s32_at image (base + 0x5c) |}.

(** The members of [FileDescriptor] that [parse_symbol_table] reads;
    [f_big_endian] is bit 7 of the word at 0x3c. *)
Record FileDescriptor : Type := {
  fd_address : Z;
  file_path_string_offset : Z;
  strings_offset : Z;
  isym_base : Z;
  symbol_count : Z;
  f_big_endian : Z }.

Definition sizeof_FileDescriptor : Z := 0x48.

Definition FileDescriptor_at (image : list byte) (base : Z) : FileDescriptor := {|
  fd_address := u32_at image (base + 0x00);
  file_path_string_offset := s32_at image (base + 0x04);
  strings_offset := s32_at image (base + 0x08);
  isym_base := s32_at image (base + 0x10);
  symbol_count := s32_at image (base + 0x14);
  f_big_endian := Z.land (Z.shiftr (u32_at image (base + 0x3c)) 7) 1 |}.

Record LocalSymbol : Type := {
  iss : Z;
  sym_value : Z;
  st : Z;
  sc : Z;
  sym_index : Z }.

Definition sizeof_LocalSymbol : Z := 0xc.

Definition LocalSymbol_at (image : list byte) (base : Z) : LocalSymbol := {|
  iss := u32_at image (base + 0x00);
  sym_value := s32_at image (base + 0x04);
  st := Z.land (u32_at image (base + 0x08)) 0x3f;
  sc := Z.land (Z.shiftr (u32_at image (base + 0x08)) 6) 0x1f;
  sym_index := Z.land (Z.shiftr (u32_at image (base + 0x08)) 12) 0xfffff |}.

(** [get_packed<T>(image, offset, subject)], with [decode] and [size]
    standing for [T]. The read is recorded. *)
Definition get_packed {T} (decode : list byte -> Z -> T) (size : Z) (image : list byte)
    (offset : Z) (subject : string) : Parse T :=
  if offset + size <=? Z.of_nat (length image)
  then (inr (decode image offset), [(subject, offset)])
  else (inl (BadRecord subject offset), [(subject, offset)]).

(** The bytes from [offset] up to the next NUL, if there is one. *)
Fixpoint c_string_of (bytes : list byte) : option string :=
  match bytes with
  | [] => None
  | b :: rest =>
      if Byte.eqb b "000"%byte then Some EmptyString
      else option_map (String (ascii_of_byte b)) (c_string_of rest)
  end.

Definition get_string (image : list byte) (offset : Z) : Parse string :=
  match c_string_of (drop (Z.to_nat offset) image) with
  | Some s => ret s
  | None => fail (UnterminatedString offset)
  end.

Definition get_c_string (image : list byte) (offset : Z) : Parse string :=
  get_string image offset.

Inductive SourceLanguage : Set := UNKNOWN | C | CPP | ASSEMBLY.

Record Symbol : Type := {
  string_ : string;
  value : Z;
  storage_type : Z;
  storage_class : Z;
  index : Z }.

Record SymFileDescriptor : Type := {
  header_ : FileDescriptor;
  raw_path : string;
  base_path : string;
  full_path : string;
  detected_language : SourceLanguage;
  symbols : list Symbol }.

Record SymbolTable : Type := {
  header : SymbolicHeader;
  procedure_descriptor_table_offset : Z;
  local_symbol_table_offset : Z;
  file_descriptor_table_offset : Z;
  files : list SymFileDescriptor }.

(** Declarations that the sources use and do not contain: the value of
    [SymbolType::LABEL], and the path join followed by
    [fs::weakly_canonical], which consults the file system. *)
Class Declarations : Type := {
  LABEL : Z;
  weakly_canonical_join : string -> string -> string }.

Definition tolower (c : ascii) : ascii :=
  let n := N_of_ascii c in
  if ((65 <=? n) && (n <=? 90))%N then ascii_of_N (n + 32) else c.

Fixpoint map_string (f : ascii -> ascii) (s : string) : string :=
  match s with
  | EmptyString => EmptyString
  | String c rest => String (f c) (map_string f rest)
  end.

(** [std::string::ends_with]. *)
Definition ends_with (s suffix : string) : bool :=
  let n := String.length s in
  let m := String.length suffix in
  (m <=? n)%nat && String.eqb (String.substring (n - m) m s) suffix.

(** [s[i]]; the character at [size()] is NUL. *)
Definition char_at (s : string) (i : nat) : ascii :=
  match String.get i s with
  | Some c => c
  | None => "000"%char
  end.

Definition slashes (c : ascii) : ascii :=
  if Ascii.eqb c "\"%char then "/"%char else c.

Section Reader.

Context `{Declarations}.

(** The body of the loop "Read symbols", which also maintains
    [fd.base_path]. *)
Fixpoint read_symbols (image : list byte) (hdrr : SymbolicHeader) (fd_header : FileDescriptor)
    (js : list Z) (symbols : list Symbol) (base_path : string)
    : Parse (list Symbol * string) :=
  match js with
  | [] => ret (symbols, base_path)
  | j :: rest =>
      let sym_offset :=
        to_u64 (local_symbols_offset hdrr + to_u64 ((isym_base fd_header + j) * sizeof_LocalSymbol)) in
      do* sym_entry := get_packed LocalSymbol_at sizeof_LocalSymbol image sym_offset "local symbol" in
      do* name :=
        get_c_string image
          (to_u32 (to_s32 (local_strings_offset hdrr + strings_offset fd_header) + iss sym_entry)) in
      let sym := {|
        string_ := name;
        value := sym_value sym_entry;
        storage_type := st sym_entry;
        storage_class := sc sym_entry;
        index := sym_index sym_entry |} in
      let symbols := (symbols ++ [sym])%list in
      let base_path :=
        if String.eqb base_path ""
           && (iss sym_entry =? to_u32 (file_path_string_offset fd_header))
           && (storage_type sym =? LABEL)
           && (2 <? Z.of_nat (length symbols))
        then
          match symbols !! (length symbols - 2)%nat with
          | Some previous =>
              if storage_type previous =? LABEL then string_ previous else base_path
          | None => base_path
          end
        else base_path in
      read_symbols image hdrr fd_header rest symbols base_path
  end.

(** The body of the loop "Iterate over file descriptors". *)
Definition read_file_descriptor (image : list byte) (hdrr : SymbolicHeader) (i : Z)
    : Parse SymFileDescriptor :=
  let fd_offset := to_u64 (file_descriptors_offset hdrr + to_u64 (i * sizeof_FileDescriptor)) in
  do* fd_header :=
    get_packed FileDescriptor_at sizeof_FileDescriptor image fd_offset "file descriptor" in
  do* _ := verify (f_big_endian fd_header =? 0) "Not little endian or bad file descriptor table." in
  do* raw :=
    get_string image
      (to_u64 (to_s32 (to_s32 (local_strings_offset hdrr + strings_offset fd_header)
                       + file_path_string_offset fd_header))) in
  let lower_name := map_string tolower raw in
  let language :=
    if ends_with lower_name ".c" then C
    else if ends_with lower_name ".cpp" || ends_with lower_name ".cc"
            || ends_with lower_name ".cxx" then CPP
    else if ends_with lower_name ".s" || ends_with lower_name ".asm" then ASSEMBLY
    else UNKNOWN in
  do* '(symbols, base) :=
    read_symbols image hdrr fd_header (seqZ 0 (symbol_count fd_header)) [] "" in
  let base_path' := map_string slashes base in
  let raw_path' := map_string slashes raw in
  let full :=
    if String.eqb base_path' ""
       || Ascii.eqb (char_at raw_path' 0) "/"%char
       || (Ascii.eqb (char_at raw_path' 1) ":"%char && Ascii.eqb (char_at raw_path' 2) "/"%char)
    then raw_path'
    else weakly_canonical_join base_path' raw_path' in
  ret {| header_ := fd_header; raw_path := raw; base_path := base; full_path := full;
         detected_language := language; symbols := symbols |}.

Definition parse_symbol_table (image : list byte) (file_offset : Z) : Parse SymbolTable :=
  do* hdrr :=
    get_packed SymbolicHeader_at sizeof_SymbolicHeader image file_offset "MIPS debug section" in
  do* _ := verify (magic hdrr =? 0x7009) "Invalid symbolic header." in
  do* files :=
    for_each (read_file_descriptor image hdrr) (seqZ 0 (file_descriptor_count hdrr)) in
  ret {| header := hdrr;
         procedure_descriptor_table_offset := procedure_descriptors_offset hdrr;
         local_symbol_table_offset := local_symbols_offset hdrr;
         file_descriptor_table_offset := file_descriptors_offset hdrr;
         files := files |}.

End Reader.

End mdebug.

(** ** Concrete inputs

    One admissible choice of the missing declarations, used to evaluate the
    lowering: the three flags are distinct bits, and a built-in class has
    the size its name carries. *)

Module Examples.

#[export] Instance example_declarations : Declarations := {|
  STRICT_PARSING := 1;
  NO_MEMBER_FUNCTIONS := 2;
  NO_GENERATED_MEMBER_FUNCTIONS := 4;
  builtin_class_size := fun bclass =>
    match bclass with
    | VOID => 0
    | BOOL_8 | UNSIGNED_8 | SIGNED_8 | UNQUALIFIED_8 => 1
    | UNSIGNED_16 | SIGNED_16 => 2
    | UNSIGNED_32 | SIGNED_32 | FLOAT_32 => 4
    | UNSIGNED_64 | SIGNED_64 | FLOAT_64 => 8
    | UNSIGNED_128 | SIGNED_128 | UNQUALIFIED_128 | FLOAT_128 => 16
    end |}.

Definition no_demangler : DemanglerFunctions := {| cplus_demangle_opname := None |}.

(** A state with an empty index of types. *)
Definition empty_state (flags : Z) : StabsToAstState := {|
  file_handle := 7; stabs_types := ∅; parser_flags := flags; demangler := no_demangler |}.

Definition number (f t : Z) : StabsTypeNumber := {| file := f; type := t |}.

(** A type with a body, no name, numbered [(0, n)], at address [n]. *)
Definition unnamed (n : Z) (b : StabsTypeBody) : StabsType :=
  mkStabsType n (number 0 n) None false false true b.

(** A root type with a name and a body. *)
Definition named (n : Z) (type_name : string) (b : StabsTypeBody) : StabsType :=
  mkStabsType n (number 0 n) (Some type_name) true false true b.

(** A reference to the type numbered [(0, 9)], which no index holds. *)
Definition dangling : StabsType :=
  mkStabsType 1 (number 0 9) None false false false (StabsBuiltInType 16).

Definition const_dangling : StabsType := unnamed 2 (StabsConstQualifierType dangling).
Definition volatile_dangling : StabsType := unnamed 2 (StabsVolatileQualifierType dangling).

(** A body-less type marked anonymous. *)
Definition anonymous_reference : StabsType :=
  mkStabsType 1 (number 0 9) None false true false (StabsBuiltInType 16).

Definition bool_type : StabsType := unnamed 3 (StabsBuiltInType 16).

Definition int_type : StabsType :=
  unnamed 4 (StabsRange {| low := "-2147483648"; high := "2147483647" |}).

(** [int[10]]: scenario S4 of the specification. *)
Definition array_of_ten : StabsType :=
  unnamed 5 (StabsArrayType (unnamed 6 (StabsRange {| low := "0"; high := "9" |})) int_type).

(** An array whose index range ends below zero. *)
Definition array_below_zero : StabsType :=
  unnamed 7 (StabsArrayType (unnamed 8 (StabsRange {| low := "0"; high := "-5" |})) int_type).

(** A named range type, as met below the root of a symbol. *)
Definition named_int : StabsType :=
  mkStabsType 4 (number 0 4) (Some "int") true false true
    (StabsRange {| low := "-2147483648"; high := "2147483647" |}).

(** A method without parameters that returns [bool]. *)
Definition method_type : StabsType := unnamed 10 (StabsMethodType bool_type []).

Definition method (n : string) : MemberFunctionSet :=
  mkMemberFunctionSet n [mkMemberFunction method_type VIS_PUBLIC 0 0].

(** [struct Foo] with the member functions [operator=] and [bar]. *)
Definition foo_members : StabsStructOrUnionType :=
  mkStabsStructOrUnionType 4 [] [] [method "operator="; method "bar"].
Definition foo : StabsType := named 20 "Foo" (StabsStructType foo_members).

(** [struct Foo] with a constructor only: scenario S6 of the specification. *)
Definition foo_constructor_members : StabsStructOrUnionType :=
  mkStabsStructOrUnionType 4 [] [] [method "Foo"].
Definition foo_constructor : StabsType :=
  named 20 "Foo" (StabsStructType foo_constructor_members).

(** A type without a body, numbered [(0, 1)], in an index that resolves
    [(0, 1)] to that very type: a cycle of length one. *)
Definition self_reference : StabsType :=
  mkStabsType 40 (number 0 1) None false false false (StabsBuiltInType 16).

Definition cyclic_state (flags : Z) : StabsToAstState := {|
  file_handle := 7;
  stabs_types := {[ number 0 1 := self_reference ]};
  parser_flags := flags;
  demangler := no_demangler |}.

(** A field of eight bits whose type is declared zero bits wide. *)
Definition zero_sized_field : Field :=
  mkField "flags" VIS_PUBLIC (unnamed 30 (StabsSizeTypeAttributeType 0 bool_type))
    false 0 8.

(** [n] [volatile] qualifiers around a type. *)
Fixpoint qualified (n : nat) (t : StabsType) : StabsType :=
  match n with
  | O => t
  | S n' => unnamed (100 + Z.of_nat n) (StabsVolatileQualifierType (qualified n' t))
  end.

(** A field of one bit behind 50 qualifiers. *)
Definition deeply_qualified_field : Field :=
  mkField "flag" VIS_PUBLIC (qualified 50 bool_type) false 0 1.

(** A field of one bit whose type is a built-in of an unknown id. *)
Definition unknown_builtin_field : Field :=
  mkField "flag" VIS_PUBLIC (unnamed 31 (StabsBuiltInType 5)) false 0 1.

(** Scenario S5 of the specification: three bits at bit 5 of an
    [unsigned int]. *)
Definition unsigned_int_type : StabsType :=
  unnamed 32 (StabsRange {| low := "0"; high := "4294967295" |}).
Definition three_bits : Field := mkField "bits" VIS_PUBLIC unsigned_int_type false 5 3.

(** One admissible choice of what the reader leaves open: the ECOFF code
    of a label, and a join that does not consult any file system. *)
#[export] Instance example_reader_declarations : mdebug.Declarations := {|
  mdebug.LABEL := 5;
  mdebug.weakly_canonical_join := fun base_path raw_path => base_path ++ "/" ++ raw_path |}.

(** A section of 0x60 zero bytes: scenario S1 of the specification. *)
Definition zero_section : list byte := repeat x00 96.

(** A symbolic header with the right magic and no file descriptor. *)
Definition empty_section : list byte := ([x09; x70] ++ repeat x00 94)%list.

End Examples.

(** ** The second pass of [member_functions_to_ast], seen as one loop

    Every overload of every set, in order, each with its set. *)
Definition every_overload (sets : list MemberFunctionSet)
    : list (MemberFunctionSet * MemberFunction) :=
  flat_map (fun function_set => map (pair function_set) (overloads function_set)) sets.

(** Lowering every overload of every set, each classified by the name of
    its set. *)
Definition lower_every_overload (lower : Lower) (type_name_no_template_args : string)
    (type : StabsType) (state : StabsToAstState) (depth : Z) (sets : list MemberFunctionSet)
    : Lowering (list ast.Node) :=
  for_each
    (fun overload : MemberFunctionSet * MemberFunction =>
       member_function_to_ast lower
         (check_member_function (set_name overload.1) type_name_no_template_args
            (demangler state))
         type state depth overload.2)
    (every_overload sets).

(** Whether [check_member_function] finds the name of every set special. *)
Definition every_set_special (type_name_no_template_args : string) (state : StabsToAstState)
    (sets : list MemberFunctionSet) : bool :=
  forallb
    (fun function_set =>
       is_special_member_function
         (check_member_function (set_name function_set) type_name_no_template_args
            (demangler state)))
    sets.

(** ** The element count of an array, in the words of the specification

    The count is 0 for the high bound 4294967295; in every other case it
    is the high bound plus one, where the high bound is not negative. *)
Definition element_count_as_specified (high_value element_count : Z) : Prop :=
  (high_value = 4294967295 /\ element_count = 0)
  \/ (high_value <> 4294967295 /\ 0 <= high_value /\ element_count = high_value + 1).

(** ** Bitfields, in the words of the specification *)

Section BitfieldWords.

Context `{Declarations}.

(** One resolution step: through a type reference, a qualifier, or, for a
    type without a body, through the index of types, which fails on an
    anonymous type, on a miss and on an entry that is the type itself. *)
Inductive resolution_step (state : StabsToAstState) : StabsType -> StabsType -> Prop :=
  | step_type_reference t referenced :
      has_body t = true -> body t = StabsTypeReferenceType referenced ->
      resolution_step state t referenced
  | step_const_qualifier t qualified :
      has_body t = true -> body t = StabsConstQualifierType qualified ->
      resolution_step state t qualified
  | step_volatile_qualifier t qualified :
      has_body t = true -> body t = StabsVolatileQualifierType qualified ->
      resolution_step state t qualified
  | step_index t next :
      has_body t = false -> anonymous t = false ->
      stabs_types state !! type_number t = Some next ->
      address next <> address t ->
      resolution_step state t next.

(** A type with nothing left to resolve. *)
Definition resolved (t : StabsType) : Prop :=
  has_body t = true
  /\ match body t with
     | StabsTypeReferenceType _ | StabsConstQualifierType _ | StabsVolatileQualifierType _ =>
         False
     | _ => True
     end.

(** [resolves_in state n t final]: [n] steps lead from [t] to the resolved
    type [final]. *)
Inductive resolves_in (state : StabsToAstState) : nat -> StabsType -> StabsType -> Prop :=
  | resolves_now t : resolved t -> resolves_in state 0 t t
  | resolves_later n t next final :
      resolution_step state t next -> resolves_in state n next final ->
      resolves_in state (S n) t final.

(** The bit size that the descriptor of a resolved type yields. *)
Definition underlying_bits (t : StabsType) : option Z :=
  match body t with
  | StabsRange range =>
      match classify_range range with
      | Success bclass => Some (builtin_class_size bclass * 8)
      | Failure _ => None
      end
  | StabsCrossReferenceType FDT_ENUM _ => Some 32
  | StabsSizeTypeAttributeType size_bits _ => Some size_bits
  | StabsBuiltInType _ => Some 8
  | _ => None
  end.

(** The condition of the specification as it is written: at most 50
    steps, and a bit size that differs from the size of the field. *)
Definition bitfield_as_specified (field : Field) (state : StabsToAstState) : Prop :=
  is_static field = false
  /\ exists n final bits,
       (n <= 50)%nat /\ resolves_in state n (field_type field) final
       /\ underlying_bits final = Some bits
       /\ field_size_bits field <> bits.

(** The condition that the code decides: at most 49 steps, and a bit size
    other than 0 that differs from the size of the field. *)
Definition bitfield_condition (field : Field) (state : StabsToAstState) : Prop :=
  is_static field = false
  /\ exists n final bits,
       (n <= 49)%nat /\ resolves_in state n (field_type field) final
       /\ underlying_bits final = Some bits
       /\ bits <> 0
       /\ field_size_bits field <> bits.

End BitfieldWords.

(** A computation is [defined] when the model did not run out of fuel. *)
Definition defined {A} (m : Lowering A) : Prop := m.1 <> OutOfFuel.

(** Two candidates for the recursive call agree on the calls made at
    [depth]. *)
Definition agree_at (depth : Z) (l1 l2 : Lower) : Prop :=
  forall type enclosing state substitute force,
    l1 type enclosing state depth substitute force
    = l2 type enclosing state depth substitute force.

Definition defined_at (depth : Z) (l : Lower) : Prop :=
  forall type enclosing state substitute force,
    defined (l type enclosing state depth substitute force).

(** A candidate for the recursive call that never returns a [BitField]. *)
Definition no_bitfield (m : Lowering ast.Node) : Prop :=
  forall node warnings, m = (Returned (Success node), warnings) -> ast.is_bitfield node = false.

Definition no_bitfield_from (l : Lower) : Prop :=
  forall type enclosing state depth substitute force,
    no_bitfield (l type enclosing state depth substitute force).

(** ** What the reader reads: predicates on its trace *)

(** The size of the record that a read with this label fetches. *)
Definition record_size (subject : string) : Z :=
  if String.eqb subject "MIPS debug section" then mdebug.sizeof_SymbolicHeader
  else if String.eqb subject "file descriptor" then mdebug.sizeof_FileDescriptor
  else mdebug.sizeof_LocalSymbol.

(** The record of a read lies within the image. *)
Definition read_within (image : list byte) (read : string * Z) : Prop :=
  0 <= read.2 /\ read.2 + record_size read.1 <= Z.of_nat (length image).

(** The offset of the file descriptor [i], as the loop computes it. *)
Definition file_descriptor_offset (hdrr : mdebug.SymbolicHeader) (i : Z) : Z :=
  mdebug.to_u64
    (mdebug.file_descriptors_offset hdrr + mdebug.to_u64 (i * mdebug.sizeof_FileDescriptor)).

Section BasePath.

Context `{mdebug.Declarations}.

(** [base] is the string of a label that is not the first symbol and is
    followed by another label. *)
Definition base_path_found (symbols : list mdebug.Symbol) (base : string) : Prop :=
  exists (k : nat) previous current,
    (1 <= k)%nat
    /\ symbols !! k = Some previous
    /\ symbols !! S k = Some current
    /\ mdebug.storage_type previous = mdebug.LABEL
    /\ mdebug.storage_type current = mdebug.LABEL
    /\ mdebug.string_ previous = base.

End BasePath.

(** ** [src/ccc/util.cpp]: strings and paths *)

Module util.

(** How a function that indexes a vector ends: with a value, with an
    access out of range, or with the fuel of a loop used up. *)
Inductive Run (A : Type) : Type :=
  | Done (a : A)
  | OutOfRange
  | OutOfFuel.

Arguments Done {A} a.
Arguments OutOfRange {A}.
Arguments OutOfFuel {A}.

(** The C string that starts at the head of [bytes]: the characters up to
    the first NUL. *)
Fixpoint c_string_at (bytes : list byte) : string :=
  match bytes with
  | [] => EmptyString
  | b :: rest =>
      if Byte.eqb b x00 then EmptyString else String (ascii_of_byte b) (c_string_at rest)
  end.

(** [get_string]: [bytes.data() + offset] points into the vector, or just
    behind it, for an offset of at most [bytes.size()] only; there is no
    test for it, and from any other offset the loop compares and reads
    through a pointer that has left the vector. Within the vector the
    loop looks for a NUL from [offset] to the end; the pointer returned
    is that of [offset]. *)
Definition get_string (bytes : list byte) (offset : Z) : Run (Result string) :=
  if (0 <=? offset) && (offset <=? Z.of_nat (length bytes)) then
    let rest := drop (Z.to_nat offset) bytes in
    Done (if existsb (fun c => Byte.eqb c x00) rest
          then Success (c_string_at rest)
          else Failure "Unexpected end of buffer while reading string.")
  else OutOfRange.

Definition is_separator (c : ascii) : bool :=
  Ascii.eqb c "/"%char || Ascii.eqb c "\"%char.

Definition is_nul (c : ascii) : bool := Ascii.eqb c "000"%char.

(** [guess_is_windows_path] on a C string: the first separator decides. *)
Fixpoint guess_is_windows_path (path : string) : bool :=
  match path with
  | EmptyString => false
  | String c rest =>
      if is_nul c then false
      else if Ascii.eqb c "\"%char then true
      else if Ascii.eqb c "/"%char then false
      else guess_is_windows_path rest
  end.

(** [isalpha] and [toupper] in the "C" locale. *)
Definition isalpha (c : ascii) : bool :=
  let n := N_of_ascii c in
  (((65 <=? n) && (n <=? 90)) || ((97 <=? n) && (n <=? 122)))%N.

Definition toupper (c : ascii) : ascii :=
  let n := N_of_ascii c in
  if ((97 <=? n) && (n <=? 122))%N then ascii_of_N (n - 32) else c.

(** [input += n] on a C string. *)
Fixpoint advance (n : nat) (input : string) : string :=
  match n, input with
  | S n', String _ rest => advance n' rest
  | _, _ => input
  end.

(** The inner loop, which steps over a run of separators. *)
Fixpoint skip_separators (input : string) : string :=
  match input with
  | String c rest => if is_separator c then skip_separators rest else input
  | EmptyString => input
  end.

(** [parts.back() += c]; [back()] of an empty vector is out of range. *)
Fixpoint append_to_back (parts : list string) (c : ascii) : option (list string) :=
  match parts with
  | [] => None
  | [part] => Some [part ++ String c EmptyString]
  | part :: rest => option_map (cons part) (append_to_back rest c)
  end.

(** The loop "Parse the rest of the path". *)
Fixpoint split_parts (fuel : nat) (input : string) (parts : list string)
    : Run (list string) :=
  match fuel with
  | O => OutOfFuel
  | S fuel' =>
      match input with
      | EmptyString => Done parts
      | String c rest =>
          if is_nul c then Done parts
          else if is_separator c
          then split_parts fuel' (skip_separators input) (parts ++ [EmptyString])%list
          else
            match append_to_back parts c with
            | Some parts' => split_parts fuel' rest parts'
            | None => OutOfRange
            end
      end
  end.

(** [parts[i]] and [parts.erase(parts.begin() + i)]. *)
Definition at_index (parts : list string) (i : Z) : option string :=
  if i <? 0 then None else parts !! Z.to_nat i.

Definition erase (parts : list string) (i : Z) : option (list string) :=
  if (0 <=? i) && (i <? Z.of_nat (length parts)) then Some (delete (Z.to_nat i) parts)
  else None.

(** The loop "Remove . and .. parts", from the index [i] on. The index is
    decremented in the body and incremented at the end of each round. *)
Fixpoint remove_dot_parts (fuel : nat) (parts : list string) (i : Z) : Run (list string) :=
  match fuel with
  | O => OutOfFuel
  | S fuel' =>
      if i <? Z.of_nat (length parts) then
        match at_index parts i with
        | None => OutOfRange
        | Some part =>
            if String.eqb part "." then
              match erase parts i with
              | Some parts' => remove_dot_parts fuel' parts' (i - 1 + 1)
              | None => OutOfRange
              end
            else if String.eqb part ".." && (0 <? i) then
              match at_index parts (i - 1) with
              | None => OutOfRange
              | Some previous =>
                  if negb (String.eqb previous "..") then
                    match erase parts i with
                    | Some parts' =>
                        match erase parts' (i - 1) with
                        | Some parts'' => remove_dot_parts fuel' parts'' (i - 2 + 1)
                        | None => OutOfRange
                        end
                    | None => OutOfRange
                    end
                  else remove_dot_parts fuel' parts (i + 1)
              end
            else remove_dot_parts fuel' parts (i + 1)
        end
      else Done parts
  end.

(** The state of [normalise_path] before the output is written. *)
Record Parsed : Type := {
  is_absolute : bool;
  drive_letter : option ascii;
  parts : list string }.

(** "Parse the beginning of the path": whether the path is absolute, the
    drive letter, the parts so far and the rest of the input. *)
Definition parse_beginning (input : string) : bool * option ascii * list string * string :=
  if is_separator (front input) then (true, None, [], input)
  else if isalpha (front input) && Ascii.eqb (mdebug.char_at input 1) ":"%char
          && is_separator (mdebug.char_at input 2)
  then (true, Some (toupper (front input)), [], advance 2 input)
  else (false, None, [EmptyString], input).

Definition normalised_parts (input : string) : Run Parsed :=
  let '(absolute, drive, parts0, rest) := parse_beginning input in
  match split_parts (S (String.length rest)) rest parts0 with
  | Done parts1 =>
      match remove_dot_parts (S (length parts1)) parts1 0 with
      | Done parts2 =>
          Done {| is_absolute := absolute; drive_letter := drive; parts := parts2 |}
      | OutOfRange => OutOfRange
      | OutOfFuel => OutOfFuel
      end
  | OutOfRange => OutOfRange
  | OutOfFuel => OutOfFuel
  end.

Definition separator (use_backslashes_as_path_separators : bool) : string :=
  if use_backslashes_as_path_separators then "\" else "/".

(** The loop that writes the parts, with a separator after each one but
    the last. *)
Fixpoint join (sep : string) (parts : list string) : string :=
  match parts with
  | [] => EmptyString
  | [part] => part
  | part :: rest => part ++ sep ++ join sep rest
  end.

(** "Output the path in a normal form". *)
Definition output (parsed : Parsed) (use_backslashes_as_path_separators : bool) : string :=
  let sep := separator use_backslashes_as_path_separators in
  (if is_absolute parsed
   then match drive_letter parsed with
        | Some letter => String letter ":"
        | None => EmptyString
        end ++ sep
   else EmptyString)
  ++ join sep (parts parsed).

Definition normalise_path (input : string) (use_backslashes_as_path_separators : bool)
    : Run string :=
  match normalised_parts input with
  | Done parsed => Done (output parsed use_backslashes_as_path_separators)
  | OutOfRange => OutOfRange
  | OutOfFuel => OutOfFuel
  end.

Definition merge_paths (base path : string) : Run string :=
  let is_windows_path :=
    if String.eqb base EmptyString
    then guess_is_windows_path path
    else guess_is_windows_path base in
  let is_absolute_unix :=
    ((1 <=? String.length path)%nat && Ascii.eqb (mdebug.char_at path 0) "/"%char)
    || Ascii.eqb (mdebug.char_at path 0) "\"%char in
  let is_absolute_windows :=
    (3 <=? String.length path)%nat && Ascii.eqb (mdebug.char_at path 1) ":"%char
    && is_separator (mdebug.char_at path 2) in
  if String.eqb base EmptyString || is_absolute_unix || is_absolute_windows
  then normalise_path path is_windows_path
  else normalise_path (base ++ "/" ++ path) is_windows_path.

(** [std::string::npos], and [find_last_of] for one character. *)
Definition npos : Z := 2 ^ 64 - 1.

Fixpoint find_last_of_from (s : string) (c : ascii) (i found : Z) : Z :=
  match s with
  | EmptyString => found
  | String d rest => find_last_of_from rest c (i + 1) (if Ascii.eqb d c then i else found)
  end.

Definition find_last_of (s : string) (c : ascii) : Z := find_last_of_from s c 0 npos.

(** [path.substr(pos)]. *)
Definition substr (path : string) (pos : Z) : string := advance (Z.to_nat pos) path.

Definition extract_file_name (path : string) : string :=
  let forward_pos := find_last_of path "/"%char in
  let backward_pos := find_last_of path "\"%char in
  let pos :=
    if forward_pos =? npos then backward_pos
    else if backward_pos =? npos then forward_pos
    else Z.max forward_pos backward_pos in
  if negb ((pos + 1) mod 2 ^ 64 =? Z.of_nat (String.length path)) && negb (pos =? npos)
  then substr path (pos + 1)
  else path.

(** Whether a character occurs in a string. *)
Fixpoint occurs (c : ascii) (s : string) : bool :=
  match s with
  | EmptyString => false
  | String d rest => Ascii.eqb d c || occurs c rest
  end.

(** A part that holds no separator and no NUL. *)
Definition plain_part (part : string) : Prop :=
  occurs "/"%char part = false /\ occurs "\"%char part = false
  /\ occurs "000"%char part = false.

(** No part is ".", and a ".." part comes first or follows a ".." part. *)
Definition dots_resolved (parts : list string) : Prop :=
  Forall (fun part => part <> ".") parts
  /\ forall k : nat, parts !! S k = Some ".." -> parts !! k = Some "..".

End util.

(** ** [src/stdump.cpp]: the command line and the symbols that are parsed *)

Module stdump.

Definition OUTPUT_HELP : Z := 0.
Definition OUTPUT_SYMBOLS : Z := 1.
Definition OUTPUT_TYPES : Z := 2.

Record Options : Type := {
  mode : Z;
  input_file : string;
  verbose : bool }.

Definition is_symbols_flag (arg : string) : bool :=
  String.eqb arg "--symbols" || String.eqb arg "-s".
Definition is_types_flag (arg : string) : bool :=
  String.eqb arg "--types" || String.eqb arg "-t".
Definition is_verbose_flag (arg : string) : bool :=
  String.eqb arg "--verbose" || String.eqb arg "-v".

(** The body of the first loop of [parse_args]. *)
Definition read_flag (options : Options) (arg : string) : Options :=
  let options :=
    if is_symbols_flag arg
    then {| mode := Z.lor (mode options) OUTPUT_SYMBOLS;
            input_file := input_file options; verbose := verbose options |}
    else options in
  let options :=
    if is_types_flag arg
    then {| mode := Z.lor (mode options) OUTPUT_TYPES;
            input_file := input_file options; verbose := verbose options |}
    else options in
  if is_verbose_flag arg
  then {| mode := mode options; input_file := input_file options; verbose := true |}
  else options.

Definition multiple_input_files : string :=
  "error: Multiple input files specified." ++ String "010"%char EmptyString.

(** The second loop of [parse_args]; a [verify] that fails ends the
    program with its message. *)
Fixpoint read_input_file (args : list string) (options : Options) : string + Options :=
  match args with
  | [] => inr options
  | arg :: rest =>
      if is_symbols_flag arg then read_input_file rest options
      else if is_types_flag arg then read_input_file rest options
      else if is_verbose_flag arg then read_input_file rest options
      else if String.eqb (input_file options) EmptyString
      then read_input_file rest
             {| mode := mode options; input_file := arg; verbose := verbose options |}
      else inl multiple_input_files
  end.

(** [parse_args], on [argv[1]] to [argv[argc - 1]]. *)
Definition parse_args (args : list string) : string + Options :=
  read_input_file args
    (fold_left read_flag args
       {| mode := OUTPUT_HELP; input_file := EmptyString; verbose := false |}).

Definition is_flag (arg : string) : bool :=
  is_symbols_flag arg || is_types_flag arg || is_verbose_flag arg.

(** The arguments that are no flags, in order. *)
Definition input_files (args : list string) : list string :=
  List.filter (fun arg => negb (is_flag arg)) args.

(** Declarations that the sources use and do not contain: the value of
    [SymbolType::NIL]. *)
Class Declarations : Type := { NIL : Z }.

(** [s[s.size() - 1]] of a string that is not empty. *)
Fixpoint back (s : string) : ascii :=
  match s with
  | EmptyString => "000"%char
  | String c EmptyString => c
  | String _ rest => back rest
  end.

(** [s.substr(0, s.size() - 1)]. *)
Fixpoint without_back (s : string) : string :=
  match s with
  | EmptyString => EmptyString
  | String _ EmptyString => EmptyString
  | String c rest => String c (without_back rest)
  end.

Section Types.

Context `{Declarations}.

Definition is_stabs (sym : mdebug.Symbol) : bool :=
  (mdebug.storage_type sym =? NIL) && (mdebug.storage_class sym mod 2 ^ 32 =? 0).

(** The loop of [print_types] over the symbols of one file, from a given
    [prefix] on: the strings that are handed to [parse_stabs_symbol], in
    order. *)
Fixpoint parsed_symbols (symbols : list mdebug.Symbol) (prefix : string) : list string :=
  match symbols with
  | [] => []
  | sym :: rest =>
      if is_stabs sym then
        if (String.length (mdebug.string_ sym) =? 0)%nat then parsed_symbols rest EmptyString
        else if Ascii.eqb (back (mdebug.string_ sym)) "\"%char
        then parsed_symbols rest (prefix ++ without_back (mdebug.string_ sym))
        else
          let full_symbol := prefix ++ mdebug.string_ sym in
          if Ascii.eqb (front full_symbol) "$"%char then parsed_symbols rest prefix
          else full_symbol :: parsed_symbols rest EmptyString
      else parsed_symbols rest prefix
  end.

(** [print_types]: the symbols parsed, file by file. *)
Definition print_types (symbol_table : mdebug.SymbolTable) : list string :=
  flat_map (fun fd => parsed_symbols (mdebug.symbols fd) EmptyString)
    (mdebug.files symbol_table).

End Types.

End stdump.

(** ** Further concrete inputs *)

Module FurtherExamples.

Import Examples.

(** A body-less reference, from within [struct Foo], to the type number
    of [Foo]. *)
Definition reference_to_foo : StabsType :=
  mkStabsType 50 (number 0 20) None false false false (StabsBuiltInType 16).

(** [void], as GCC writes it: a type defined as a reference to itself. *)
Definition void_type : StabsType :=
  unnamed 60
    (StabsTypeReferenceType
       (mkStabsType 61 (number 0 60) None false false false (StabsBuiltInType 16))).

(** A floating point built-in of four bytes. *)
Definition float_type : StabsType := unnamed 62 (StabsFloatingPointBuiltInType 1 4).

Definition unknown_builtin : StabsType := unnamed 31 (StabsBuiltInType 5).

Definition volatile_bool : StabsType := unnamed 63 (StabsVolatileQualifierType bool_type).
Definition const_bool : StabsType := unnamed 64 (StabsConstQualifierType bool_type).

(** [struct Point { int x; int y; }] and
    [struct Point3 : Point { int z; static int count; }]. *)
Definition point : StabsType :=
  named 70 "Point"
    (StabsStructType
       (mkStabsStructOrUnionType 8 []
          [ mkField "x" VIS_PUBLIC int_type false 0 32;
            mkField "y" VIS_PUBLIC int_type false 32 32 ] [])).

Definition point3_members : StabsStructOrUnionType :=
  mkStabsStructOrUnionType 12 [mkBaseClass VIS_PUBLIC 0 point]
    [ mkField "z" VIS_PRIVATE int_type false 64 32;
      mkField "count" VIS_PUBLIC int_type true 0 0 ] [].

Definition point3 : StabsType := named 71 "Point3" (StabsStructType point3_members).

Definition count_field : Field := mkField "count" VIS_PUBLIC int_type true 0 0.

(** Three bits of padding at bit 5 of an [unsigned int]: a bitfield
    without a name, which STABS writes with the name " ". *)
Definition padding_bits : Field := mkField " " VIS_PUBLIC unsigned_int_type false 5 3.

(** A method that takes an [int] and returns [bool]. *)
Definition method_with_parameter : StabsType :=
  unnamed 72 (StabsMethodType bool_type [int_type]).

(** A named root type that is a cross reference to [struct Bar]. *)
Definition cross_reference : StabsType :=
  named 73 "Bar" (StabsCrossReferenceType FDT_STRUCT "Bar").

(** A section with one file descriptor and three local symbols: a
    symbol without a name, the label "/src" and the label "a.c", which
    is the path of the file. The strings follow the symbols. *)
Definition u32_bytes (v : Z) : list byte :=
  map (fun i =>
         match Byte.of_N (Z.to_N (Z.land (Z.shiftr v (8 * i)) 255)) with
         | Some b => b
         | None => x00
         end)
      [0; 1; 2; 3].

Definition string_bytes (s : string) : list byte := (list_byte_of_string s ++ [x00])%list.

Definition header_words : list Z :=
  [0x7009; 0; 0; 0; 0; 0; 0; 0; 0; 168; 0; 0; 0; 0; 0; 204; 0; 0; 1; 96; 0; 0; 0; 0].

Definition file_descriptor_words (flags : Z) : list Z :=
  [0; 6; 0; 0; 0; 3; 0; 0; 0; 0; 0; 0; 0; 0; 0; flags; 0; 0].

Definition symbol_words : list Z := [0; 0; 0; 1; 0; 5; 6; 0; 5].

Definition one_file_section : list byte :=
  (flat_map u32_bytes (header_words ++ file_descriptor_words 0 ++ symbol_words)
   ++ string_bytes "" ++ string_bytes "/src" ++ string_bytes "a.c")%list.

(** The ECOFF code of a symbol without a type. *)
#[export] Instance example_stdump_declarations : stdump.Declarations := {| stdump.NIL := 0 |}.

Definition stabs_symbol (s : string) : mdebug.Symbol :=
  {| mdebug.string_ := s; mdebug.value := 0; mdebug.storage_type := 0;
     mdebug.storage_class := 0; mdebug.index := 0 |}.

End FurtherExamples.

(** ** What the lowering keeps: predicates on its results *)

(** Whether an [Error] node occurs anywhere in a tree. *)
Fixpoint contains_error (n : ast.Node) : bool :=
  match n with
  | ast.mkNode _ d => data_contains_error d
  end
with data_contains_error (d : ast.NodeData) : bool :=
  match d with
  | ast.Array element_type _ => contains_error element_type
  | ast.BitField underlying_type _ => contains_error underlying_type
  | ast.BuiltIn _ => false
  | ast.Enum _ => false
  | ast.Error _ => true
  | ast.Function return_type parameters _ _ =>
      contains_error return_type
      || match parameters with
         | Some nodes => existsb contains_error nodes
         | None => false
         end
  | ast.PointerOrReference _ value_type => contains_error value_type
  | ast.PointerToDataMember class_type member_type =>
      contains_error class_type || contains_error member_type
  | ast.StructOrUnion _ base_classes fields member_functions =>
      existsb contains_error base_classes || existsb contains_error fields
      || existsb contains_error member_functions
  | ast.TypeName _ _ => false
  end.

(** The messages of the failures that do not depend on [STRICT_PARSING]. *)
Definition plain_failures : list string :=
  [ "Cannot lookup type (type is anonymous).";
    "Failed to parse low part of range as integer.";
    "Invalid index type for array.";
    "Failed to parse high part of range as integer.";
    "Failed to classify range.";
    "Unknown built-in type!" ].

Section Kept.

Context `{Declarations}.

Definition strict (state : StabsToAstState) : bool :=
  flag_set (parser_flags state) STRICT_PARSING.

(** A warning is the message of a lookup that missed, and is printed under
    lenient parsing only. *)
Definition warning_kept (state : StabsToAstState) (warning : string) : Prop :=
  strict state = false /\ exists number, warning = lookup_failure_message number.

(** A failure has one of the plain messages, or under [STRICT_PARSING] the
    message of the depth guard or of a lookup that missed. *)
Definition failure_kept (state : StabsToAstState) (message : string) : Prop :=
  In message plain_failures
  \/ (strict state = true
      /\ (message = call_depth_message
          \/ exists number, message = lookup_failure_message number)).

(** Under [STRICT_PARSING] a node holds no [Error] node. *)
Definition node_kept (state : StabsToAstState) (node : ast.Node) : Prop :=
  strict state = true -> contains_error node = false.

(** What holds of every result of the lowering. *)
Definition kept {A} (state : StabsToAstState) (value_kept : A -> Prop) (m : Lowering A)
    : Prop :=
  Forall (warning_kept state) m.2
  /\ match m.1 with
     | Returned (Success a) => value_kept a
     | Returned (Failure message) => failure_kept state message
     | _ => True
     end.

Definition kept_by (l : Lower) : Prop :=
  forall type enclosing state depth substitute force,
    kept state (node_kept state) (l type enclosing state depth substitute force).

(** The call reaches the [switch] on the descriptor: it passes the guard
    on the depth and both substitutions, and the type has a body. *)
Definition expanded (type : StabsType) (enclosing_struct : option StabsType)
    (state : StabsToAstState) (depth : Z) (substitute_type_name force_substitute : bool)
    : Prop :=
  depth <= 200
  /\ substitute_name type state depth substitute_type_name = None
  /\ substitute_this type enclosing_struct force_substitute = false
  /\ has_body type = true.

End Kept.

(** * Properties *)

(** ** Integers *)

Lemma clamp_range v : LLONG_MIN <= clamp v <= LLONG_MAX.
Proof.
  unfold clamp, LLONG_MIN, LLONG_MAX.
  destruct (Z.ltb_spec v (-9223372036854775808)); [lia|].
  destruct (Z.ltb_spec 9223372036854775807 v); lia.
Qed.

(** [strtoll] stays within the 64-bit range. *)
Lemma strtoll_range s base : LLONG_MIN <= (strtoll s base).1 <= LLONG_MAX.
Proof.
  unfold strtoll.
  destruct (match skip_spaces s with
            | String "-"%char rest => (true, rest)
            | String "+"%char rest => (false, rest)
            | _ => (false, skip_spaces s)
            end) as [negative s2].
  destruct (digits base s2 0 false) as [magnitude any].
  destruct any; simpl; [apply clamp_range | unfold LLONG_MIN, LLONG_MAX; lia].
Qed.

Lemma wrap64_exact v : LLONG_MIN <= v <= LLONG_MAX -> wrap64 v = v.
Proof.
  unfold wrap64, LLONG_MIN, LLONG_MAX. intros Hv.
  rewrite Z.mod_small by lia. lia.
Qed.

(** ** The lowering monad *)

Lemma bind_ext {A B} (m m' : Lowering A) (k k' : A -> Lowering B) :
  m = m' -> (forall a, k a = k' a) -> bind m k = bind m' k'.
Proof.
  intros -> Hk. destruct m' as [[[a|e]| |] w]; simpl; try reflexivity.
  now rewrite Hk.
Qed.

Lemma bind_unchecked_ext {A B} (m m' : Lowering A) (k k' : A -> Lowering B) :
  m = m' -> (forall a, k a = k' a) -> bind_unchecked m k = bind_unchecked m' k'.
Proof.
  intros -> Hk. destruct m' as [[[a|e]| |] w]; simpl; try reflexivity.
  now rewrite Hk.
Qed.

Lemma for_each_ext {A B} (f g : A -> Lowering B) (l : list A) :
  (forall x, f x = g x) -> for_each f l = for_each g l.
Proof.
  intros Hfg. induction l as [|x l IH]; simpl; [reflexivity|].
  apply bind_ext; [apply Hfg|]. intros y. now rewrite IH.
Qed.

Lemma bind_ret_l {A B} (a : A) (k : A -> Lowering B) : bind (ret a) k = k a.
Proof. unfold bind, ret. now destruct (k a). Qed.

Lemma bind_success {A B} (a : A) (w : list string) (k : A -> Lowering B) :
  bind (Returned (Success a), w) k = ((k a).1, (w ++ (k a).2)%list).
Proof. unfold bind. now destruct (k a). Qed.

Lemma bind_failure {A B} (e : string) (w : list string) (k : A -> Lowering B) :
  bind (Returned (Failure e), w) k = (Returned (Failure e), w).
Proof. reflexivity. Qed.

Lemma ret_defined {A} (a : A) : defined (ret a).
Proof. discriminate. Qed.

Lemma of_result_defined {A} (r : Result A) : defined (of_result r).
Proof. discriminate. Qed.

Lemma bind_defined {A B} (m : Lowering A) (k : A -> Lowering B) :
  defined m -> (forall a, defined (k a)) -> defined (bind m k).
Proof.
  unfold defined. intros Hm Hk. destruct m as [[[a|e]| |] w]; simpl in *; try discriminate.
  - specialize (Hk a). now destruct (k a).
  - contradiction.
Qed.

Lemma bind_unchecked_defined {A B} (m : Lowering A) (k : A -> Lowering B) :
  defined m -> (forall a, defined (k a)) -> defined (bind_unchecked m k).
Proof.
  unfold defined. intros Hm Hk. destruct m as [[[a|e]| |] w]; simpl in *; try discriminate.
  - specialize (Hk a). now destruct (k a).
  - contradiction.
Qed.

Lemma for_each_defined {A B} (f : A -> Lowering B) (l : list A) :
  (forall x, defined (f x)) -> defined (for_each f l).
Proof.
  intros Hf. induction l as [|x l IH]; simpl; [apply ret_defined|].
  apply bind_defined; [apply Hf|]. intros y.
  apply bind_defined; [apply IH|]. intros ys. apply ret_defined.
Qed.

Section LowererFacts.

Context `{Declarations}.

Lemma field_to_ast_ext l1 l2 field enclosing state depth :
  agree_at (depth + 1) l1 l2 ->
  field_to_ast l1 field enclosing state depth = field_to_ast l2 field enclosing state depth.
Proof.
  intros Hl. unfold field_to_ast. apply bind_ext; [reflexivity|].
  intros []; (apply bind_ext; [apply Hl | reflexivity]).
Qed.

Lemma member_function_to_ast_ext l1 l2 info type state depth stabs_func :
  agree_at (depth + 1) l1 l2 ->
  member_function_to_ast l1 info type state depth stabs_func
  = member_function_to_ast l2 info type state depth stabs_func.
Proof.
  intros Hl. unfold member_function_to_ast. apply bind_ext; [apply Hl | reflexivity].
Qed.

Lemma member_function_sets_to_ast_ext l1 l2 tn type state depth sets only :
  agree_at (depth + 1) l1 l2 ->
  member_function_sets_to_ast l1 tn type state depth sets only
  = member_function_sets_to_ast l2 tn type state depth sets only.
Proof.
  intros Hl. revert only. induction sets as [|s sets IH]; intros only; simpl; [reflexivity|].
  apply bind_ext.
  - apply for_each_ext. intros f. now apply member_function_to_ast_ext.
  - intros nodes. apply bind_ext; [apply IH | reflexivity].
Qed.

Lemma member_functions_to_ast_ext l1 l2 type members state depth :
  agree_at (depth + 1) l1 l2 ->
  member_functions_to_ast l1 type members state depth
  = member_functions_to_ast l2 type members state depth.
Proof.
  intros Hl. unfold member_functions_to_ast.
  destruct (flag_set _ NO_MEMBER_FUNCTIONS); [reflexivity|].
  destruct (_ && _); [reflexivity|].
  apply bind_ext; [now apply member_function_sets_to_ast_ext | reflexivity].
Qed.

Lemma struct_or_union_ext l1 l2 type members state depth force is_struct :
  agree_at (depth + 1) l1 l2 ->
  (let* base_classes :=
     for_each
       (fun stabs_base_class =>
          let* base_class :=
            l1 (base_type stabs_base_class) (Some type) state (depth + 1) true force in
          let base_class := ast.set_is_base_class true base_class in
          let base_class := ast.set_offset_bytes (base_offset stabs_base_class) base_class in
          ret (ast.set_access_specifier
                 (stabs_field_visibility_to_access_specifier (base_visibility stabs_base_class))
                 (parser_flags state) base_class))
       (base_classes members) in
   let* fields :=
     for_each (fun field => field_to_ast l1 field type state depth) (fields members) in
   let* member_functions := member_functions_to_ast l1 type members state depth in
   ret (ast.set_size_bits (wrap32 (wrap32 (size members) * 8))
          (ast.make (ast.StructOrUnion is_struct base_classes fields member_functions))))
  = (let* base_classes :=
     for_each
       (fun stabs_base_class =>
          let* base_class :=
            l2 (base_type stabs_base_class) (Some type) state (depth + 1) true force in
          let base_class := ast.set_is_base_class true base_class in
          let base_class := ast.set_offset_bytes (base_offset stabs_base_class) base_class in
          ret (ast.set_access_specifier
                 (stabs_field_visibility_to_access_specifier (base_visibility stabs_base_class))
                 (parser_flags state) base_class))
       (base_classes members) in
   let* fields :=
     for_each (fun field => field_to_ast l2 field type state depth) (fields members) in
   let* member_functions := member_functions_to_ast l2 type members state depth in
   ret (ast.set_size_bits (wrap32 (wrap32 (size members) * 8))
          (ast.make (ast.StructOrUnion is_struct base_classes fields member_functions)))).
Proof.
  intros Hl. apply bind_ext.
  - apply for_each_ext. intros b. apply bind_ext; [apply Hl | reflexivity].
  - intros bases. apply bind_ext.
    + apply for_each_ext. intros f. now apply field_to_ast_ext.
    + intros fs. apply bind_ext; [now apply member_functions_to_ast_ext | reflexivity].
Qed.

Lemma dispatch_ext l1 l2 type enclosing state depth substitute force :
  agree_at (depth + 1) l1 l2 ->
  dispatch l1 type enclosing state depth substitute force
  = dispatch l2 type enclosing state depth substitute force.
Proof.
  intros Hl. unfold dispatch.
  destruct (body type);
    try reflexivity;
    try (apply bind_ext; [apply Hl | reflexivity]);
    try (apply bind_unchecked_ext; [apply Hl | reflexivity]);
    try (now apply struct_or_union_ext).
  - destruct (_ || _); [|reflexivity]. apply bind_ext; [apply Hl | reflexivity].
  - apply bind_ext; [apply Hl|]. intros r. apply bind_ext; [|reflexivity].
    apply for_each_ext. intros p. apply Hl.
  - apply bind_ext; [apply Hl|]. intros c. apply bind_ext; [apply Hl | reflexivity].
Qed.

Lemma lookup_body_ext l1 l2 type enclosing state depth substitute force :
  agree_at (depth + 1) l1 l2 ->
  lookup_body l1 type enclosing state depth substitute force
  = lookup_body l2 type enclosing state depth substitute force.
Proof.
  intros Hl. unfold lookup_body. destruct (anonymous type); [reflexivity|].
  destruct (_ !! _); [apply Hl | reflexivity].
Qed.

Lemma stabs_type_to_ast_body_ext l1 l2 type enclosing state depth substitute force :
  (depth <= 200 -> agree_at (depth + 1) l1 l2) ->
  stabs_type_to_ast_body l1 type enclosing state depth substitute force
  = stabs_type_to_ast_body l2 type enclosing state depth substitute force.
Proof.
  intros Hl. unfold stabs_type_to_ast_body.
  destruct (Z.ltb_spec 200 depth) as [Hd|Hd]; [reflexivity|].
  destruct (substitute_name _ _ _ _); [reflexivity|].
  destruct (substitute_this _ _ _); [reflexivity|].
  destruct (negb _); [apply lookup_body_ext | apply dispatch_ext]; auto.
Qed.

Lemma call_budget_step depth : depth <= 200 -> call_budget depth = S (call_budget (depth + 1)).
Proof.
  intros Hd. unfold call_budget. f_equal.
  replace (201 - depth) with (Z.succ (201 - (depth + 1))) by lia.
  rewrite Z2Nat.inj_succ by lia. reflexivity.
Qed.

(** More fuel than the budget changes nothing. *)
Lemma stabs_type_to_ast_fuel_enough fuel :
  forall depth type enclosing state substitute force,
    (call_budget depth <= fuel)%nat ->
    stabs_type_to_ast_fuel fuel type enclosing state depth substitute force
    = stabs_type_to_ast type enclosing state depth substitute force.
Proof.
  induction fuel as [|fuel IH]; intros depth type enclosing state substitute force Hfuel.
  - unfold call_budget in Hfuel. lia.
  - unfold stabs_type_to_ast.
    destruct (Z.le_gt_cases depth 200) as [Hd|Hd].
    + rewrite (call_budget_step depth Hd) in *. simpl.
      apply stabs_type_to_ast_body_ext. intros _ t e s b1 b2.
      rewrite IH by lia. reflexivity.
    + unfold call_budget. replace (Z.to_nat (201 - depth)) with O by lia. simpl.
      apply stabs_type_to_ast_body_ext. lia.
Qed.

(** The equation of [stabs_type_to_ast]: one call, with the recursive
    calls going to [stabs_type_to_ast] itself. *)
Lemma stabs_type_to_ast_equation type enclosing state depth substitute force :
  stabs_type_to_ast type enclosing state depth substitute force
  = stabs_type_to_ast_body stabs_type_to_ast type enclosing state depth substitute force.
Proof.
  unfold stabs_type_to_ast at 1. unfold call_budget. simpl.
  apply stabs_type_to_ast_body_ext. intros Hd t e s b1 b2.
  apply stabs_type_to_ast_fuel_enough. unfold call_budget.
  replace (201 - depth) with (Z.succ (201 - (depth + 1))) by lia.
  rewrite Z2Nat.inj_succ by lia. lia.
Qed.

(** Definedness is inherited from the recursive calls. *)
Lemma field_to_ast_defined l field enclosing state depth :
  defined_at (depth + 1) l -> defined (field_to_ast l field enclosing state depth).
Proof.
  intros Hl. unfold field_to_ast. apply bind_defined; [apply of_result_defined|].
  intros []; (apply bind_defined; [apply Hl | intros; apply ret_defined]).
Qed.

Lemma member_function_to_ast_defined l info type state depth stabs_func :
  defined_at (depth + 1) l ->
  defined (member_function_to_ast l info type state depth stabs_func).
Proof.
  intros Hl. unfold member_function_to_ast.
  apply bind_defined; [apply Hl | intros; apply ret_defined].
Qed.

Lemma member_function_sets_to_ast_defined l tn type state depth sets only :
  defined_at (depth + 1) l ->
  defined (member_function_sets_to_ast l tn type state depth sets only).
Proof.
  intros Hl. revert only. induction sets as [|s sets IH]; intros only; simpl.
  - apply ret_defined.
  - apply bind_defined.
    + apply for_each_defined. intros f. now apply member_function_to_ast_defined.
    + intros nodes. apply bind_defined; [apply IH|]. intros [more o]. apply ret_defined.
Qed.

Lemma member_functions_to_ast_defined l type members state depth :
  defined_at (depth + 1) l ->
  defined (member_functions_to_ast l type members state depth).
Proof.
  intros Hl. unfold member_functions_to_ast.
  destruct (flag_set _ NO_MEMBER_FUNCTIONS); [apply ret_defined|].
  destruct (_ && _); [apply ret_defined|].
  apply bind_defined; [now apply member_function_sets_to_ast_defined|].
  intros [nodes o]. destruct (_ && _); apply ret_defined.
Qed.

Lemma array_to_ast_defined element_node index_type :
  defined (array_to_ast element_node index_type).
Proof.
  unfold array_to_ast. destruct (body index_type); try discriminate.
  destruct (strtoll _ _). apply of_result_defined.
Qed.

Lemma dispatch_defined l type enclosing state depth substitute force :
  defined_at (depth + 1) l ->
  defined (dispatch l type enclosing state depth substitute force).
Proof.
  intros Hl. unfold dispatch.
  destruct (body type);
    try apply ret_defined;
    try (apply bind_defined; [apply Hl | intros; apply ret_defined]);
    try (apply bind_unchecked_defined; [apply Hl | intros; apply ret_defined]).
  - destruct (_ || _); [|apply ret_defined].
    apply bind_defined; [apply Hl | intros; apply ret_defined].
  - apply bind_defined; [apply Hl | intros; apply array_to_ast_defined].
  - apply bind_defined; [apply of_result_defined | intros; apply ret_defined].
  - apply bind_defined.
    { apply for_each_defined. intros b.
      apply bind_defined; [apply Hl | intros; apply ret_defined]. }
    intros bases. apply bind_defined.
    { apply for_each_defined. intros f. now apply field_to_ast_defined. }
    intros fs. apply bind_defined; [now apply member_functions_to_ast_defined|].
    intros; apply ret_defined.
  - apply bind_defined.
    { apply for_each_defined. intros b.
      apply bind_defined; [apply Hl | intros; apply ret_defined]. }
    intros bases. apply bind_defined.
    { apply for_each_defined. intros f. now apply field_to_ast_defined. }
    intros fs. apply bind_defined; [now apply member_functions_to_ast_defined|].
    intros; apply ret_defined.
  - apply bind_defined; [apply Hl|]. intros r.
    apply bind_defined; [|intros; apply ret_defined].
    apply for_each_defined. intros p. apply Hl.
  - apply bind_defined; [apply Hl|]. intros c.
    apply bind_defined; [apply Hl | intros; apply ret_defined].
  - destruct (_ =? _); [apply ret_defined | discriminate].
Qed.

Lemma lookup_body_defined l type enclosing state depth substitute force :
  defined_at (depth + 1) l ->
  defined (lookup_body l type enclosing state depth substitute force).
Proof.
  intros Hl. unfold lookup_body. destruct (anonymous type); [discriminate|].
  destruct (_ !! _); [apply Hl|].
  destruct (flag_set _ _); [discriminate|].
  apply bind_defined; [discriminate | intros; apply ret_defined].
Qed.

Lemma stabs_type_to_ast_body_defined l type enclosing state depth substitute force :
  (depth <= 200 -> defined_at (depth + 1) l) ->
  defined (stabs_type_to_ast_body l type enclosing state depth substitute force).
Proof.
  intros Hl. unfold stabs_type_to_ast_body.
  destruct (Z.ltb_spec 200 depth) as [Hd|Hd].
  { destruct (flag_set _ _); discriminate. }
  destruct (substitute_name _ _ _ _); [discriminate|].
  destruct (substitute_this _ _ _); [discriminate|].
  destruct (negb _); [apply lookup_body_defined | apply dispatch_defined]; auto.
Qed.

(** Every call of [stabs_type_to_ast] is defined: the budget of nested
    calls is never used up, whatever the graph of types looks like. *)
Lemma stabs_type_to_ast_defined type enclosing state depth substitute force :
  defined (stabs_type_to_ast type enclosing state depth substitute force).
Proof.
  remember (Z.to_nat (201 - depth)) as n eqn:Hn.
  revert depth type enclosing state substitute force Hn.
  induction n as [|n IH]; intros depth type enclosing state substitute force Hn;
    rewrite stabs_type_to_ast_equation; apply stabs_type_to_ast_body_defined; intros Hd.
  - lia.
  - intros t e s b1 b2. apply IH. lia.
Qed.

End LowererFacts.

(** ** The recursion guard, name substitution and body-less types *)

Section LoweringClaims.

Context `{Declarations}.

(** C8, as amended. A call with [depth > 200] gives an [Error] node under
    lenient parsing and fails under [STRICT_PARSING], in both cases with
    the message "Call depth greater than 200 in stabs_type_to_ast,
    probably infinite recursion."; and every call, whatever cycles the
    graph of types has, ends without using up the budget of
    [202 - depth] nested calls, more fuel never changing its result. *)
Theorem call_depth_guard stabs_type enclosing state depth substitute force :
  (200 < depth ->
     stabs_type_to_ast stabs_type enclosing state depth substitute force
     = if flag_set (parser_flags state) STRICT_PARSING
       then (Returned (Failure
               "Call depth greater than 200 in stabs_type_to_ast, probably infinite recursion."),
             [])
       else (Returned (Success (ast.make (ast.Error
               "Call depth greater than 200 in stabs_type_to_ast, probably infinite recursion."))),
             []))
  /\ (stabs_type_to_ast stabs_type enclosing state depth substitute force).1 <> OutOfFuel
  /\ (forall fuel, (call_budget depth <= fuel)%nat ->
        stabs_type_to_ast_fuel fuel stabs_type enclosing state depth substitute force
        = stabs_type_to_ast stabs_type enclosing state depth substitute force)
  /\ (depth <= 201 -> Z.of_nat (call_budget depth) = 202 - depth).
Proof.
  split; [|split; [|split]].
  - intros Hd. rewrite stabs_type_to_ast_equation. unfold stabs_type_to_ast_body.
    destruct (Z.ltb_spec 200 depth); [|lia].
    destruct (flag_set _ _); reflexivity.
  - apply stabs_type_to_ast_defined.
  - intros fuel Hfuel. now apply stabs_type_to_ast_fuel_enough.
  - intros Hd. unfold call_budget. lia.
Qed.

(** C4. When the guard on the depth lets the call through, a type whose
    name is not empty, not " ", not "void" and not "__builtin_va_list",
    that is not a cross reference, and for which the caller asked for
    substitution or [depth > 0] and the type is a root, a range or a
    built-in, is lowered to a [TypeName] of source [REFERENCE] with the
    name, the file handle and the type number; no recursive call takes
    part in it, so the body is not expanded. *)
Theorem named_type_is_substituted stabs_type enclosing state depth substitute force type_name :
  depth <= 200 ->
  name stabs_type = Some type_name ->
  type_name <> "" -> type_name <> " " ->
  type_name <> "void" -> type_name <> "__builtin_va_list" ->
  descriptor stabs_type <> CROSS_REFERENCE ->
  substitute = true
  \/ (0 < depth
      /\ (is_root stabs_type = true \/ descriptor stabs_type = RANGE \/ descriptor stabs_type = BUILTIN)) ->
  let type_name_node :=
    ast.make (ast.TypeName ast.REFERENCE
      {| ast.type_name := Some type_name;
         ast.referenced_file_handle := Some (file_handle state);
         ast.stabs_type_number_file := Some (file (type_number stabs_type));
         ast.stabs_type_number_type := Some (type (type_number stabs_type));
         ast.type := None |}) in
  stabs_type_to_ast stabs_type enclosing state depth substitute force
  = (Returned (Success type_name_node), [])
  /\ forall lower : Lower,
       stabs_type_to_ast_body lower stabs_type enclosing state depth substitute force
       = (Returned (Success type_name_node), []).
Proof.
  intros Hd Hname Hne Hsp Hvoid Hva Hcross Hwhy node.
  assert (Hbody : forall lower : Lower,
    stabs_type_to_ast_body lower stabs_type enclosing state depth substitute force
    = (Returned (Success node), [])).
  { intros lower. unfold stabs_type_to_ast_body, substitute_name.
    destruct (Z.ltb_spec 200 depth); [lia|]. rewrite Hname.
    apply String.eqb_neq in Hne, Hsp, Hvoid, Hva.
    rewrite Hne, Hsp, Hvoid, Hva. simpl.
    assert (Hc : match descriptor stabs_type with CROSS_REFERENCE => true | _ => false end = false)
      by (destruct (descriptor stabs_type); congruence).
    rewrite Hc. simpl.
    assert (Hs : substitute
              || (0 <? depth)
                 && (is_root stabs_type
                     || match descriptor stabs_type with RANGE | BUILTIN => true | _ => false end)
              = true).
    { destruct Hwhy as [->|[Hpos Hkind]]; [reflexivity|].
      apply Z.ltb_lt in Hpos. rewrite Hpos. simpl.
      destruct Hkind as [->|[->| ->]]; simpl; rewrite ?orb_true_r; reflexivity. }
    rewrite Hs. reflexivity. }
  split; [|exact Hbody].
  rewrite stabs_type_to_ast_equation. apply Hbody.
Qed.

(** C10. A type without a body that is marked anonymous, once past the
    guard on the depth and the name substitution, fails with "Cannot
    lookup type (type is anonymous)." whether parsing is strict or not.
    For a type without a body that is not anonymous and that the index
    does not hold, lenient parsing gives an [Error] node and one warning,
    strict parsing a failure, both with the lookup message. *)
Theorem anonymous_lookup_fails stabs_type enclosing state depth substitute force :
  depth <= 200 ->
  has_body stabs_type = false ->
  substitute_name stabs_type state depth substitute = None ->
  let result := stabs_type_to_ast stabs_type enclosing state depth substitute force in
  let message :=
    "Failed to lookup STABS type by its type number ("
    ++ to_string (file (type_number stabs_type)) ++ ","
    ++ to_string (type (type_number stabs_type)) ++ ")." in
  (anonymous stabs_type = true ->
     result = (Returned (Failure "Cannot lookup type (type is anonymous)."), []))
  /\ (anonymous stabs_type = false ->
      substitute_this stabs_type enclosing force = false ->
      stabs_types state !! type_number stabs_type = None ->
      result
      = if flag_set (parser_flags state) STRICT_PARSING
        then (Returned (Failure message), [])
        else (Returned (Success (ast.make (ast.Error message))), [message])).
Proof.
  intros Hd Hbody Hname result message. subst result.
  rewrite stabs_type_to_ast_equation. unfold stabs_type_to_ast_body.
  destruct (Z.ltb_spec 200 depth); [lia|]. rewrite Hname, Hbody. simpl.
  split.
  - intros Hanon.
    assert (Hthis : substitute_this stabs_type enclosing force = false).
    { unfold substitute_this. destruct enclosing; [|reflexivity].
      rewrite Hanon. simpl. now rewrite andb_false_r. }
    rewrite Hthis. unfold lookup_body. rewrite Hanon. reflexivity.
  - intros Hanon Hthis Hmiss. rewrite Hthis. unfold lookup_body.
    rewrite Hanon, Hmiss. destruct (flag_set _ _); reflexivity.
Qed.

(** C3. In the [ARRAY] case, with a range as the index type: a failure of
    the element type is returned as it is; once the element type is
    lowered, a low bound without digits fails with "Failed to parse low
    part of range as integer.", a low bound other than 0 with "Invalid
    index type for array.", and a high bound without digits with the
    message of the low part again; otherwise the node is an [Array] whose
    element count is 0 for the high bound 4294967295 and the high bound
    plus one for every other high bound, the negative ones included (at
    [LLONG_MAX] the 64-bit sum wraps to [LLONG_MIN]). *)
Theorem array_element_count stabs_type enclosing state depth substitute force
    index_type element_type index :
  depth <= 200 ->
  has_body stabs_type = true ->
  body stabs_type = StabsArrayType index_type element_type ->
  body index_type = StabsRange index ->
  substitute_name stabs_type state depth substitute = None ->
  substitute_this stabs_type enclosing force = false ->
  let result := stabs_type_to_ast stabs_type enclosing state depth substitute force in
  let element := stabs_type_to_ast element_type enclosing state (depth + 1) true force in
  let low_value := strtoll (c_str (low index)) 10 in
  let high_value := strtoll (c_str (high index)) 10 in
  (forall message warnings,
     element = (Returned (Failure message), warnings) ->
     result = (Returned (Failure message), warnings))
  /\ forall element_node warnings,
       element = (Returned (Success element_node), warnings) ->
       (low_value.2 = false ->
        result
        = (Returned (Failure "Failed to parse low part of range as integer."), warnings))
       /\ (low_value.2 = true -> low_value.1 <> 0 ->
           result = (Returned (Failure "Invalid index type for array."), warnings))
       /\ (low_value = (0, true) -> high_value.2 = false ->
           result
           = (Returned (Failure "Failed to parse low part of range as integer."), warnings))
       /\ (low_value = (0, true) -> high_value.2 = true ->
           result
           = (Returned (Success (ast.make (ast.Array element_node
                (if high_value.1 =? 4294967295 then 0
                 else if high_value.1 =? LLONG_MAX then LLONG_MIN
                 else high_value.1 + 1)))),
              warnings)).
Proof.
  intros Hd Hbody Harray Hindex Hname Hthis result element low_value high_value.
  assert (Hresult : result
    = (let* element_node := element in array_to_ast element_node index_type)).
  { subst result. rewrite stabs_type_to_ast_equation. unfold stabs_type_to_ast_body.
    destruct (Z.ltb_spec 200 depth); [lia|]. rewrite Hname, Hthis, Hbody.
    unfold dispatch. now rewrite Harray. }
  rewrite Hresult. clear Hresult. split.
  - intros message warnings ->. reflexivity.
  - intros element_node warnings ->. rewrite bind_success.
    unfold array_to_ast. rewrite Hindex. fold low_value. fold high_value.
    pose proof (strtoll_range (c_str (high index)) 10) as Hrange. fold high_value in Hrange.
    destruct low_value as [lv lend], high_value as [hv hend].
    cbn [fst snd] in *. unfold CCC_CHECK.
    split; [|split; [|split]].
    + intros ->. cbn. now rewrite app_nil_r.
    + intros -> Hlv. destruct (Z.eqb_spec lv 0); [contradiction|].
      cbn. now rewrite app_nil_r.
    + intros [= -> ->] ->. cbn. now rewrite app_nil_r.
    + intros [= -> ->] ->. change (0 =? 0) with true. cbv iota.
      destruct (Z.eqb_spec hv 4294967295) as [->|Hne].
      * cbn. now rewrite app_nil_r.
      * destruct (Z.eqb_spec hv LLONG_MAX) as [->|Hmax].
        -- cbn. now rewrite app_nil_r.
        -- rewrite wrap64_exact by (unfold LLONG_MIN, LLONG_MAX in *; lia).
           cbn. now rewrite app_nil_r.
Qed.

End LoweringClaims.

(** ** The claims above on concrete inputs *)

Import Examples.

Lemma named_type_is_substituted_witness :
  stabs_type_to_ast named_int None (empty_state 0) 1 false false
  = (Returned (Success (reference_type_name "int" (empty_state 0) (number 0 4))), []).
Proof.
  apply (named_type_is_substituted named_int None (empty_state 0) 1 false false "int");
    [lia | reflexivity | discriminate | discriminate | discriminate | discriminate
    | discriminate | right; split; [lia | left; reflexivity]].
Defined.

Lemma anonymous_lookup_fails_witness :
  stabs_type_to_ast anonymous_reference None (empty_state 0) 0 false false
  = (Returned (Failure "Cannot lookup type (type is anonymous)."), [])
  /\ stabs_type_to_ast anonymous_reference None (empty_state 1) 0 false false
     = (Returned (Failure "Cannot lookup type (type is anonymous)."), []).
Proof.
  split.
  - apply (anonymous_lookup_fails anonymous_reference None (empty_state 0) 0 false false);
      [lia | reflexivity | reflexivity | reflexivity].
  - apply (anonymous_lookup_fails anonymous_reference None (empty_state 1) 0 false false);
      [lia | reflexivity | reflexivity | reflexivity].
Defined.

Lemma array_element_count_witness :
  stabs_type_to_ast array_of_ten None (empty_state 0) 0 false false
  = (Returned (Success (ast.make (ast.Array (ast.make (ast.BuiltIn SIGNED_32)) 10))), []).
Proof.
  destruct (array_element_count array_of_ten None (empty_state 0) 0 false false
              (unnamed 6 (StabsRange {| low := "0"; high := "9" |})) int_type
              {| low := "0"; high := "9" |})
    as [_ Harray]; [lia | reflexivity..|].
  destruct (Harray (ast.make (ast.BuiltIn SIGNED_32)) [])
    as (_ & _ & _ & Hcount); [vm_compute; reflexivity|].
  rewrite Hcount; reflexivity.
Defined.

(** The index range "0" to "-5": the high bound is parsed as -5, the array
    is lowered, and its element count is -4. The specification has the
    high bound plus one only for a high bound that is not negative. *)
Lemma array_count_below_zero :
  strtoll (c_str "-5") 10 = (-5, true)
  /\ stabs_type_to_ast array_below_zero None (empty_state 0) 0 false false
     = (Returned (Success (ast.make (ast.Array (ast.make (ast.BuiltIn SIGNED_32)) (-4)))), [])
  /\ ~ element_count_as_specified (-5) (-4).
Proof.
  split; [vm_compute; reflexivity|]. split; [vm_compute; reflexivity|].
  intros [[Hhigh _]|(_ & Hhigh & _)]; [discriminate Hhigh | lia].
Qed.

(** C7, on the code: with [STRICT_PARSING] and an inner type that the
    index does not hold, the [VOLATILE_QUALIFIER] case returns the
    failure of the inner lowering, and the [CONST_QUALIFIER] case, which
    has no [CCC_RETURN_IF_ERROR], dereferences the failed result. *)
Theorem const_qualifier_drops_the_check :
  stabs_type_to_ast volatile_dangling None (empty_state 1) 0 false false
  = (Returned (Failure "Failed to lookup STABS type by its type number (0,9)."), [])
  /\ stabs_type_to_ast const_dangling None (empty_state 1) 0 false false = (Faulted, []).
Proof. split; vm_compute; reflexivity. Qed.

(** C8 as stated fails: beyond depth 200 under lenient parsing the node
    is an [Error], but its message is not "call depth exceeded". *)
Lemma call_depth_message_differs :
  ~ exists node warnings,
      stabs_type_to_ast bool_type None (empty_state 0) 201 false false
      = (Returned (Success node), warnings)
      /\ ast.data node = ast.Error "call depth exceeded".
Proof.
  intros (node & warnings & Hresult & Hmessage).
  vm_compute in Hresult. injection Hresult as <- <-. discriminate Hmessage.
Qed.

(** ** Range classification *)

Lemma match_strings_found rows low high classification :
  match_strings rows low high = Some classification ->
  In (low, high, classification) rows.
Proof.
  induction rows as [|[[range_low range_high] c] rows IH]; simpl; [discriminate|].
  unfold strcmp_eq.
  destruct (String.eqb_spec range_low low) as [->|]; simpl; [|auto].
  destruct (String.eqb_spec range_high high) as [->|]; simpl; [|auto].
  intros [= ->]. now left.
Qed.

(** No two rows of [strings] have the same pair of bounds, so the first
    match is the only one. *)
Lemma match_strings_complete low high classification :
  In (low, high, classification) strings ->
  match_strings strings low high = Some classification.
Proof.
  unfold strings. simpl.
  intros Hin.
  repeat (destruct Hin as [[= <- <- <-]|Hin]; [vm_compute; reflexivity|]).
  contradiction.
Qed.

Lemma match_integers_found rows low_value high_value classification :
  match_integers rows low_value high_value = Some classification ->
  exists range_low range_high,
    In (range_low, range_high, classification) rows
    /\ (range_low = low_value \/ range_low = wrap64 (- low_value))
    /\ range_high = high_value.
Proof.
  induction rows as [|[[range_low range_high] c] rows IH]; simpl; [discriminate|].
  destruct (((range_low =? low_value) || (range_low =? wrap64 (- low_value)))
            && (range_high =? high_value)) eqn:Htest.
  - intros [= ->]. exists range_low, range_high.
    apply andb_prop in Htest as [Hlow Hhigh]. apply orb_prop in Hlow.
    split; [now left|]. split; [|now apply Z.eqb_eq].
    destruct Hlow as [Hlow|Hlow]; apply Z.eqb_eq in Hlow; auto.
  - intros Hrest. destruct (IH Hrest) as (l & h & Hin & Hmatch).
    exists l, h. split; [now right | exact Hmatch].
Qed.

Lemma wrap64_negated low_value :
  LLONG_MIN <= low_value <= LLONG_MAX ->
  wrap64 (- low_value) = if low_value =? LLONG_MIN then LLONG_MIN else - low_value.
Proof.
  intros Hrange. destruct (Z.eqb_spec low_value LLONG_MIN) as [->|Hne].
  - reflexivity.
  - apply wrap64_exact. unfold LLONG_MIN, LLONG_MAX in *. lia.
Qed.

(** On the table [integers] and a 64-bit low bound, the loop returns the
    class of a row exactly when that row matches. *)
Lemma match_integers_spec low_value high_value classification :
  LLONG_MIN <= low_value <= LLONG_MAX ->
  match_integers integers low_value high_value = Some classification
  <-> exists range_low range_high,
        In (range_low, range_high, classification) integers
        /\ (range_low = low_value \/ range_low = - low_value)
        /\ range_high = high_value.
Proof.
  intros Hrange. pose proof (wrap64_negated low_value Hrange) as Hneg.
  split.
  - intros Hfound. apply match_integers_found in Hfound as (l & h & Hin & Hlow & Hhigh).
    exists l, h. split; [exact Hin|]. split; [|exact Hhigh].
    destruct Hlow as [Hlow|Hlow]; [now left|]. right.
    rewrite Hneg in Hlow. destruct (Z.eqb_spec low_value LLONG_MIN); [|exact Hlow].
    exfalso. unfold integers in Hin. simpl in Hin. unfold LLONG_MIN in *.
    repeat (destruct Hin as [[= <- <- <-]|Hin]; [lia|]). contradiction.
  - intros (l & h & Hin & Hlow & ->).
    assert (Hsmall : - 2147483648 <= low_value <= 2147483648).
    { unfold integers in Hin. simpl in Hin.
      repeat (destruct Hin as [[= <- <- <-]|Hin]; [lia|]). contradiction. }
    destruct (Z.eqb_spec low_value LLONG_MIN) as [Hmin|_];
      [unfold LLONG_MIN in Hmin; lia|].
    unfold integers in *. simpl in Hin. cbn [match_integers]. rewrite Hneg.
    repeat (destruct Hin as [[= <- <- <-]|Hin];
            [repeat (match goal with
                     | |- context [Z.eqb ?a ?b] =>
                         destruct (Z.eqb_spec a b); cbn [andb orb]; try lia
                     end); reflexivity|]).
    contradiction.
Qed.

(** C1, as amended. [classify_range] looks the two bounds up in the
    table of literals first, which holds the five entries named in the
    specification. When no literal matches it parses the bounds, in base 8
    if the string begins with '0' and in base 10 otherwise; a bound in
    which [strtoll] finds no digits makes it fail with "Failed to parse
    low (high) part of range as integer."; with both bounds parsed it
    returns the class of a row of the seven numeric rows exactly when
    [(lo = low or lo = -low) and hi = high], and fails with "Failed to
    classify range." when no row matches. *)
Theorem classify_range_cases (range : StabsRangeType) :
  let low := c_str (low range) in
  let high := c_str (high range) in
  let low_value := strtoll low (if Ascii.eqb (front low) "0"%char then 8 else 10) in
  let high_value := strtoll high (if Ascii.eqb (front high) "0"%char then 8 else 10) in
  let matches (row : Z * Z * BuiltInClass) :=
    (row.1.1 = low_value.1 \/ row.1.1 = - low_value.1) /\ row.1.2 = high_value.1 in
  (In ("0", "-1", UNQUALIFIED_128) strings
   /\ In ("4", "0", FLOAT_32) strings
   /\ In ("8", "0", FLOAT_64) strings
   /\ In ("16", "0", FLOAT_128) strings
   /\ In ("0", "18446744073709551615", UNSIGNED_64) strings)
  /\ integers
     = [ (0, 255, UNSIGNED_8); (-128, 127, SIGNED_8); (0, 127, UNQUALIFIED_8);
         (0, 65535, UNSIGNED_16); (-32768, 32767, SIGNED_16);
         (0, 4294967295, UNSIGNED_32); (-2147483648, 2147483647, SIGNED_32) ]
  /\ (forall classification,
        In (low, high, classification) strings ->
        classify_range range = Success classification)
  /\ ((forall classification, ~ In (low, high, classification) strings) ->
      (low_value.2 = false ->
         classify_range range = Failure "Failed to parse low part of range as integer.")
      /\ (low_value.2 = true -> high_value.2 = false ->
          classify_range range = Failure "Failed to parse high part of range as integer.")
      /\ (low_value.2 = true -> high_value.2 = true ->
          (forall classification,
             classify_range range = Success classification
             <-> exists row, In row integers /\ row.2 = classification /\ matches row)
          /\ ((forall row, In row integers -> ~ matches row) ->
              classify_range range = Failure "Failed to classify range."))).
Proof.
  intros low high low_value high_value matches.
  split; [|split; [reflexivity|split]].
  - unfold strings. simpl. tauto.
  - intros classification Hin. unfold classify_range. fold low. fold high.
    now rewrite (match_strings_complete _ _ _ Hin).
  - intros Hnone.
    assert (Hliteral : match_strings strings low high = None).
    { destruct (match_strings strings low high) as [c|] eqn:Hfound; [|reflexivity].
      apply match_strings_found in Hfound. now apply Hnone in Hfound. }
    unfold classify_range. fold low. fold high. rewrite Hliteral.
    fold low_value. fold high_value.
    pose proof (strtoll_range low (if Ascii.eqb (front low) "0"%char then 8 else 10))
      as Hrange. fold low_value in Hrange.
    subst matches.
    destruct low_value as [lv lend], high_value as [hv hend]. cbn [fst snd] in *.
    split; [intros ->; reflexivity|].
    split; [intros -> ->; reflexivity|].
    intros -> ->. unfold CCC_CHECK.
    split.
    + intros classification.
      destruct (match_integers integers lv hv) as [c|] eqn:Hfound.
      * split.
        -- intros [= <-]. apply (match_integers_spec lv hv _ Hrange) in Hfound as (l & h & Hin & Hlow & Hhigh).
           exists (l, h, c). auto.
        -- intros ([[l h] c'] & Hin & Hclass & Hlow & Hhigh). cbn [fst snd] in *. subst c'.
           assert (Hagain : match_integers integers lv hv = Some classification)
             by (apply (match_integers_spec lv hv _ Hrange); eauto).
           congruence.
      * split; [discriminate|].
        intros ([[l h] c'] & Hin & Hclass & Hlow & Hhigh). cbn [fst snd] in *. subst c'.
        assert (Hagain : match_integers integers lv hv = Some classification)
          by (apply (match_integers_spec lv hv _ Hrange); eauto).
        congruence.
    + intros Hno. destruct (match_integers integers lv hv) as [c|] eqn:Hfound; [|reflexivity].
      apply (match_integers_spec lv hv _ Hrange) in Hfound as (l & h & Hin & Hlow & Hhigh).
      exfalso. apply (Hno (l, h, c) Hin). auto.
Qed.

(** C1 as stated fails: no literal matches the bounds "abc" and "255",
    yet the result is neither the class of a row nor the failure to
    classify. *)
Lemma classify_range_unparsed_bound :
  (forall classification, ~ In ("abc", "255", classification) strings)
  /\ (forall classification,
        classify_range {| low := "abc"; high := "255" |} <> Success classification)
  /\ classify_range {| low := "abc"; high := "255" |} <> Failure "Failed to classify range."
  /\ classify_range {| low := "abc"; high := "255" |}
     = Failure "Failed to parse low part of range as integer.".
Proof.
  split; [|split; [|split]].
  - intros classification Hin. unfold strings in Hin. simpl in Hin.
    repeat (destruct Hin as [Hin|Hin]; [discriminate Hin|]). contradiction.
  - intros classification. vm_compute. discriminate.
  - vm_compute. discriminate.
  - vm_compute. reflexivity.
Qed.

(** ** Member functions *)

Ltac destruct_lowering m := destruct m as [[[?|?]| |] ?].

Lemma bind_inversion {A B} (m : Lowering A) (k : A -> Lowering B) b w :
  bind m k = (Returned (Success b), w) ->
  exists a w1 w2,
    m = (Returned (Success a), w1) /\ k a = (Returned (Success b), w2)
    /\ w = (w1 ++ w2)%list.
Proof.
  destruct_lowering m; simpl; try discriminate.
  destruct (k value) as [r w2] eqn:Hk. intros [= -> <-].
  exists value, l, w2. auto.
Qed.


Lemma for_each_app {A B} (f : A -> Lowering B) (l1 l2 : list A) :
  for_each f (l1 ++ l2)
  = let* a := for_each f l1 in let* b := for_each f l2 in ret (a ++ b)%list.
Proof.
  induction l1 as [|x l1 IH]; simpl.
  - destruct_lowering (for_each f l2); simpl; try reflexivity.
    now rewrite app_nil_r.
  - rewrite IH. destruct_lowering (f x); simpl; try reflexivity.
    destruct_lowering (for_each f l1); simpl; try reflexivity;
      [|now rewrite app_nil_r..].
    destruct_lowering (for_each f l2); simpl; try reflexivity;
      rewrite ?app_nil_r, ?app_assoc; reflexivity.
Qed.

Lemma for_each_map {A B C} (f : B -> Lowering C) (g : A -> B) (l : list A) :
  for_each f (map g l) = for_each (fun x => f (g x)) l.
Proof. induction l as [|x l IH]; simpl; [reflexivity | now rewrite IH]. Qed.



Lemma is_special_spec function_set_name type_name func_type :
  is_special function_set_name type_name func_type = true
  <-> function_set_name = "__as" \/ function_set_name = "operator="
      \/ starts_with function_set_name "$" = true
      \/ (function_set_name = type_name
          /\ forall return_type parameter_types,
               body func_type = StabsMethodType return_type parameter_types ->
               parameter_types = []).
Proof.
  unfold is_special.
  destruct (String.eqb_spec function_set_name "__as"); [simpl; tauto|].
  destruct (String.eqb_spec function_set_name "operator="); [simpl; tauto|].
  destruct (starts_with function_set_name "$"); [simpl; tauto|].
  destruct (String.eqb_spec function_set_name type_name) as [->|]; simpl.
  - destruct (body func_type) eqn:Hbody;
      try (split; [intros _; right; right; right; split; [reflexivity | discriminate]
                  | reflexivity]).
    destruct parameter_types as [|p ps]; simpl.
    + split; [|reflexivity]. intros _. right. right. right.
      split; [reflexivity|]. now intros r ps [= _ <-].
    + split; [discriminate|].
      intros [|[|[|[_ Hnone]]]]; try congruence.
      specialize (Hnone _ _ eq_refl). discriminate.
  - split; [discriminate | intros [|[|[|[]]]]; congruence].
Qed.

Lemma overloads_only_special_spec function_set_name type_name overloads :
  overloads_only_special function_set_name type_name overloads = true
  <-> forall f, In f overloads ->
        is_function_or_method (function_type f) = true ->
        is_special function_set_name type_name (function_type f) = true.
Proof.
  induction overloads as [|f rest IH]; simpl; [tauto|].
  destruct (is_function_or_method (function_type f)) eqn:Hkind.
  - destruct (is_special function_set_name type_name (function_type f)) eqn:Hspecial; simpl.
    + rewrite IH. split; [intros Hrest g [<-|Hin]; auto | auto].
    + split; [discriminate|]. intros Hall.
      rewrite (Hall f) in Hspecial; auto.
  - rewrite IH. split; [intros Hrest g [<-|Hin]; [congruence | auto] | auto].
Qed.

Lemma sets_only_special_spec type_name sets :
  sets_only_special type_name sets = true
  <-> forall function_set f, In function_set sets -> In f (overloads function_set) ->
        is_function_or_method (function_type f) = true ->
        is_special (set_name function_set) type_name (function_type f) = true.
Proof.
  induction sets as [|s rest IH]; simpl; [tauto|].
  destruct (overloads_only_special (set_name s) type_name (overloads s)) eqn:Hs.
  - rewrite IH. rewrite overloads_only_special_spec in Hs.
    split; [intros Hrest t f [<-|Hin]; eauto | eauto].
  - split; [discriminate|]. intros Hall.
    assert (Hs' : overloads_only_special (set_name s) type_name (overloads s) = true)
      by (apply overloads_only_special_spec; eauto).
    congruence.
Qed.

Section MemberFunctionClaims.

Context `{Declarations}.

(** The second pass lowers every overload of every set in order, and its
    flag ends up [true] when the name of every set is special. *)
Lemma member_function_sets_to_ast_flat lower type_name stabs_type state depth sets only :
  member_function_sets_to_ast lower type_name stabs_type state depth sets only
  = let* nodes := lower_every_overload lower type_name stabs_type state depth sets in
    ret (nodes, only && every_set_special type_name state sets).
Proof.
  revert only. induction sets as [|s rest IH]; intros only.
  - unfold lower_every_overload. simpl. unfold ret. now rewrite andb_true_r.
  - cbn [member_function_sets_to_ast]. rewrite IH.
    unfold lower_every_overload, every_overload, every_set_special.
    cbn [flat_map forallb].
    rewrite for_each_app, for_each_map. cbn [fst snd].
    fold (every_overload rest). fold (every_set_special type_name state rest).
    generalize (every_set_special type_name state rest). intros rest_special.
    generalize (is_special_member_function
                  (check_member_function (set_name s) type_name (demangler state))).
    intros special.
    destruct_lowering
      (for_each
         (member_function_to_ast lower
            (check_member_function (set_name s) type_name (demangler state))
            stabs_type state depth) (overloads s)); simpl; try reflexivity.
    destruct_lowering
      (for_each
         (fun overload : MemberFunctionSet * MemberFunction =>
            member_function_to_ast lower
              (check_member_function (set_name overload.1) type_name (demangler state))
              stabs_type state depth overload.2) (every_overload rest));
      simpl; rewrite ?app_nil_r; try reflexivity.
    do 3 f_equal. destruct special, only; reflexivity.
Qed.

(** C5, as amended. With [NO_GENERATED_MEMBER_FUNCTIONS] set, no member
    function is emitted when every [FUNCTION] or [METHOD] overload is
    special: the name of its set is "__as" or "operator=" or starts with
    "$", or it is the name of the enclosing type without template arguments
    and the overload is not a method with parameters. Otherwise, unless
    [NO_MEMBER_FUNCTIONS] is set, every overload of every set is lowered,
    and the result is empty when [check_member_function] finds the name of
    every set special, and all the lowered functions, special or not,
    when it does not. *)
Theorem generated_member_functions stabs_type members state depth :
  let type_name :=
    match name stabs_type with
    | Some type_name => strip_template_args type_name
    | None => ""
    end in
  let every_overload_special :=
    forall function_set f,
      In function_set (member_functions members) -> In f (overloads function_set) ->
      is_function_or_method (function_type f) = true ->
      is_special (set_name function_set) type_name (function_type f) = true in
  let result := member_functions_to_ast stabs_type_to_ast stabs_type members state depth in
  flag_set (parser_flags state) NO_GENERATED_MEMBER_FUNCTIONS = true ->
  (forall function_set_name func_type,
     is_special function_set_name type_name func_type = true
     <-> function_set_name = "__as" \/ function_set_name = "operator="
         \/ starts_with function_set_name "$" = true
         \/ (function_set_name = type_name
             /\ forall return_type parameter_types,
                  body func_type = StabsMethodType return_type parameter_types ->
                  parameter_types = []))
  /\ (every_overload_special -> result = (Returned (Success []), []))
  /\ (flag_set (parser_flags state) NO_MEMBER_FUNCTIONS = false ->
      ~ every_overload_special ->
      result
      = let* nodes :=
          lower_every_overload stabs_type_to_ast type_name stabs_type state depth
            (member_functions members) in
        ret (if every_set_special type_name state (member_functions members)
             then [] else nodes)).
Proof.
  intros type_name every_overload_special result Hgenerated.
  split; [intros; apply is_special_spec|].
  subst result. unfold member_functions_to_ast. fold type_name. rewrite Hgenerated.
  pose proof (sets_only_special_spec type_name (member_functions members)) as Hspec.
  fold every_overload_special in Hspec.
  split.
  - intros Hall. apply Hspec in Hall. rewrite Hall.
    destruct (flag_set _ NO_MEMBER_FUNCTIONS); reflexivity.
  - intros -> Hsome.
    destruct (sets_only_special type_name (member_functions members)) eqn:Hfirst.
    { exfalso. apply Hsome, Hspec. reflexivity. }
    cbn [andb]. rewrite member_function_sets_to_ast_flat.
    destruct (every_set_special type_name state (member_functions members));
      destruct_lowering
        (lower_every_overload stabs_type_to_ast type_name stabs_type state depth
           (member_functions members));
      simpl; rewrite ?Hgenerated; simpl; rewrite ?app_nil_r; reflexivity.
Qed.


End MemberFunctionClaims.

(** ** Bitfields *)

Lemma is_bitfield_set_name v n : ast.is_bitfield (ast.set_name v n) = ast.is_bitfield n.
Proof. now destruct n. Qed.
Lemma is_bitfield_set_offset_bytes v n :
  ast.is_bitfield (ast.set_offset_bytes v n) = ast.is_bitfield n.
Proof. now destruct n. Qed.
Lemma is_bitfield_set_size_bits v n :
  ast.is_bitfield (ast.set_size_bits v n) = ast.is_bitfield n.
Proof. now destruct n. Qed.
Lemma is_bitfield_set_is_const v n : ast.is_bitfield (ast.set_is_const v n) = ast.is_bitfield n.
Proof. now destruct n. Qed.
Lemma is_bitfield_set_is_volatile v n :
  ast.is_bitfield (ast.set_is_volatile v n) = ast.is_bitfield n.
Proof. now destruct n. Qed.
Lemma is_bitfield_set_is_vtable_pointer v n :
  ast.is_bitfield (ast.set_is_vtable_pointer v n) = ast.is_bitfield n.
Proof. now destruct n. Qed.
Lemma is_bitfield_set_storage_class v n :
  ast.is_bitfield (ast.set_storage_class v n) = ast.is_bitfield n.
Proof. now destruct n. Qed.
Lemma is_bitfield_set_access_specifier v flags n :
  ast.is_bitfield (ast.set_access_specifier v flags n) = ast.is_bitfield n.
Proof. now destruct n. Qed.

Lemma no_bitfield_ret node : ast.is_bitfield node = false -> no_bitfield (ret node).
Proof. intros Hnode n w [= <- _]. exact Hnode. Qed.

Lemma no_bitfield_bind {A} (m : Lowering A) (k : A -> Lowering ast.Node) :
  (forall a, no_bitfield (k a)) -> no_bitfield (bind m k).
Proof.
  intros Hk node w Hbind.
  apply bind_inversion in Hbind as (a & w1 & w2 & _ & Hnode & _). eapply Hk; eauto.
Qed.

Lemma no_bitfield_bind_unchecked {A} (m : Lowering A) (k : A -> Lowering ast.Node) :
  (forall a, no_bitfield (k a)) -> no_bitfield (bind_unchecked m k).
Proof.
  intros Hk node w. destruct_lowering m; simpl; try discriminate.
  destruct (k value) as [r w2] eqn:Hnode. intros [= -> _]. eapply Hk; eauto.
Qed.

Section BitfieldClaims.

Context `{Declarations}.

(** The loop follows the steps of the specification, and gives up on the
    step that it makes in its last iteration. *)
Lemma resolve_type_references_spec state iterations :
  forall i t final,
    0 <= i <= 49 -> Z.of_nat iterations + i = 50 ->
    resolve_type_references state iterations i t = ResolvedTo final
    <-> exists n, Z.of_nat n + i <= 49 /\ resolves_in state n t final.
Proof.
  induction iterations as [|k IH]; intros i t final Hi Hsum; [lia|].
  assert (Hnext : forall next,
    (if i =? 49 then GaveUp else resolve_type_references state k (i + 1) next)
    = ResolvedTo final
    <-> exists n, Z.of_nat n + (i + 1) <= 49 /\ resolves_in state n next final).
  { intros next. destruct (Z.eqb_spec i 49) as [->|Hne].
    - split; [discriminate | intros (n & Hn & _); lia].
    - apply IH; lia. }
  cbn [resolve_type_references].
  destruct (has_body t) eqn:Hbody; cbn [negb].
  - destruct (body t) eqn:Hkind;
      try (split;
           [ intros [= <-]; exists O; split; [lia|];
             constructor; split; [exact Hbody | now rewrite Hkind]
           | intros (n & Hn & Hresolves); inversion Hresolves as [? Hdone|? ? ? ? Hstep];
             subst; [reflexivity | inversion Hstep; congruence] ]).
    all: rewrite Hnext; split.
    all: try (intros (n & Hn & Hresolves); exists (S n); split; [lia|];
              econstructor; [|exact Hresolves]).
    + now apply step_type_reference.
    + intros (n & Hn & Hresolves).
      inversion Hresolves as [? [_ Hdone]|m ? next ? Hstep Hrest]; subst.
      * now rewrite Hkind in Hdone.
      * exists m. split; [lia|]. inversion Hstep; subst; congruence.
    + now apply step_volatile_qualifier.
    + intros (n & Hn & Hresolves).
      inversion Hresolves as [? [_ Hdone]|m ? next ? Hstep Hrest]; subst.
      * now rewrite Hkind in Hdone.
      * exists m. split; [lia|]. inversion Hstep; subst; congruence.
    + now apply step_const_qualifier.
    + intros (n & Hn & Hresolves).
      inversion Hresolves as [? [_ Hdone]|m ? next ? Hstep Hrest]; subst.
      * now rewrite Hkind in Hdone.
      * exists m. split; [lia|]. inversion Hstep; subst; congruence.
  - assert (Hstuck : forall n, resolves_in state n t final ->
        exists m next, n = S m /\ resolution_step state t next
                       /\ resolves_in state m next final).
    { intros n Hresolves. inversion Hresolves as [? [Hdone _]|m ? next ? Hstep Hrest]; subst.
      - congruence.
      - eauto. }
    destruct (anonymous t) eqn:Hanonymous.
    { split; [discriminate|]. intros (n & _ & Hresolves).
      apply Hstuck in Hresolves as (m & next & _ & Hstep & _).
      inversion Hstep; congruence. }
    destruct (stabs_types state !! type_number t) as [next_type|] eqn:Hlookup.
    2: { split; [discriminate|]. intros (n & _ & Hresolves).
         apply Hstuck in Hresolves as (m & next & _ & Hstep & _).
         inversion Hstep; congruence. }
    destruct (Z.eqb_spec (address next_type) (address t)) as [Hsame|Hother].
    { split; [discriminate|]. intros (n & _ & Hresolves).
      apply Hstuck in Hresolves as (m & next & _ & Hstep & _).
      inversion Hstep; congruence. }
    rewrite Hnext. split.
    + intros (n & Hn & Hresolves). exists (S n). split; [lia|].
      econstructor; [|exact Hresolves]. now apply step_index.
    + intros (n & Hn & Hresolves).
      apply Hstuck in Hresolves as (m & next & -> & Hstep & Hrest).
      exists m. split; [lia|]. inversion Hstep; subst; congruence.
Qed.

Lemma compare_sizes_true field bits :
  compare_sizes field bits = Success true <-> bits <> 0 /\ field_size_bits field <> bits.
Proof.
  unfold compare_sizes. destruct (Z.eqb_spec bits 0) as [->|Hbits].
  - split; [discriminate | tauto].
  - destruct (Z.eqb_spec (field_size_bits field) bits) as [Hsame|Hother]; simpl.
    + split; [discriminate | tauto].
    + tauto.
Qed.

(** The [switch] and the tail of [detect_bitfield], on a resolved type. *)
Lemma underlying_size_spec field final :
  match body final with
  | StabsRange range =>
      match classify_range range with
      | Failure message => Failure message
      | Success bclass => compare_sizes field (builtin_class_size bclass * 8)
      end
  | StabsCrossReferenceType FDT_ENUM _ => compare_sizes field 32
  | StabsCrossReferenceType _ _ => Success false
  | StabsSizeTypeAttributeType size_bits _ => compare_sizes field size_bits
  | StabsBuiltInType _ => compare_sizes field 8
  | _ => Success false
  end = Success true
  <-> exists bits,
        underlying_bits final = Some bits /\ bits <> 0 /\ field_size_bits field <> bits.
Proof.
  unfold underlying_bits.
  destruct (body final) as [ | | | | | |range| | |forward ?| | | | | | | ];
    try (split; [discriminate | intros (bits & [=] & _)]).
  - destruct (classify_range range) as [bclass|message].
    + rewrite compare_sizes_true. split; [eauto | now intros (bits & [= <-] & Hbits)].
    + split; [discriminate | intros (bits & [=] & _)].
  - destruct forward; try (split; [discriminate | intros (bits & [=] & _)]).
    rewrite compare_sizes_true. split; [eauto | now intros (bits & [= <-] & Hbits)].
  - rewrite compare_sizes_true. split; [eauto | now intros (bits & [= <-] & Hbits)].
  - rewrite compare_sizes_true. split; [eauto | now intros (bits & [= <-] & Hbits)].
Qed.

(** [detect_bitfield] decides the condition. *)
Lemma detect_bitfield_spec field state :
  detect_bitfield field state = Success true <-> bitfield_condition field state.
Proof.
  unfold detect_bitfield, bitfield_condition.
  destruct (is_static field); [split; [discriminate | intros [[=] _]]|].
  pose proof (resolve_type_references_spec state 50 0 (field_type field)) as Hloop.
  destruct (resolve_type_references state 50 0 (field_type field)) as [final|].
  - rewrite underlying_size_spec. split.
    + intros (bits & Hbits). split; [reflexivity|].
      destruct (proj1 (Hloop final ltac:(lia) ltac:(lia)) eq_refl) as (n & Hn & Hresolves).
      exists n, final, bits. split; [lia | auto].
    + intros (_ & n & final' & bits & Hn & Hresolves & Hbits).
      assert (Hsame : ResolvedTo final = ResolvedTo final').
      { apply Hloop; [lia | lia | exists n; split; [lia | exact Hresolves]]. }
      injection Hsame as ->. eauto.
  - split; [discriminate|].
    intros (_ & n & final & bits & Hn & Hresolves & _).
    assert (Hsame : GaveUp = ResolvedTo final).
    { apply Hloop; [lia | lia | exists n; split; [lia | exact Hresolves]]. }
    discriminate.
Qed.

(** The lowering of a type never gives a [BitField]: only [field_to_ast]
    makes one. *)
Lemma field_to_ast_data l field enclosing state depth node warnings :
  no_bitfield_from l ->
  field_to_ast l field enclosing state depth = (Returned (Success node), warnings) ->
  ast.is_bitfield node = true ->
  detect_bitfield field state = Success true.
Proof.
  intros Hl Hfield Hnode. unfold field_to_ast in Hfield.
  apply bind_inversion in Hfield as (is_bitfield & w1 & w2 & Hdetect & Hrest & _).
  injection Hdetect as Hdetect _. rewrite Hdetect. destruct is_bitfield; [reflexivity|].
  apply bind_inversion in Hrest as (raw & w3 & w4 & Hraw & Hret & _).
  apply Hl in Hraw. injection Hret as <- _.
  destruct (_ || _), (is_static field);
    rewrite ?is_bitfield_set_storage_class, ?is_bitfield_set_is_vtable_pointer,
      is_bitfield_set_access_specifier, is_bitfield_set_size_bits,
      is_bitfield_set_offset_bytes, is_bitfield_set_name in Hnode; congruence.
Qed.

Lemma dispatch_no_bitfield l stabs_type enclosing state depth substitute force :
  no_bitfield_from l ->
  no_bitfield (dispatch l stabs_type enclosing state depth substitute force).
Proof.
  intros Hl. unfold dispatch.
  destruct (body stabs_type);
    try (apply no_bitfield_ret; reflexivity);
    try (apply no_bitfield_bind; intros; apply no_bitfield_ret; reflexivity).
  - destruct (_ || _); [|apply no_bitfield_ret; reflexivity].
    intros node w Hbind.
    apply bind_inversion in Hbind as (raw & w1 & w2 & Hraw & [= <- _] & _).
    now apply Hl in Hraw.
  - apply no_bitfield_bind. intros element node w. unfold array_to_ast.
    destruct (body index_type); try discriminate.
    destruct (strtoll _ _) as [lv lend]. unfold of_result, CCC_CHECK.
    destruct lend; [|discriminate]. destruct (lv =? 0); [|discriminate].
    destruct (strtoll _ _) as [hv hend]. destruct hend; [|discriminate].
    now intros [= <- _].
  - intros node w Hbind.
    apply bind_inversion in Hbind as (raw & w1 & w2 & Hraw & [= <- _] & _).
    rewrite is_bitfield_set_is_volatile. now apply Hl in Hraw.
  - intros node w. unfold bind_unchecked.
    destruct (l _ _ _ _ _ _) as [[[raw|?]| |] ?] eqn:Hraw; try discriminate.
    simpl. intros [= <- _]. rewrite is_bitfield_set_is_const. now apply Hl in Hraw.
  - do 3 (apply no_bitfield_bind; intros). apply no_bitfield_ret. reflexivity.
  - do 3 (apply no_bitfield_bind; intros). apply no_bitfield_ret. reflexivity.
  - do 2 (apply no_bitfield_bind; intros). apply no_bitfield_ret. reflexivity.
  - intros node w Hbind.
    apply bind_inversion in Hbind as (raw & w1 & w2 & Hraw & [= <- _] & _).
    rewrite is_bitfield_set_size_bits. now apply Hl in Hraw.
  - do 2 (apply no_bitfield_bind; intros). apply no_bitfield_ret. reflexivity.
  - destruct (_ =? _); [apply no_bitfield_ret; reflexivity | discriminate].
Qed.

Lemma stabs_type_to_ast_body_no_bitfield l stabs_type enclosing state depth substitute force :
  no_bitfield_from l ->
  no_bitfield (stabs_type_to_ast_body l stabs_type enclosing state depth substitute force).
Proof.
  intros Hl. unfold stabs_type_to_ast_body.
  destruct (200 <? depth).
  { destruct (flag_set _ _); [discriminate | apply no_bitfield_ret; reflexivity]. }
  unfold substitute_name.
  destruct (name stabs_type) as [type_name|].
  - destruct (_ && _); [apply no_bitfield_ret; reflexivity|].
    destruct (substitute_this _ _ _); [apply no_bitfield_ret; reflexivity|].
    destruct (negb _); [|now apply dispatch_no_bitfield].
    unfold lookup_body. destruct (anonymous _); [discriminate|].
    destruct (_ !! _); [apply Hl|].
    destruct (flag_set _ _); [discriminate|].
    apply no_bitfield_bind. intros. apply no_bitfield_ret. reflexivity.
  - destruct (substitute_this _ _ _); [apply no_bitfield_ret; reflexivity|].
    destruct (negb _); [|now apply dispatch_no_bitfield].
    unfold lookup_body. destruct (anonymous _); [discriminate|].
    destruct (_ !! _); [apply Hl|].
    destruct (flag_set _ _); [discriminate|].
    apply no_bitfield_bind. intros. apply no_bitfield_ret. reflexivity.
Qed.

Lemma stabs_type_to_ast_no_bitfield : no_bitfield_from stabs_type_to_ast.
Proof.
  assert (Hfuel : forall fuel, no_bitfield_from (stabs_type_to_ast_fuel fuel)).
  { induction fuel as [|fuel IH]; intros t e s d b1 b2; simpl.
    - discriminate.
    - now apply stabs_type_to_ast_body_no_bitfield. }
  intros t e s d b1 b2. apply Hfuel.
Qed.

(** C2, as amended. A field is lowered to a [BitField] iff it is not
    static, its type resolves within at most 49 steps (through type
    references, qualifiers and the index of types) to a type whose
    descriptor yields a bit size, that size is not 0 and differs from the
    size of the field, and the lowering of the type of the field succeeds.
    The [BitField] then has [offset_bytes = offset_bits / 8], the size of
    the field, [bitfield_offset_bits = offset_bits % 8] and the name of the
    field, "" standing in for " "; [/] and [%] are those of C++, which for
    an offset that is not negative are the quotient and the remainder. *)
Theorem bitfield_lowering field enclosing state depth :
  let result := field_to_ast stabs_type_to_ast field enclosing state depth in
  let lowered :=
    stabs_type_to_ast (field_type field) (Some enclosing) state (depth + 1) true false in
  ((exists node warnings,
      result = (Returned (Success node), warnings) /\ ast.is_bitfield node = true)
   <-> bitfield_condition field state
       /\ exists underlying warnings, lowered = (Returned (Success underlying), warnings))
  /\ (forall node warnings,
        result = (Returned (Success node), warnings) -> ast.is_bitfield node = true ->
        exists underlying,
          lowered = (Returned (Success underlying), warnings)
          /\ ast.data node = ast.BitField underlying (Z.rem (offset_bits field) 8)
          /\ ast.offset_bytes (ast.common node) = Some (Z.quot (offset_bits field) 8)
          /\ ast.size_bits (ast.common node) = Some (field_size_bits field)
          /\ ast.name (ast.common node)
             = if String.eqb (field_name field) " " then "" else field_name field)
  /\ (0 <= offset_bits field ->
      Z.quot (offset_bits field) 8 = offset_bits field / 8
      /\ Z.rem (offset_bits field) 8 = offset_bits field mod 8).
Proof.
  intros result lowered.
  assert (Hshape : forall node warnings,
    result = (Returned (Success node), warnings) -> ast.is_bitfield node = true ->
    detect_bitfield field state = Success true
    /\ exists underlying,
         lowered = (Returned (Success underlying), warnings)
         /\ node
            = ast.set_access_specifier
                (stabs_field_visibility_to_access_specifier (field_visibility field))
                (parser_flags state)
                (ast.set_size_bits (field_size_bits field)
                   (ast.set_offset_bytes (Z.quot (offset_bits field) 8)
                      (ast.set_name
                         (if String.eqb (field_name field) " " then "" else field_name field)
                         (ast.make
                            (ast.BitField underlying (Z.rem (offset_bits field) 8))))))).
  { intros node warnings Hresult Hnode.
    pose proof (field_to_ast_data _ _ _ _ _ _ _ stabs_type_to_ast_no_bitfield Hresult Hnode)
      as Hdetect.
    split; [exact Hdetect|].
    subst result. unfold field_to_ast in Hresult. rewrite Hdetect in Hresult.
    unfold of_result in Hresult. rewrite bind_success in Hresult. cbn [fst snd] in Hresult.
    fold lowered in Hresult.
    destruct lowered as [[[underlying|?]| |] w]; try discriminate.
    rewrite bind_success in Hresult. cbn [ret fst snd app] in Hresult.
    rewrite app_nil_r in Hresult. injection Hresult as <- <-.
    exists underlying. split; reflexivity. }
  split; [|split].
  - split.
    + intros (node & warnings & Hresult & Hnode).
      destruct (Hshape node warnings Hresult Hnode) as (Hdetect & underlying & Hlowered & _).
      split; [now apply detect_bitfield_spec | eauto].
    + intros (Hcondition & underlying & warnings & Hlowered).
      apply detect_bitfield_spec in Hcondition.
      subst result. unfold field_to_ast. rewrite Hcondition.
      unfold of_result. rewrite bind_success. cbn [fst snd].
      fold lowered. rewrite Hlowered. rewrite bind_success. cbn [ret fst snd app].
      eexists _, _. split; reflexivity.
  - intros node warnings Hresult Hnode.
    destruct (Hshape node warnings Hresult Hnode) as (_ & underlying & Hlowered & ->).
    exists underlying. repeat split; auto.
  - intros Hoffset. split; [apply Z.quot_div_nonneg | apply Z.rem_mod_nonneg]; lia.
Qed.

End BitfieldClaims.

Lemma qualified_resolves state n t :
  resolved t -> resolves_in state n (Examples.qualified n t) t.
Proof.
  intros Hresolved. induction n as [|n IH].
  - now constructor.
  - econstructor; [|exact IH]. now apply step_volatile_qualifier.
Qed.

(** C2 as stated fails in three ways. A field of eight bits whose type is
    declared zero bits wide, a field behind 50 qualifiers and a field
    whose type is a built-in of an unknown id each meet the condition of
    the specification, and none is lowered to a [BitField]: the first two
    become ordinary fields and the third fails. *)
Lemma bitfield_as_specified_not_lowered :
  let not_lowered field :=
    ~ exists node warnings,
        field_to_ast stabs_type_to_ast field Examples.foo (Examples.empty_state 0) 0
        = (Returned (Success node), warnings)
        /\ ast.is_bitfield node = true in
  (bitfield_as_specified Examples.zero_sized_field (Examples.empty_state 0)
   /\ not_lowered Examples.zero_sized_field)
  /\ (bitfield_as_specified Examples.deeply_qualified_field (Examples.empty_state 0)
      /\ not_lowered Examples.deeply_qualified_field)
  /\ (bitfield_as_specified Examples.unknown_builtin_field (Examples.empty_state 0)
      /\ not_lowered Examples.unknown_builtin_field).
Proof.
  intros not_lowered. subst not_lowered. cbv beta.
  split; [|split]; split.
  - split; [reflexivity|].
    exists O, (Examples.unnamed 30 (StabsSizeTypeAttributeType 0 Examples.bool_type)), 0.
    split; [lia|]. split; [constructor; split; [reflexivity | exact I]|].
    split; [reflexivity | discriminate].
  - intros (node & warnings & Hresult & Hnode).
    vm_compute in Hresult. injection Hresult as <- <-. discriminate Hnode.
  - split; [reflexivity|].
    exists 50%nat, Examples.bool_type, 8.
    split; [lia|]. split; [|split; [reflexivity | discriminate]].
    apply qualified_resolves. split; [reflexivity | exact I].
  - intros (node & warnings & Hresult & Hnode).
    vm_compute in Hresult. injection Hresult as <- <-. discriminate Hnode.
  - split; [reflexivity|].
    exists O, (Examples.unnamed 31 (StabsBuiltInType 5)), 8.
    split; [lia|]. split; [constructor; split; [reflexivity | exact I]|].
    split; [reflexivity | discriminate].
  - intros (node & warnings & Hresult & Hnode).
    vm_compute in Hresult. discriminate Hresult.
Qed.

(** Scenario S5: three bits at bit 5 of an [unsigned int]. *)
Example bitfield_of_three_bits :
  exists node,
    field_to_ast stabs_type_to_ast Examples.three_bits Examples.foo (Examples.empty_state 0) 0
    = (Returned (Success node), [])
    /\ ast.data node = ast.BitField (ast.make (ast.BuiltIn UNSIGNED_32)) 5
    /\ ast.offset_bytes (ast.common node) = Some 0
    /\ ast.size_bits (ast.common node) = Some 3.
Proof. eexists. vm_compute. repeat split; reflexivity. Qed.

(** ** Member functions on concrete inputs *)

Lemma generated_member_functions_witness :
  exists assignment bar,
    member_functions_to_ast stabs_type_to_ast foo foo_members (empty_state 4) 0
    = (Returned (Success [assignment; bar]), [])
    /\ ast.name (ast.common assignment) = "operator="
    /\ ast.name (ast.common bar) = "bar".
Proof.
  destruct (generated_member_functions foo foo_members (empty_state 4) 0)
    as (_ & _ & Hlowered); [reflexivity|].
  rewrite Hlowered.
  - vm_compute. eexists _, _. repeat split; reflexivity.
  - reflexivity.
  - intros Hspecial.
    specialize (Hspecial (method "bar") (mkMemberFunction method_type VIS_PUBLIC 0 0)).
    discriminate Hspecial; [right; left; reflexivity | left; reflexivity | reflexivity].
Defined.

(** C5 as stated fails: with [NO_GENERATED_MEMBER_FUNCTIONS] set and a
    struct that has [operator=] and [bar], the set [operator=] has only
    special overloads, and still its function is emitted, marked special,
    next to [bar]. *)
Lemma special_set_is_emitted :
  flag_set (parser_flags (empty_state 4)) NO_GENERATED_MEMBER_FUNCTIONS = true
  /\ (forall f, In f (overloads (method "operator=")) ->
        is_special "operator=" "Foo" (function_type f) = true)
  /\ exists assignment bar,
       member_functions_to_ast stabs_type_to_ast foo foo_members (empty_state 4) 0
       = (Returned (Success [assignment; bar]), [])
       /\ ast.name (ast.common assignment) = "operator="
       /\ ast.is_special_member_function (ast.common assignment) = true
       /\ ast.name (ast.common bar) = "bar"
       /\ ast.is_special_member_function (ast.common bar) = false.
Proof.
  split; [reflexivity|]. split.
  - intros f [<-|[]]. reflexivity.
  - vm_compute. eexists _, _. repeat split; reflexivity.
Qed.

(** Scenario S6: the constructor of [struct Foo]. *)
Example constructor_of_foo :
  exists constructor,
    member_functions_to_ast stabs_type_to_ast foo_constructor foo_constructor_members
      (empty_state 0) 0
    = (Returned (Success [constructor]), [])
    /\ ast.name (ast.common constructor) = "Foo"
    /\ ast.is_constructor_or_destructor (ast.common constructor) = true
    /\ ast.is_special_member_function (ast.common constructor) = true
    /\ exists return_type,
         ast.data constructor = ast.Function return_type (Some []) (Some 0) (Some 0).
Proof. vm_compute. eexists. repeat split; try reflexivity. eexists. reflexivity. Qed.

(** With 49 qualifiers instead of 50 the field is found to be a bitfield. *)
Example bitfield_behind_49_qualifiers :
  detect_bitfield (mkField "flag" VIS_PUBLIC (qualified 49 bool_type) false 0 1) (empty_state 0)
  = Success true
  /\ detect_bitfield deeply_qualified_field (empty_state 0) = Success false.
Proof. split; vm_compute; reflexivity. Qed.

(** ** The symbolic header *)

Section ReaderClaims.

Context `{mdebug.Declarations}.

(** C9. When the symbolic header lies within the image and its magic is
    not 0x7009, [parse_symbol_table] fails with "Invalid symbolic header."
    having read the header and nothing else; and a section whose first two
    bytes are 00 00 is rejected, again with no file descriptor read. *)
Theorem magic_is_checked (image : list byte) (file_offset : Z) :
  (file_offset + 0x60 <= Z.of_nat (length image) ->
   mdebug.magic (mdebug.SymbolicHeader_at image file_offset) <> 0x7009 ->
   mdebug.parse_symbol_table image file_offset
   = (inl (mdebug.VerifyFailed "Invalid symbolic header."),
      [("MIPS debug section", file_offset)]))
  /\ (0 <= file_offset ->
      image !! Z.to_nat file_offset = Some x00 ->
      image !! Z.to_nat (file_offset + 1) = Some x00 ->
      exists error,
        mdebug.parse_symbol_table image file_offset
        = (inl error, [("MIPS debug section", file_offset)])).
Proof.
  assert (Hmagic :
    file_offset + 0x60 <= Z.of_nat (length image) ->
    mdebug.magic (mdebug.SymbolicHeader_at image file_offset) <> 0x7009 ->
    mdebug.parse_symbol_table image file_offset
    = (inl (mdebug.VerifyFailed "Invalid symbolic header."),
       [("MIPS debug section", file_offset)])).
  { intros Hsize Hbad. unfold mdebug.parse_symbol_table, mdebug.get_packed.
    unfold mdebug.sizeof_SymbolicHeader.
    destruct (Z.leb_spec (file_offset + 96) (Z.of_nat (length image))); [|lia].
    cbn [mdebug.bind]. unfold mdebug.verify.
    destruct (Z.eqb_spec (mdebug.magic (mdebug.SymbolicHeader_at image file_offset)) 28681);
      [contradiction|].
    reflexivity. }
  split; [exact Hmagic|].
  intros Hoffset Hfirst Hsecond.
  destruct (Z.le_gt_cases (file_offset + 0x60) (Z.of_nat (length image))) as [Hsize|Hsize].
  - eexists. apply Hmagic; [exact Hsize|].
    cbn [mdebug.SymbolicHeader_at mdebug.magic].
    unfold mdebug.s16_at, mdebug.u16_at, mdebug.u8_at.
    replace (file_offset + 0) with file_offset by lia.
    rewrite Hfirst, Hsecond. discriminate.
  - eexists. unfold mdebug.parse_symbol_table, mdebug.get_packed.
    unfold mdebug.sizeof_SymbolicHeader.
    destruct (Z.leb_spec (file_offset + 96) (Z.of_nat (length image))); [lia|].
    reflexivity.
Qed.

End ReaderClaims.

(** Scenario S1, and a header that passes the check. *)
Example zero_section_is_rejected :
  mdebug.parse_symbol_table zero_section 0
  = (inl (mdebug.VerifyFailed "Invalid symbolic header."), [("MIPS debug section", 0)])
  /\ mdebug.parse_symbol_table [x00; x00] 0
     = (inl (mdebug.BadRecord "MIPS debug section" 0), [("MIPS debug section", 0)])
  /\ exists table,
       mdebug.parse_symbol_table empty_section 0 = (inr table, [("MIPS debug section", 0)])
       /\ mdebug.magic (mdebug.header table) = 0x7009
       /\ mdebug.files table = [].
Proof.
  split; [vm_compute; reflexivity|]. split; [vm_compute; reflexivity|].
  eexists. vm_compute. repeat split; reflexivity.
Qed.

(** ** The remaining claims on concrete inputs *)

(** Scenarios S3 and S2; an octal bound; a low bound that matches negated. *)
Example classify_range_scenarios :
  classify_range {| low := "0"; high := "18446744073709551615" |} = Success UNSIGNED_64
  /\ classify_range {| low := "-2147483648"; high := "2147483647" |} = Success SIGNED_32
  /\ classify_range {| low := "0"; high := "0377" |} = Success UNSIGNED_8
  /\ classify_range {| low := "128"; high := "127" |} = Success SIGNED_8
  /\ classify_range {| low := "0"; high := "-1" |} = Success UNQUALIFIED_128
  /\ classify_range {| low := "1"; high := "10" |} = Failure "Failed to classify range."
  /\ classify_range {| low := "0"; high := "" |}
     = Failure "Failed to parse high part of range as integer.".
Proof. repeat split; vm_compute; reflexivity. Qed.

Lemma classify_range_cases_witness :
  classify_range {| low := "0"; high := "18446744073709551615" |} = Success UNSIGNED_64
  /\ classify_range {| low := "-2147483648"; high := "2147483647" |} = Success SIGNED_32.
Proof.
  split.
  - destruct (classify_range_cases {| low := "0"; high := "18446744073709551615" |})
      as (_ & _ & Hliteral & _).
    apply Hliteral. unfold strings. simpl. tauto.
  - destruct (classify_range_cases {| low := "-2147483648"; high := "2147483647" |})
      as (_ & _ & _ & Hnumeric).
    destruct Hnumeric as (_ & _ & Hrows).
    + intros classification Hin. unfold strings in Hin. simpl in Hin.
      repeat (destruct Hin as [Hin|Hin]; [discriminate Hin|]). contradiction.
    + destruct (Hrows eq_refl eq_refl) as [Hclass _]. apply Hclass.
      exists (-2147483648, 2147483647, SIGNED_32).
      split; [unfold integers; simpl; tauto|].
      split; [reflexivity|]. split; [left|]; vm_compute; reflexivity.
Defined.

Lemma bitfield_lowering_witness :
  exists node warnings,
    field_to_ast stabs_type_to_ast three_bits foo (empty_state 0) 0
    = (Returned (Success node), warnings)
    /\ ast.is_bitfield node = true.
Proof.
  destruct (bitfield_lowering three_bits foo (empty_state 0) 0) as [[_ Hemitted] _].
  apply Hemitted. split.
  - split; [reflexivity|]. exists O, unsigned_int_type, 32.
    split; [lia|]. split; [constructor; split; [reflexivity | exact I]|].
    split; [vm_compute; reflexivity|]. split; discriminate.
  - eexists _, _. vm_compute. reflexivity.
Defined.


Lemma call_depth_guard_witness :
  stabs_type_to_ast bool_type None (empty_state 0) 201 false false
  = (Returned (Success (ast.make (ast.Error
       "Call depth greater than 200 in stabs_type_to_ast, probably infinite recursion."))),
     [])
  /\ stabs_type_to_ast bool_type None (empty_state 1) 201 false false
     = (Returned (Failure
          "Call depth greater than 200 in stabs_type_to_ast, probably infinite recursion."),
        []).
Proof.
  split.
  - rewrite (proj1 (call_depth_guard bool_type None (empty_state 0) 201 false false)) by lia.
    reflexivity.
  - rewrite (proj1 (call_depth_guard bool_type None (empty_state 1) 201 false false)) by lia.
    reflexivity.
Defined.

Lemma magic_is_checked_witness :
  mdebug.parse_symbol_table zero_section 0
  = (inl (mdebug.VerifyFailed "Invalid symbolic header."), [("MIPS debug section", 0)]).
Proof.
  apply (proj1 (magic_is_checked zero_section 0)).
  - vm_compute. discriminate.
  - vm_compute. discriminate.
Defined.

(** A cycle in the graph of types: the lowering follows it down to the
    guard on the depth and stops there. *)
Example cycle_ends_at_the_guard :
  stabs_type_to_ast self_reference None (cyclic_state 0) 0 false false
  = (Returned (Success (ast.make (ast.Error
       "Call depth greater than 200 in stabs_type_to_ast, probably infinite recursion."))),
     [])
  /\ stabs_type_to_ast self_reference None (cyclic_state 1) 0 false false
     = (Returned (Failure
          "Call depth greater than 200 in stabs_type_to_ast, probably infinite recursion."),
        [])
  /\ detect_bitfield (mkField "f" VIS_PUBLIC self_reference false 0 1) (cyclic_state 0)
     = Success false.
Proof. repeat split; vm_compute; reflexivity. Qed.

(** ** More on the lowering: what every result keeps *)

Lemma bind_ret_r {A} (m : Lowering A) : bind m ret = m.
Proof. destruct m as [[[a|e]| |] w]; simpl; now rewrite ?app_nil_r. Qed.

Lemma contains_error_set_name v n : contains_error (ast.set_name v n) = contains_error n.
Proof. now destruct n. Qed.
Lemma contains_error_set_offset_bytes v n :
  contains_error (ast.set_offset_bytes v n) = contains_error n.
Proof. now destruct n. Qed.
Lemma contains_error_set_size_bits v n :
  contains_error (ast.set_size_bits v n) = contains_error n.
Proof. now destruct n. Qed.
Lemma contains_error_set_is_const v n : contains_error (ast.set_is_const v n) = contains_error n.
Proof. now destruct n. Qed.
Lemma contains_error_set_is_volatile v n :
  contains_error (ast.set_is_volatile v n) = contains_error n.
Proof. now destruct n. Qed.
Lemma contains_error_set_is_base_class v n :
  contains_error (ast.set_is_base_class v n) = contains_error n.
Proof. now destruct n. Qed.
Lemma contains_error_set_is_vtable_pointer v n :
  contains_error (ast.set_is_vtable_pointer v n) = contains_error n.
Proof. now destruct n. Qed.
Lemma contains_error_set_member_function_flags a b c n :
  contains_error (ast.set_member_function_flags a b c n) = contains_error n.
Proof. now destruct n. Qed.
Lemma contains_error_set_storage_class v n :
  contains_error (ast.set_storage_class v n) = contains_error n.
Proof. now destruct n. Qed.
Lemma contains_error_set_access_specifier v flags n :
  contains_error (ast.set_access_specifier v flags n) = contains_error n.
Proof. now destruct n. Qed.
Lemma contains_error_set_function_members m i n :
  contains_error (ast.set_function_members m i n) = contains_error n.
Proof. destruct n as [c []]; reflexivity. Qed.

Lemma existsb_false_Forall {A} (f : A -> bool) (l : list A) :
  Forall (fun x => f x = false) l -> existsb f l = false.
Proof. induction 1 as [|x l Hx _ IH]; simpl; [reflexivity | now rewrite Hx, IH]. Qed.

Section KeptFacts.

Context `{Declarations}.

Lemma kept_ret {A} state (value_kept : A -> Prop) a :
  value_kept a -> kept state value_kept (ret a).
Proof. intros Ha. split; [constructor | exact Ha]. Qed.

Lemma kept_failure {A} state (value_kept : A -> Prop) message :
  failure_kept state message -> kept state value_kept (CCC_FAILURE message).
Proof. intros Hm. split; [constructor | exact Hm]. Qed.

Lemma kept_bind {A B} state (P : A -> Prop) (Q : B -> Prop) (m : Lowering A)
    (k : A -> Lowering B) :
  kept state P m -> (forall a, P a -> kept state Q (k a)) -> kept state Q (bind m k).
Proof.
  intros [Hw Hm] Hk. destruct m as [[[a|e]| |] w]; simpl in *; try (split; [exact Hw | auto]).
  destruct (Hk a Hm) as [Hw' Hk']. destruct (k a) as [r w']. simpl in *.
  split; [apply Forall_app; auto | exact Hk'].
Qed.

Lemma kept_bind_unchecked {A B} state (P : A -> Prop) (Q : B -> Prop) (m : Lowering A)
    (k : A -> Lowering B) :
  kept state P m -> (forall a, P a -> kept state Q (k a)) ->
  kept state Q (bind_unchecked m k).
Proof.
  intros [Hw Hm] Hk. destruct m as [[[a|e]| |] w]; simpl in *.
  - destruct (Hk a Hm) as [Hw' Hk']. destruct (k a) as [r w']. simpl in *.
    split; [apply Forall_app; auto | exact Hk'].
  - split; [exact Hw | exact I].
  - split; [exact Hw | exact I].
  - split; [exact Hw | exact I].
Qed.

Lemma kept_for_each {A B} state (Q : B -> Prop) (f : A -> Lowering B) (l : list A) :
  (forall x, kept state Q (f x)) -> kept state (Forall Q) (for_each f l).
Proof.
  intros Hf. induction l as [|x l IH]; simpl.
  - apply kept_ret. constructor.
  - eapply kept_bind; [apply Hf|]. intros y Hy.
    eapply kept_bind; [apply IH|]. intros ys Hys.
    apply kept_ret. now constructor.
Qed.

Lemma classify_range_failure range message :
  classify_range range = Failure message ->
  message = "Failed to parse low part of range as integer."
  \/ message = "Failed to parse high part of range as integer."
  \/ message = "Failed to classify range.".
Proof.
  unfold classify_range, CCC_CHECK. destruct (match_strings _ _ _); [discriminate|].
  destruct (strtoll _ _) as [lv lend]. destruct lend; [|intros [= <-]; auto].
  destruct (strtoll _ _) as [hv hend]. destruct hend; [|intros [= <-]; auto].
  destruct (match_integers _ _ _); [discriminate | intros [= <-]; auto].
Qed.

Lemma classify_range_kept state range :
  kept state (fun _ => True) (of_result (classify_range range)).
Proof.
  split; [constructor|]. simpl.
  destruct (classify_range range) as [c|message] eqn:Hclass; [exact I|].
  left. unfold plain_failures.
  destruct (classify_range_failure _ _ Hclass) as [->|[->| ->]]; simpl; tauto.
Qed.

(** [detect_bitfield] fails only when the range it resolved to cannot be
    classified. *)
Lemma detect_bitfield_failure field state message :
  detect_bitfield field state = Failure message ->
  exists final range,
    resolve_type_references state 50 0 (field_type field) = ResolvedTo final
    /\ body final = StabsRange range
    /\ classify_range range = Failure message.
Proof.
  unfold detect_bitfield, compare_sizes. destruct (is_static field); [discriminate|].
  destruct (resolve_type_references _ _ _ _) as [final|]; [|discriminate].
  destruct (body final) as [ | | | | | |range| | |forward ?| | | | | | | ] eqn:Hbody;
    try discriminate.
  - destruct (classify_range range) as [c|m] eqn:Hclass.
    + destruct (_ =? 0); discriminate.
    + intros [= <-]. eauto.
  - destruct forward; discriminate.
  - destruct (_ =? 0); discriminate.
Qed.

Lemma detect_bitfield_kept state field :
  kept state (fun _ => True) (of_result (detect_bitfield field state)).
Proof.
  split; [constructor|]. simpl.
  destruct (detect_bitfield field state) as [b|message] eqn:Hdetect; [exact I|].
  apply detect_bitfield_failure in Hdetect as (final & range & _ & _ & Hclass).
  left. unfold plain_failures.
  destruct (classify_range_failure _ _ Hclass) as [->|[->| ->]]; simpl; tauto.
Qed.

Lemma field_to_ast_kept l field enclosing state depth :
  kept_by l -> kept state (node_kept state) (field_to_ast l field enclosing state depth).
Proof.
  intros Hl. unfold field_to_ast.
  eapply kept_bind; [apply detect_bitfield_kept|]. intros [] _.
  - eapply kept_bind; [apply Hl|]. intros node Hnode. apply kept_ret.
    intros Hstrict. rewrite contains_error_set_access_specifier,
      contains_error_set_size_bits, contains_error_set_offset_bytes, contains_error_set_name.
    simpl. now apply Hnode.
  - eapply kept_bind; [apply Hl|]. intros node Hnode. apply kept_ret.
    intros Hstrict.
    destruct (_ || _), (is_static field);
      rewrite ?contains_error_set_storage_class, ?contains_error_set_is_vtable_pointer,
        contains_error_set_access_specifier, contains_error_set_size_bits,
        contains_error_set_offset_bytes, contains_error_set_name; now apply Hnode.
Qed.

Lemma member_function_to_ast_kept l info stabs_type state depth stabs_func :
  kept_by l ->
  kept state (node_kept state) (member_function_to_ast l info stabs_type state depth stabs_func).
Proof.
  intros Hl. unfold member_function_to_ast.
  eapply kept_bind; [apply Hl|]. intros node Hnode. apply kept_ret. intros Hstrict.
  rewrite contains_error_set_function_members, contains_error_set_access_specifier,
    contains_error_set_name, contains_error_set_member_function_flags. now apply Hnode.
Qed.

Lemma member_function_sets_to_ast_kept l tn stabs_type state depth sets only :
  kept_by l ->
  kept state (fun result => Forall (node_kept state) result.1)
    (member_function_sets_to_ast l tn stabs_type state depth sets only).
Proof.
  intros Hl. revert only. induction sets as [|s sets IH]; intros only; simpl.
  - apply kept_ret. constructor.
  - eapply kept_bind.
    { apply kept_for_each. intros f. now apply member_function_to_ast_kept. }
    intros nodes Hnodes. eapply kept_bind; [apply IH|].
    intros [more o] Hmore. apply kept_ret. simpl in *. now apply Forall_app.
Qed.

Lemma member_functions_to_ast_kept l stabs_type members state depth :
  kept_by l ->
  kept state (Forall (node_kept state))
    (member_functions_to_ast l stabs_type members state depth).
Proof.
  intros Hl. unfold member_functions_to_ast.
  destruct (flag_set _ NO_MEMBER_FUNCTIONS); [apply kept_ret; constructor|].
  destruct (_ && _); [apply kept_ret; constructor|].
  eapply kept_bind; [now apply member_function_sets_to_ast_kept|].
  intros [nodes o] Hnodes. destruct (_ && _); apply kept_ret; [constructor | exact Hnodes].
Qed.

Lemma node_kept_all state nodes :
  strict state = true -> Forall (node_kept state) nodes -> existsb contains_error nodes = false.
Proof.
  intros Hstrict Hall. apply existsb_false_Forall.
  eapply Forall_impl; [exact Hall|]. intros node Hnode. now apply Hnode.
Qed.

Lemma array_to_ast_kept state element_node index_type :
  node_kept state element_node ->
  kept state (node_kept state) (array_to_ast element_node index_type).
Proof.
  intros Helement. unfold array_to_ast.
  destruct (body index_type); try (split; [constructor | exact I]).
  destruct (strtoll _ _) as [lv lend]. unfold of_result, CCC_CHECK, plain_failures.
  split; [constructor|]. simpl.
  destruct lend; [|left; simpl; tauto].
  destruct (lv =? 0); [|left; simpl; tauto].
  destruct (strtoll _ _) as [hv hend]. destruct hend; [|left; simpl; tauto].
  exact Helement.
Qed.

Lemma struct_or_union_kept l stabs_type members state depth force is_struct :
  kept_by l ->
  kept state (node_kept state)
    (let* base_classes :=
       for_each
         (fun stabs_base_class =>
            let* base_class :=
              l (base_type stabs_base_class) (Some stabs_type) state (depth + 1) true force in
            let base_class := ast.set_is_base_class true base_class in
            let base_class := ast.set_offset_bytes (base_offset stabs_base_class) base_class in
            ret (ast.set_access_specifier
                   (stabs_field_visibility_to_access_specifier
                      (base_visibility stabs_base_class))
                   (parser_flags state) base_class))
         (base_classes members) in
     let* fields :=
       for_each (fun field => field_to_ast l field stabs_type state depth) (fields members) in
     let* member_functions := member_functions_to_ast l stabs_type members state depth in
     ret (ast.set_size_bits (wrap32 (wrap32 (size members) * 8))
            (ast.make (ast.StructOrUnion is_struct base_classes fields member_functions)))).
Proof.
  intros Hl.
  eapply kept_bind.
  { apply (kept_for_each state (node_kept state)). intros b.
    eapply kept_bind; [apply Hl|]. intros node Hnode.
    apply kept_ret. intros Hstrict.
    rewrite contains_error_set_access_specifier, contains_error_set_offset_bytes,
      contains_error_set_is_base_class. now apply Hnode. }
  intros bases Hbases. eapply kept_bind.
  { apply kept_for_each. intros f. now apply field_to_ast_kept. }
  intros fs Hfs. eapply kept_bind; [now apply member_functions_to_ast_kept|].
  intros ms Hms. apply kept_ret. intros Hstrict.
  rewrite contains_error_set_size_bits. simpl.
  now rewrite !(node_kept_all state) by assumption.
Qed.

Lemma dispatch_kept l stabs_type enclosing state depth substitute force :
  kept_by l ->
  kept state (node_kept state) (dispatch l stabs_type enclosing state depth substitute force).
Proof.
  intros Hl. unfold dispatch.
  destruct (body stabs_type).
  - destruct (_ || _); [|apply kept_ret; intros _; reflexivity].
    eapply kept_bind; [apply Hl|]. intros node Hnode. now apply kept_ret.
  - eapply kept_bind; [apply Hl|]. intros node Hnode. now apply array_to_ast_kept.
  - apply kept_ret. intros _. reflexivity.
  - eapply kept_bind; [apply Hl|]. intros node Hnode. apply kept_ret.
    intros Hstrict. simpl. rewrite (Hnode Hstrict). reflexivity.
  - eapply kept_bind; [apply Hl|]. intros node Hnode. apply kept_ret.
    intros Hstrict. rewrite contains_error_set_is_volatile. now apply Hnode.
  - eapply kept_bind_unchecked; [apply Hl|]. intros node Hnode. apply kept_ret.
    intros Hstrict. rewrite contains_error_set_is_const. now apply Hnode.
  - eapply kept_bind; [apply classify_range_kept|]. intros c _. apply kept_ret.
    intros _. reflexivity.
  - now apply struct_or_union_kept.
  - now apply struct_or_union_kept.
  - apply kept_ret. intros _. reflexivity.
  - apply kept_ret. intros _. reflexivity.
  - eapply kept_bind; [apply Hl|]. intros r Hr.
    eapply kept_bind; [apply kept_for_each; intros p; apply Hl|]. intros ps Hps.
    apply kept_ret. intros Hstrict. simpl.
    now rewrite (Hr Hstrict), (node_kept_all state ps).
  - eapply kept_bind; [apply Hl|]. intros node Hnode. apply kept_ret.
    intros Hstrict. simpl. now apply Hnode.
  - eapply kept_bind; [apply Hl|]. intros node Hnode. apply kept_ret.
    intros Hstrict. simpl. now apply Hnode.
  - eapply kept_bind; [apply Hl|]. intros node Hnode. apply kept_ret.
    intros Hstrict. rewrite contains_error_set_size_bits. now apply Hnode.
  - eapply kept_bind; [apply Hl|]. intros c Hc.
    eapply kept_bind; [apply Hl|]. intros m Hm. apply kept_ret.
    intros Hstrict. simpl. now rewrite (Hc Hstrict), (Hm Hstrict).
  - destruct (_ =? 16); [apply kept_ret; intros _; reflexivity|].
    apply kept_failure. left. unfold plain_failures. simpl. tauto.
Qed.

Lemma lookup_body_kept l stabs_type enclosing state depth substitute force :
  kept_by l ->
  kept state (node_kept state)
    (lookup_body l stabs_type enclosing state depth substitute force).
Proof.
  intros Hl. unfold lookup_body.
  destruct (anonymous stabs_type).
  { apply kept_failure. left. unfold plain_failures. simpl. tauto. }
  destruct (_ !! _); [apply Hl|].
  destruct (flag_set _ STRICT_PARSING) eqn:Hstrict.
  - apply kept_failure. right. split; [exact Hstrict|]. right. eauto.
  - split; simpl.
    + constructor; [|constructor]. split; [exact Hstrict | eauto].
    + intros Hs. unfold strict in Hs. congruence.
Qed.

Lemma stabs_type_to_ast_body_kept l stabs_type enclosing state depth substitute force :
  kept_by l ->
  kept state (node_kept state)
    (stabs_type_to_ast_body l stabs_type enclosing state depth substitute force).
Proof.
  intros Hl. unfold stabs_type_to_ast_body.
  destruct (200 <? depth).
  { destruct (flag_set _ STRICT_PARSING) eqn:Hstrict.
    - apply kept_failure. right. split; [exact Hstrict | now left].
    - apply kept_ret. intros Hs. unfold strict in Hs. congruence. }
  destruct (substitute_name _ _ _ _) as [node|] eqn:Hname.
  { apply kept_ret. intros _. unfold substitute_name in Hname.
    destruct (name stabs_type); [|discriminate].
    destruct (_ && _); [|discriminate]. now injection Hname as <-. }
  destruct (substitute_this _ _ _); [apply kept_ret; intros _; reflexivity|].
  destruct (negb _); [now apply lookup_body_kept | now apply dispatch_kept].
Qed.

Lemma stabs_type_to_ast_kept : kept_by stabs_type_to_ast.
Proof.
  assert (Hfuel : forall fuel, kept_by (stabs_type_to_ast_fuel fuel)).
  { induction fuel as [|fuel IH]; intros t e s d b1 b2; simpl.
    - split; [constructor | exact I].
    - now apply stabs_type_to_ast_body_kept. }
  intros t e s d b1 b2. apply Hfuel.
Qed.

End KeptFacts.

(** ** More on the lowering: the cases of the [switch] *)

Lemma for_each_Forall2 {A B} (f : A -> Lowering B) (l : list A) ys w :
  for_each f l = (Returned (Success ys), w) ->
  Forall2 (fun x y => exists w', f x = (Returned (Success y), w')) l ys.
Proof.
  revert ys w. induction l as [|x l IH]; intros ys w; simpl.
  - intros [= <- _]. constructor.
  - intros Hbind.
    apply bind_inversion in Hbind as (y & w1 & w2 & Hy & Hrest & _).
    apply bind_inversion in Hrest as (ys' & w3 & w4 & Hys & Hret & _).
    injection Hret as <- _. constructor; eauto.
Qed.

Section CaseFacts.

Context `{Declarations}.

Lemma stabs_type_to_ast_expanded stabs_type enclosing state depth substitute force :
  expanded stabs_type enclosing state depth substitute force ->
  stabs_type_to_ast stabs_type enclosing state depth substitute force
  = dispatch stabs_type_to_ast stabs_type enclosing state depth substitute force.
Proof.
  intros (Hdepth & Hname & Hthis & Hbody).
  rewrite stabs_type_to_ast_equation. unfold stabs_type_to_ast_body.
  destruct (Z.ltb_spec 200 depth); [lia|]. now rewrite Hname, Hthis, Hbody.
Qed.

(** What [field_to_ast] sets on every node it returns. *)
Lemma field_to_ast_attributes l field enclosing state depth node warnings :
  field_to_ast l field enclosing state depth = (Returned (Success node), warnings) ->
  ast.offset_bytes (ast.common node) = Some (Z.quot (offset_bits field) 8)
  /\ ast.size_bits (ast.common node) = Some (field_size_bits field)
  /\ ast.access_specifier (ast.common node)
     = stabs_field_visibility_to_access_specifier (field_visibility field)
  /\ (ast.name (ast.common node) = field_name field
      \/ (detect_bitfield field state = Success true /\ field_name field = " "
          /\ ast.name (ast.common node) = ""))
  /\ (is_static field = true ->
      ast.storage_class (ast.common node) = ast.STORAGE_CLASS_STATIC)
  /\ (detect_bitfield field state = Success false ->
      starts_with (field_name field) "$vf" = true
      \/ starts_with (field_name field) "_vptr$" = true
      \/ starts_with (field_name field) "_vptr." = true ->
      ast.is_vtable_pointer (ast.common node) = true).
Proof.
  intros Hfield. unfold field_to_ast in Hfield.
  apply bind_inversion in Hfield as (is_bitfield & w1 & w2 & Hdetect & Hrest & _).
  injection Hdetect as Hdetect _.
  destruct is_bitfield.
  - apply bind_inversion in Hrest as (raw & w3 & w4 & _ & Hret & _).
    injection Hret as <- _. repeat split; try reflexivity.
    + destruct (String.eqb_spec (field_name field) " ") as [Hblank|Hname].
      * right. now rewrite Hblank.
      * now left.
    + intros Hstatic. unfold detect_bitfield in Hdetect.
      rewrite Hstatic in Hdetect. discriminate.
    + rewrite Hdetect. discriminate.
  - apply bind_inversion in Hrest as (raw & w3 & w4 & _ & Hret & _).
    injection Hret as <- _.
    destruct raw as [c d].
    destruct (starts_with (field_name field) "$vf"),
      (starts_with (field_name field) "_vptr$"),
      (starts_with (field_name field) "_vptr."), (is_static field);
      cbn [orb];
      repeat split; try (now left); try discriminate; try reflexivity;
      intros _ [|[|]]; discriminate.
Qed.

(** The name that [field_to_ast] gives to the node. *)
Lemma field_to_ast_name l field enclosing state depth node warnings :
  field_to_ast l field enclosing state depth = (Returned (Success node), warnings) ->
  (detect_bitfield field state = Success true
   /\ ast.name (ast.common node)
      = (if String.eqb (field_name field) " " then "" else field_name field))
  \/ (detect_bitfield field state = Success false
      /\ ast.name (ast.common node) = field_name field).
Proof.
  intros Hfield. unfold field_to_ast in Hfield.
  apply bind_inversion in Hfield as (is_bitfield & w1 & w2 & Hdetect & Hrest & _).
  injection Hdetect as Hdetect _.
  destruct is_bitfield.
  - apply bind_inversion in Hrest as (raw & w3 & w4 & _ & Hret & _).
    injection Hret as <- _. left. split; [exact Hdetect | reflexivity].
  - apply bind_inversion in Hrest as (raw & w3 & w4 & _ & Hret & _).
    injection Hret as <- _. right. split; [exact Hdetect|].
    destruct raw as [c d].
    destruct (starts_with (field_name field) "$vf" || starts_with (field_name field) "_vptr$"
              || starts_with (field_name field) "_vptr."), (is_static field); reflexivity.
Qed.

End CaseFacts.

(** ** Further properties of the lowering *)

Section LoweringExtras.

Context `{Declarations}.

(** X1. Under [STRICT_PARSING] the lowering prints no warning, whatever
    its outcome, and a node it returns holds no [Error] node at any
    depth. *)
Theorem strict_lowering_is_clean stabs_type enclosing state depth substitute force :
  flag_set (parser_flags state) STRICT_PARSING = true ->
  (stabs_type_to_ast stabs_type enclosing state depth substitute force).2 = []
  /\ forall node warnings,
       stabs_type_to_ast stabs_type enclosing state depth substitute force
       = (Returned (Success node), warnings) ->
       contains_error node = false.
Proof.
  intros Hstrict.
  destruct (stabs_type_to_ast_kept stabs_type enclosing state depth substitute force)
    as [Hwarnings Hresult].
  split.
  - destruct (stabs_type_to_ast _ _ _ _ _ _).2 as [|w ws]; [reflexivity|].
    inversion Hwarnings as [|? ? [Hlenient _] _]. unfold strict in Hlenient. congruence.
  - intros node warnings Hnode. rewrite Hnode in Hresult. now apply Hresult.
Qed.

(** X2. Under lenient parsing a failure of the lowering has one of six
    messages, none of which is that of the depth guard or of a lookup that
    missed; and every warning is the message of such a lookup. *)
Theorem lenient_failures_are_plain stabs_type enclosing state depth substitute force :
  flag_set (parser_flags state) STRICT_PARSING = false ->
  (forall message warnings,
     stabs_type_to_ast stabs_type enclosing state depth substitute force
     = (Returned (Failure message), warnings) ->
     In message
       [ "Cannot lookup type (type is anonymous).";
         "Failed to parse low part of range as integer.";
         "Invalid index type for array.";
         "Failed to parse high part of range as integer.";
         "Failed to classify range.";
         "Unknown built-in type!" ])
  /\ Forall
       (fun warning =>
          exists number,
            warning
            = "Failed to lookup STABS type by its type number ("
              ++ to_string (file number) ++ "," ++ to_string (type number) ++ ").")
       (stabs_type_to_ast stabs_type enclosing state depth substitute force).2.
Proof.
  intros Hlenient.
  destruct (stabs_type_to_ast_kept stabs_type enclosing state depth substitute force)
    as [Hwarnings Hresult].
  split.
  - intros message warnings Hfailure. rewrite Hfailure in Hresult.
    destruct Hresult as [Hplain|[Hstrict _]]; [exact Hplain|].
    unfold strict in Hstrict. congruence.
  - eapply Forall_impl; [exact Hwarnings|]. intros w [_ Hw]. exact Hw.
Qed.

(** X3. With [force_substitute], a type that has the type number of the
    enclosing struct, neither of them anonymous, is lowered to a
    [TypeName] of source [THIS] that carries the file handle and the type
    number and no name; no recursive call takes part in it. *)
Theorem this_substitution stabs_type enclosing state depth substitute :
  depth <= 200 ->
  substitute_name stabs_type state depth substitute = None ->
  anonymous stabs_type = false ->
  anonymous enclosing = false ->
  type_number stabs_type = type_number enclosing ->
  let this_node :=
    ast.make (ast.TypeName ast.THIS
      {| ast.type_name := None;
         ast.referenced_file_handle := Some (file_handle state);
         ast.stabs_type_number_file := Some (file (type_number stabs_type));
         ast.stabs_type_number_type := Some (type (type_number stabs_type));
         ast.type := None |}) in
  stabs_type_to_ast stabs_type (Some enclosing) state depth substitute true
  = (Returned (Success this_node), [])
  /\ forall lower : Lower,
       stabs_type_to_ast_body lower stabs_type (Some enclosing) state depth substitute true
       = (Returned (Success this_node), []).
Proof.
  intros Hdepth Hname Htype Henclosing Hnumber this_node.
  assert (Hbody : forall l : Lower,
    stabs_type_to_ast_body l stabs_type (Some enclosing) state depth substitute true
    = (Returned (Success this_node), [])).
  { intros l. unfold stabs_type_to_ast_body, substitute_this.
    destruct (Z.ltb_spec 200 depth); [lia|]. rewrite Hname, Htype, Henclosing, <- Hnumber.
    unfold type_number_eq. now rewrite !Z.eqb_refl. }
  split; [|exact Hbody].
  rewrite stabs_type_to_ast_equation. apply Hbody.
Qed.

(** X4. A type reference with a body that points at a type of its own
    number, neither being anonymous, is [void]; any other type reference
    is lowered as the type it points at, one level deeper and with the
    flags of the caller. *)
Theorem self_reference_is_void stabs_type enclosing state depth substitute force referenced :
  expanded stabs_type enclosing state depth substitute force ->
  body stabs_type = StabsTypeReferenceType referenced ->
  stabs_type_to_ast stabs_type enclosing state depth substitute force
  = if negb (anonymous stabs_type) && negb (anonymous referenced)
       && type_number_eq (type_number referenced) (type_number stabs_type)
    then (Returned (Success (ast.make (ast.BuiltIn VOID))), [])
    else stabs_type_to_ast referenced enclosing state (depth + 1) substitute force.
Proof.
  intros Hexpanded Hbody. rewrite (stabs_type_to_ast_expanded _ _ _ _ _ _ Hexpanded).
  unfold dispatch. rewrite Hbody.
  destruct (anonymous stabs_type), (anonymous referenced),
    (type_number_eq (type_number referenced) (type_number stabs_type));
    cbn [negb orb andb]; rewrite ?bind_ret_r; reflexivity.
Qed.

(** X5. A floating point built-in is lowered to an unsigned integer class
    of its size in bytes, [UNSIGNED_8] for a size that is none of 1, 2, 4,
    8 and 16, and so never to a [FLOAT] class; it cannot fail. *)
Theorem floating_point_builtin_is_unsigned stabs_type enclosing state depth substitute force
    fpclass bytes :
  expanded stabs_type enclosing state depth substitute force ->
  body stabs_type = StabsFloatingPointBuiltInType fpclass bytes ->
  exists bclass,
    stabs_type_to_ast stabs_type enclosing state depth substitute force
    = (Returned (Success (ast.make (ast.BuiltIn bclass))), [])
    /\ In bclass [UNSIGNED_8; UNSIGNED_16; UNSIGNED_32; UNSIGNED_64; UNSIGNED_128]
    /\ (bytes = 2 -> bclass = UNSIGNED_16)
    /\ (bytes = 4 -> bclass = UNSIGNED_32)
    /\ (bytes = 8 -> bclass = UNSIGNED_64)
    /\ (bytes = 16 -> bclass = UNSIGNED_128)
    /\ (~ In bytes [2; 4; 8; 16] -> bclass = UNSIGNED_8).
Proof.
  intros Hexpanded Hbody. rewrite (stabs_type_to_ast_expanded _ _ _ _ _ _ Hexpanded).
  unfold dispatch. rewrite Hbody.
  destruct (Z.eqb_spec bytes 1) as [->|H1].
  { eexists. split; [reflexivity|]. split; [simpl; tauto|].
    repeat split; try discriminate; reflexivity. }
  destruct (Z.eqb_spec bytes 2) as [->|H2].
  { eexists. split; [reflexivity|]. split; [simpl; tauto|].
    repeat split; try discriminate; try reflexivity.
    intros Hn; exfalso; apply Hn; simpl; tauto. }
  destruct (Z.eqb_spec bytes 4) as [->|H4].
  { eexists. split; [reflexivity|]. split; [simpl; tauto|].
    repeat split; try discriminate; try reflexivity.
    intros Hn; exfalso; apply Hn; simpl; tauto. }
  destruct (Z.eqb_spec bytes 8) as [->|H8].
  { eexists. split; [reflexivity|]. split; [simpl; tauto|].
    repeat split; try discriminate; try reflexivity.
    intros Hn; exfalso; apply Hn; simpl; tauto. }
  destruct (Z.eqb_spec bytes 16) as [->|H16].
  { eexists. split; [reflexivity|]. split; [simpl; tauto|].
    repeat split; try discriminate; try reflexivity.
    intros Hn; exfalso; apply Hn; simpl; tauto. }
  eexists. split; [reflexivity|]. split; [simpl; tauto|].
  repeat split; congruence.
Qed.

(** X6. A built-in type is [bool] when its id is 16; any other id makes
    the lowering fail with "Unknown built-in type!", under lenient parsing
    as under strict parsing. *)
Theorem builtin_must_be_bool stabs_type enclosing state depth substitute force type_id :
  expanded stabs_type enclosing state depth substitute force ->
  body stabs_type = StabsBuiltInType type_id ->
  stabs_type_to_ast stabs_type enclosing state depth substitute force
  = if type_id =? 16
    then (Returned (Success (ast.make (ast.BuiltIn BOOL_8))), [])
    else (Returned (Failure "Unknown built-in type!"), []).
Proof.
  intros Hexpanded Hbody. rewrite (stabs_type_to_ast_expanded _ _ _ _ _ _ Hexpanded).
  unfold dispatch. rewrite Hbody. destruct (type_id =? 16); reflexivity.
Qed.

(** X7. The node returned for a [volatile] or [const] qualified type is
    the node of the qualified type with [is_volatile], respectively
    [is_const], set: the variant, the other attributes and the warnings
    are those of the inner lowering. *)
Theorem qualifiers_mark_the_node stabs_type enclosing state depth substitute force
    qualified node warnings :
  expanded stabs_type enclosing state depth substitute force ->
  stabs_type_to_ast stabs_type enclosing state depth substitute force
  = (Returned (Success node), warnings) ->
  (body stabs_type = StabsVolatileQualifierType qualified ->
   exists inner,
     stabs_type_to_ast qualified enclosing state (depth + 1) substitute force
     = (Returned (Success inner), warnings)
     /\ node = ast.set_is_volatile true inner
     /\ ast.is_volatile (ast.common node) = true
     /\ ast.is_const (ast.common node) = ast.is_const (ast.common inner)
     /\ ast.data node = ast.data inner)
  /\ (body stabs_type = StabsConstQualifierType qualified ->
      exists inner,
        stabs_type_to_ast qualified enclosing state (depth + 1) substitute force
        = (Returned (Success inner), warnings)
        /\ node = ast.set_is_const true inner
        /\ ast.is_const (ast.common node) = true
        /\ ast.is_volatile (ast.common node) = ast.is_volatile (ast.common inner)
        /\ ast.data node = ast.data inner).
Proof.
  intros Hexpanded Hresult.
  rewrite (stabs_type_to_ast_expanded _ _ _ _ _ _ Hexpanded) in Hresult.
  unfold dispatch in Hresult.
  split; intros Hbody; rewrite Hbody in Hresult.
  - apply bind_inversion in Hresult as (inner & w1 & w2 & Hinner & [= <- <-] & ->).
    rewrite app_nil_r. exists inner. destruct inner as [c d]. auto.
  - unfold bind_unchecked in Hresult.
    destruct (stabs_type_to_ast qualified enclosing state (depth + 1) substitute force)
      as [[[inner|?]| |] w]; try discriminate.
    simpl in Hresult. rewrite app_nil_r in Hresult. injection Hresult as <- <-.
    exists inner. destruct inner as [c d]. auto.
Qed.

(** X8. A [BitField] is never the result of lowering a type: only the
    lowering of a field can yield one. *)
Theorem lowering_never_yields_bitfield stabs_type enclosing state depth substitute force
    node warnings :
  stabs_type_to_ast stabs_type enclosing state depth substitute force
  = (Returned (Success node), warnings) ->
  forall underlying offset, ast.data node <> ast.BitField underlying offset.
Proof.
  intros Hresult underlying offset Hdata.
  apply stabs_type_to_ast_no_bitfield in Hresult.
  unfold ast.is_bitfield in Hresult. rewrite Hdata in Hresult. discriminate.
Qed.

(** X9. [detect_bitfield] fails only when the type of the field resolves
    to a range that [classify_range] cannot classify, and then with the
    message of [classify_range]; a static field is never a bitfield and
    never makes it fail. *)
Theorem detect_bitfield_failures field state :
  (forall message,
     detect_bitfield field state = Failure message ->
     is_static field = false
     /\ exists n final range,
          (n <= 49)%nat /\ resolves_in state n (field_type field) final
          /\ body final = StabsRange range
          /\ classify_range range = Failure message)
  /\ (is_static field = true -> detect_bitfield field state = Success false).
Proof.
  split.
  - intros message Hfailure.
    assert (Hstatic : is_static field = false).
    { unfold detect_bitfield in Hfailure. now destruct (is_static field). }
    split; [exact Hstatic|].
    apply detect_bitfield_failure in Hfailure as (final & range & Hloop & Hbody & Hclass).
    apply (resolve_type_references_spec state 50 0) in Hloop as (n & Hn & Hresolves);
      [|lia..].
    exists n, final, range. split; [lia | auto].
  - intros Hstatic. unfold detect_bitfield. now rewrite Hstatic.
Qed.

(** X10. Every node that [field_to_ast] returns has
    [offset_bytes = offset_bits / 8] and the size and the access specifier
    of the field; its name is the name of the field, except that a
    bitfield named " " gets the name "" (a field named " " that is no
    bitfield keeps its name); a static field is never lowered to a
    [BitField] and gets the storage class [STATIC]; a field that is not a
    bitfield and whose name starts with "$vf", "_vptr$" or "_vptr." is
    marked as the pointer to the virtual table. *)
Theorem field_attributes field enclosing state depth node warnings :
  field_to_ast stabs_type_to_ast field enclosing state depth
  = (Returned (Success node), warnings) ->
  ast.offset_bytes (ast.common node) = Some (Z.quot (offset_bits field) 8)
  /\ ast.size_bits (ast.common node) = Some (field_size_bits field)
  /\ ast.access_specifier (ast.common node)
     = stabs_field_visibility_to_access_specifier (field_visibility field)
  /\ ast.name (ast.common node)
     = (if ast.is_bitfield node && String.eqb (field_name field) " "
        then ""
        else field_name field)
  /\ (is_static field = true ->
      ast.is_bitfield node = false
      /\ ast.storage_class (ast.common node) = ast.STORAGE_CLASS_STATIC)
  /\ (ast.is_bitfield node = false ->
      starts_with (field_name field) "$vf" = true
      \/ starts_with (field_name field) "_vptr$" = true
      \/ starts_with (field_name field) "_vptr." = true ->
      ast.is_vtable_pointer (ast.common node) = true).
Proof.
  intros Hfield.
  destruct (field_to_ast_attributes _ _ _ _ _ _ _ Hfield)
    as (Hoffset & Hsize & Haccess & _ & Hstatic & Hvtable).
  assert (Hkind : ast.is_bitfield node = true <-> detect_bitfield field state = Success true).
  { split.
    - now apply (field_to_ast_data _ _ _ _ _ _ _ stabs_type_to_ast_no_bitfield Hfield).
    - intros Hdetect. unfold field_to_ast in Hfield. rewrite Hdetect in Hfield.
      apply bind_inversion in Hfield as (b & w1 & w2 & [= <- _] & Hrest & _).
      apply bind_inversion in Hrest as (raw & w3 & w4 & _ & [= <- _] & _). reflexivity. }
  assert (Hcases : (ast.is_bitfield node = true /\ detect_bitfield field state = Success true)
                   \/ (ast.is_bitfield node = false
                       /\ detect_bitfield field state = Success false)).
  { destruct (field_to_ast_name _ _ _ _ _ _ _ Hfield) as [[Hdetect _]|[Hdetect _]].
    - left. split; [now apply Hkind | exact Hdetect].
    - right. split; [|exact Hdetect].
      destruct (ast.is_bitfield node) eqn:Hbit; [|reflexivity].
      pose proof (proj1 Hkind eq_refl) as Hyes. congruence. }
  split; [exact Hoffset|]. split; [exact Hsize|]. split; [exact Haccess|].
  split; [|split].
  - destruct (field_to_ast_name _ _ _ _ _ _ _ Hfield) as [[Hdetect Hname]|[Hdetect Hname]];
      destruct Hcases as [[Hbit Hdetect']|[Hbit Hdetect']]; try congruence;
      rewrite Hbit, Hname; reflexivity.
  - intros Hs. split; [|now apply Hstatic].
    destruct Hcases as [[_ Hdetect]|[Hbit _]]; [|exact Hbit].
    unfold detect_bitfield in Hdetect. rewrite Hs in Hdetect. discriminate.
  - intros Hbit. apply Hvtable.
    destruct Hcases as [[Hyes _]|[_ Hdetect]]; [congruence | exact Hdetect].
Qed.

(** X11. A struct or union is lowered to a [StructOrUnion] node of eight
    times its size in bits, with one base class node per base class and
    one field node per field, in the order of the STABS type: each base
    class node is marked as one and has the offset and the access of its
    base class, each field node has the name (a bitfield named " " aside),
    the byte offset, the size and the access of its field. *)
Theorem struct_or_union_shape stabs_type enclosing state depth substitute force
    members node warnings :
  expanded stabs_type enclosing state depth substitute force ->
  body stabs_type = StabsStructType members \/ body stabs_type = StabsUnionType members ->
  stabs_type_to_ast stabs_type enclosing state depth substitute force
  = (Returned (Success node), warnings) ->
  exists is_struct base_nodes field_nodes function_nodes,
    ast.data node = ast.StructOrUnion is_struct base_nodes field_nodes function_nodes
    /\ (is_struct = true <-> body stabs_type = StabsStructType members)
    /\ ast.size_bits (ast.common node) = Some (wrap32 (wrap32 (size members) * 8))
    /\ Forall2
         (fun base base_node =>
            ast.is_base_class (ast.common base_node) = true
            /\ ast.offset_bytes (ast.common base_node) = Some (base_offset base)
            /\ ast.access_specifier (ast.common base_node)
               = stabs_field_visibility_to_access_specifier (base_visibility base))
         (base_classes members) base_nodes
    /\ Forall2
         (fun field field_node =>
            (ast.name (ast.common field_node) = field_name field
             \/ (field_name field = " " /\ ast.name (ast.common field_node) = ""))
            /\ ast.offset_bytes (ast.common field_node)
               = Some (Z.quot (offset_bits field) 8)
            /\ ast.size_bits (ast.common field_node) = Some (field_size_bits field)
            /\ ast.access_specifier (ast.common field_node)
               = stabs_field_visibility_to_access_specifier (field_visibility field))
         (fields members) field_nodes.
Proof.
  intros Hexpanded Hkind Hresult.
  rewrite (stabs_type_to_ast_expanded _ _ _ _ _ _ Hexpanded) in Hresult.
  unfold dispatch in Hresult.
  assert (Hshape : exists is_struct,
    (is_struct = true <-> body stabs_type = StabsStructType members)
    /\ (let* base_classes :=
          for_each
            (fun stabs_base_class =>
               let* base_class :=
                 stabs_type_to_ast (base_type stabs_base_class) (Some stabs_type) state
                   (depth + 1) true force in
               let base_class := ast.set_is_base_class true base_class in
               let base_class :=
                 ast.set_offset_bytes (base_offset stabs_base_class) base_class in
               ret (ast.set_access_specifier
                      (stabs_field_visibility_to_access_specifier
                         (base_visibility stabs_base_class))
                      (parser_flags state) base_class))
            (base_classes members) in
        let* fields :=
          for_each (fun field => field_to_ast stabs_type_to_ast field stabs_type state depth)
            (fields members) in
        let* member_functions :=
          member_functions_to_ast stabs_type_to_ast stabs_type members state depth in
        ret (ast.set_size_bits (wrap32 (wrap32 (size members) * 8))
               (ast.make
                  (ast.StructOrUnion is_struct base_classes fields member_functions))))
       = (Returned (Success node), warnings)).
  { destruct Hkind as [Hbody|Hbody]; rewrite Hbody in Hresult.
    - exists true. split; [tauto|]. unfold descriptor in Hresult.
      rewrite Hbody in Hresult. exact Hresult.
    - exists false. split; [split; [discriminate | congruence]|].
      unfold descriptor in Hresult. rewrite Hbody in Hresult. exact Hresult. }
  destruct Hshape as (is_struct & Hstruct & Hlowered).
  apply bind_inversion in Hlowered as (base_nodes & w1 & w2 & Hbases & Hlowered & _).
  apply bind_inversion in Hlowered as (field_nodes & w3 & w4 & Hfields & Hlowered & _).
  apply bind_inversion in Hlowered as (function_nodes & w5 & w6 & _ & [= <- _] & _).
  exists is_struct, base_nodes, field_nodes, function_nodes.
  split; [reflexivity|]. split; [exact Hstruct|]. split; [reflexivity|].
  split.
  - apply for_each_Forall2 in Hbases.
    eapply Forall2_impl; [exact Hbases|].
    intros base base_node (w & Hbase).
    apply bind_inversion in Hbase as (raw & w7 & w8 & _ & [= <- _] & _).
    destruct raw as [c d]. auto.
  - apply for_each_Forall2 in Hfields.
    eapply Forall2_impl; [exact Hfields|].
    intros field field_node (w & Hfield).
    destruct (field_to_ast_attributes _ _ _ _ _ _ _ Hfield)
      as (Hoffset & Hsize & Haccess & Hname & _).
    split; [|auto]. destruct Hname as [Hname|(_ & Hblank & Hname)]; auto.
Qed.

(** X12. A method is lowered to a [Function] node with a parameter list
    that has one node per parameter type, in order, the return type and
    every parameter being lowered one level deeper with both substitutions
    requested; a function type is lowered to a [Function] node without a
    parameter list. *)
Theorem method_parameters stabs_type enclosing state depth substitute force node warnings :
  expanded stabs_type enclosing state depth substitute force ->
  stabs_type_to_ast stabs_type enclosing state depth substitute force
  = (Returned (Success node), warnings) ->
  (forall return_type parameter_types,
     body stabs_type = StabsMethodType return_type parameter_types ->
     exists return_node parameter_nodes,
       ast.data node = ast.Function return_node (Some parameter_nodes) None None
       /\ (exists w,
             stabs_type_to_ast return_type enclosing state (depth + 1) true true
             = (Returned (Success return_node), w))
       /\ Forall2
            (fun parameter_type parameter_node =>
               exists w,
                 stabs_type_to_ast parameter_type enclosing state (depth + 1) true true
                 = (Returned (Success parameter_node), w))
            parameter_types parameter_nodes)
  /\ (forall return_type,
        body stabs_type = StabsFunctionType return_type ->
        exists return_node,
          ast.data node = ast.Function return_node None None None
          /\ stabs_type_to_ast return_type enclosing state (depth + 1) true force
             = (Returned (Success return_node), warnings)).
Proof.
  intros Hexpanded Hresult.
  rewrite (stabs_type_to_ast_expanded _ _ _ _ _ _ Hexpanded) in Hresult.
  unfold dispatch in Hresult.
  split.
  - intros return_type parameter_types Hbody. rewrite Hbody in Hresult.
    apply bind_inversion in Hresult as (return_node & w1 & w2 & Hreturn & Hresult & _).
    apply bind_inversion in Hresult as (parameter_nodes & w3 & w4 & Hparams & [= <- _] & _).
    exists return_node, parameter_nodes. split; [reflexivity|]. split; [eauto|].
    now apply for_each_Forall2 in Hparams.
  - intros return_type Hbody. rewrite Hbody in Hresult.
    apply bind_inversion in Hresult as (return_node & w1 & w2 & Hreturn & [= <- <-] & ->).
    exists return_node. rewrite app_nil_r. split; [reflexivity | exact Hreturn].
Qed.

(** X13. A cross reference with a body is never replaced by a reference
    to its name, not even when it has a name and the caller asks for the
    substitution: it is lowered to a [TypeName] of source
    [CROSS_REFERENCE] with its identifier and its kind, and neither the
    file handle nor the type number. *)
Theorem cross_reference_is_kept stabs_type enclosing state depth substitute force
    forward_declared identifier :
  depth <= 200 ->
  has_body stabs_type = true ->
  body stabs_type = StabsCrossReferenceType forward_declared identifier ->
  substitute_this stabs_type enclosing force = false ->
  substitute_name stabs_type state depth substitute = None
  /\ stabs_type_to_ast stabs_type enclosing state depth substitute force
     = (Returned (Success
          (ast.make (ast.TypeName ast.CROSS_REFERENCE
             {| ast.type_name := Some identifier;
                ast.referenced_file_handle := None;
                ast.stabs_type_number_file := None;
                ast.stabs_type_number_type := None;
                ast.type := Some forward_declared |}))), []).
Proof.
  intros Hdepth Hhas Hbody Hthis.
  assert (Hname : substitute_name stabs_type state depth substitute = None).
  { unfold substitute_name, descriptor. rewrite Hbody.
    destruct (name stabs_type); [|reflexivity]. cbn [negb]. now rewrite !andb_false_r. }
  split; [exact Hname|].
  rewrite stabs_type_to_ast_expanded by (repeat split; assumption).
  unfold dispatch. now rewrite Hbody.
Qed.

End LoweringExtras.

(** ** The further properties on concrete inputs *)

Import FurtherExamples.

Lemma strict_lowering_is_clean_witness :
  (stabs_type_to_ast point3 None (empty_state 1) 0 false false).2 = []
  /\ forall node warnings,
       stabs_type_to_ast point3 None (empty_state 1) 0 false false
       = (Returned (Success node), warnings) ->
       contains_error node = false.
Proof.
  apply (strict_lowering_is_clean point3 None (empty_state 1) 0 false false).
  reflexivity.
Defined.

Lemma lenient_failures_are_plain_witness :
  Forall
    (fun warning =>
       exists number,
         warning
         = "Failed to lookup STABS type by its type number ("
           ++ to_string (file number) ++ "," ++ to_string (type number) ++ ").")
    (stabs_type_to_ast volatile_dangling None (empty_state 0) 0 false false).2.
Proof.
  apply (lenient_failures_are_plain volatile_dangling None (empty_state 0) 0 false false).
  reflexivity.
Defined.

Lemma this_substitution_witness :
  stabs_type_to_ast reference_to_foo (Some foo) (empty_state 0) 1 true true
  = (Returned (Success
       (ast.make (ast.TypeName ast.THIS
          {| ast.type_name := None;
             ast.referenced_file_handle := Some 7;
             ast.stabs_type_number_file := Some 0;
             ast.stabs_type_number_type := Some 20;
             ast.type := None |}))), []).
Proof.
  apply (this_substitution reference_to_foo foo (empty_state 0) 1 true);
    [lia | reflexivity | reflexivity | reflexivity | reflexivity].
Defined.

Lemma self_reference_is_void_witness :
  stabs_type_to_ast void_type None (empty_state 0) 0 false false
  = (Returned (Success (ast.make (ast.BuiltIn VOID))), []).
Proof.
  rewrite (self_reference_is_void void_type None (empty_state 0) 0 false false
             (mkStabsType 61 (number 0 60) None false false false (StabsBuiltInType 16)));
    [reflexivity | repeat split; [lia | reflexivity..] | reflexivity].
Defined.

Lemma floating_point_builtin_is_unsigned_witness :
  stabs_type_to_ast float_type None (empty_state 0) 0 false false
  = (Returned (Success (ast.make (ast.BuiltIn UNSIGNED_32))), []).
Proof.
  destruct (floating_point_builtin_is_unsigned float_type None (empty_state 0) 0 false false
              1 4)
    as (bclass & Hresult & _ & _ & Hfour & _);
    [repeat split; [lia | reflexivity..] | reflexivity |].
  rewrite Hresult, (Hfour eq_refl). reflexivity.
Defined.

Lemma builtin_must_be_bool_witness :
  stabs_type_to_ast unknown_builtin None (empty_state 0) 0 false false
  = (Returned (Failure "Unknown built-in type!"), []).
Proof.
  rewrite (builtin_must_be_bool unknown_builtin None (empty_state 0) 0 false false 5);
    [reflexivity | repeat split; [lia | reflexivity..] | reflexivity].
Defined.

Lemma qualifiers_mark_the_node_witness :
  exists inner,
    stabs_type_to_ast bool_type None (empty_state 0) 1 false false
    = (Returned (Success inner), [])
    /\ ast.set_is_const true (ast.make (ast.BuiltIn BOOL_8)) = ast.set_is_const true inner.
Proof.
  destruct (qualifiers_mark_the_node const_bool None (empty_state 0) 0 false false
              bool_type (ast.set_is_const true (ast.make (ast.BuiltIn BOOL_8))) [])
    as [_ Hconst];
    [repeat split; [lia | reflexivity..] | vm_compute; reflexivity |].
  destruct (Hconst eq_refl) as (inner & Hinner & Hnode & _).
  exists inner. split; assumption.
Defined.

Lemma lowering_never_yields_bitfield_witness :
  stabs_type_to_ast array_of_ten None (empty_state 0) 0 false false
  = (Returned (Success (ast.make (ast.Array (ast.make (ast.BuiltIn SIGNED_32)) 10))), [])
  /\ ast.data (ast.make (ast.Array (ast.make (ast.BuiltIn SIGNED_32)) 10))
     <> ast.BitField (ast.make (ast.BuiltIn SIGNED_32)) 0.
Proof.
  assert (Hresult :
    stabs_type_to_ast array_of_ten None (empty_state 0) 0 false false
    = (Returned (Success (ast.make (ast.Array (ast.make (ast.BuiltIn SIGNED_32)) 10))), []))
    by (vm_compute; reflexivity).
  split; [exact Hresult|].
  exact (lowering_never_yields_bitfield array_of_ten None (empty_state 0) 0 false false
           _ _ Hresult (ast.make (ast.BuiltIn SIGNED_32)) 0).
Defined.

Lemma field_attributes_witness :
  exists node warnings,
    field_to_ast stabs_type_to_ast padding_bits point3 (empty_state 0) 0
    = (Returned (Success node), warnings)
    /\ ast.is_bitfield node = true
    /\ ast.name (ast.common node) = "".
Proof.
  assert (Hresult : exists node warnings,
    field_to_ast stabs_type_to_ast padding_bits point3 (empty_state 0) 0
    = (Returned (Success node), warnings)
    /\ ast.is_bitfield node = true)
    by (vm_compute; eexists _, _; split; reflexivity).
  destruct Hresult as (node & warnings & Hresult & Hbit). exists node, warnings.
  split; [exact Hresult|]. split; [exact Hbit|].
  destruct (field_attributes padding_bits point3 (empty_state 0) 0 node warnings Hresult)
    as (_ & _ & _ & Hname & _).
  rewrite Hname, Hbit. reflexivity.
Defined.

Lemma struct_or_union_shape_witness :
  exists node warnings,
    stabs_type_to_ast point3 None (empty_state 0) 0 false false
    = (Returned (Success node), warnings)
    /\ ast.size_bits (ast.common node) = Some 96
    /\ exists base_nodes field_nodes function_nodes,
         ast.data node = ast.StructOrUnion true base_nodes field_nodes function_nodes
         /\ length base_nodes = 1%nat /\ length field_nodes = 2%nat.
Proof.
  assert (Hresult : exists node warnings,
    stabs_type_to_ast point3 None (empty_state 0) 0 false false
    = (Returned (Success node), warnings)) by (vm_compute; eexists _, _; reflexivity).
  destruct Hresult as (node & warnings & Hresult). exists node, warnings.
  split; [exact Hresult|].
  destruct (struct_or_union_shape point3 None (empty_state 0) 0 false false point3_members
              node warnings)
    as (is_struct & base_nodes & field_nodes & function_nodes
        & Hdata & Hstruct & Hsize & Hbases & Hfields);
    [repeat split; [lia | reflexivity..] | left; reflexivity | exact Hresult |].
  split; [exact Hsize|].
  exists base_nodes, field_nodes, function_nodes.
  rewrite (proj2 Hstruct eq_refl) in Hdata. split; [exact Hdata|].
  apply Forall2_length in Hbases, Hfields. split; symmetry; assumption.
Defined.

Lemma method_parameters_witness :
  exists node return_node parameter_nodes,
    stabs_type_to_ast method_with_parameter None (empty_state 0) 0 false false
    = (Returned (Success node), [])
    /\ ast.data node = ast.Function return_node (Some parameter_nodes) None None
    /\ length parameter_nodes = 1%nat.
Proof.
  assert (Hresult : exists node,
    stabs_type_to_ast method_with_parameter None (empty_state 0) 0 false false
    = (Returned (Success node), [])) by (vm_compute; eexists; reflexivity).
  destruct Hresult as (node & Hresult).
  destruct (method_parameters method_with_parameter None (empty_state 0) 0 false false
              node [])
    as [Hmethod _]; [repeat split; [lia | reflexivity..] | exact Hresult |].
  destruct (Hmethod bool_type [int_type] eq_refl)
    as (return_node & parameter_nodes & Hdata & _ & Hparameters).
  exists node, return_node, parameter_nodes.
  split; [exact Hresult|]. split; [exact Hdata|].
  apply Forall2_length in Hparameters. symmetry. exact Hparameters.
Defined.

Lemma cross_reference_is_kept_witness :
  stabs_type_to_ast cross_reference None (empty_state 0) 1 true false
  = (Returned (Success
       (ast.make (ast.TypeName ast.CROSS_REFERENCE
          {| ast.type_name := Some "Bar";
             ast.referenced_file_handle := None;
             ast.stabs_type_number_file := None;
             ast.stabs_type_number_type := None;
             ast.type := Some FDT_STRUCT |}))), []).
Proof.
  apply (cross_reference_is_kept cross_reference None (empty_state 0) 1 true false
           FDT_STRUCT "Bar");
    [lia | reflexivity | reflexivity | reflexivity].
Defined.

(** ** Further properties of the reader *)

Lemma parse_bind_inversion {A B} (m : mdebug.Parse A) (k : A -> mdebug.Parse B) b reads :
  mdebug.bind m k = (inr b, reads) ->
  exists a r1 r2, m = (inr a, r1) /\ k a = (inr b, r2) /\ reads = (r1 ++ r2)%list.
Proof.
  unfold mdebug.bind. destruct m as [[e|a] r1]; [discriminate|].
  destruct (k a) as [r r2] eqn:Hk. intros [= -> <-]. eauto 6.
Qed.

Lemma get_packed_inversion {T} (decode : list byte -> Z -> T) size image offset subject t
    reads :
  mdebug.get_packed decode size image offset subject = (inr t, reads) ->
  t = decode image offset /\ reads = [(subject, offset)]
  /\ offset + size <= Z.of_nat (length image).
Proof.
  unfold mdebug.get_packed. destruct (Z.leb_spec (offset + size) (Z.of_nat (length image)));
    [|discriminate].
  intros [= <- <-]. auto.
Qed.

Lemma get_string_reads image offset s reads :
  mdebug.get_string image offset = (inr s, reads) -> reads = [].
Proof.
  unfold mdebug.get_string. destruct (mdebug.c_string_of _); [|discriminate].
  now intros [= _ <-].
Qed.

Lemma verify_inversion condition message reads :
  mdebug.verify condition message = (inr tt, reads) -> condition = true /\ reads = [].
Proof. unfold mdebug.verify. destruct condition; [|discriminate]. now intros [= <-]. Qed.

Lemma to_u64_nonnegative v : 0 <= mdebug.to_u64 v.
Proof. unfold mdebug.to_u64. apply Z.mod_pos_bound. lia. Qed.

(** What a successful [for_each] of the reader is made of. *)
Lemma parse_for_each_inversion {A B} (f : A -> mdebug.Parse B) l ys reads :
  mdebug.for_each f l = (inr ys, reads) ->
  exists traces : list (list (string * Z)),
    reads = concat traces
    /\ Forall2 (fun x yr => f x = (inr yr.1, yr.2)) l (zip ys traces)
    /\ length ys = length l /\ length traces = length l.
Proof.
  revert ys reads. induction l as [|x rest IH]; intros ys reads Heach; simpl in Heach.
  - injection Heach as <- <-. exists []. repeat split. constructor.
  - apply parse_bind_inversion in Heach as (y & r1 & r2 & Hx & Heach & ->).
    apply parse_bind_inversion in Heach as (ys' & r3 & r4 & Hrest & [= <- <-] & ->).
    destruct (IH _ _ Hrest) as (traces & -> & Hall & Hlength & Htraces).
    exists (r1 :: traces). rewrite app_nil_r. simpl.
    split; [reflexivity|]. split; [constructor; assumption|]. split; congruence.
Qed.

Section ReaderFacts.

Context `{mdebug.Declarations}.

Lemma base_path_found_app symbols more base :
  base_path_found symbols base -> base_path_found (symbols ++ more) base.
Proof.
  intros (k & previous & current & Hk & Hprevious & Hcurrent & Hrest).
  exists k, previous, current. split; [exact Hk|].
  split; [now apply lookup_app_l_Some|]. split; [now apply lookup_app_l_Some | exact Hrest].
Qed.

(** The loop over the symbols of a file: one record read per symbol, each
    within the image; the symbols are appended in order; the base path,
    once found, is kept. *)
Lemma read_symbols_spec image hdrr fd_header js :
  forall symbols base symbols' base' reads,
    mdebug.read_symbols image hdrr fd_header js symbols base
    = (inr (symbols', base'), reads) ->
    (exists new, symbols' = (symbols ++ new)%list /\ length new = length js)
    /\ length reads = length js
    /\ Forall (read_within image) reads
    /\ (base <> "" -> base' = base)
    /\ (base = "" \/ base_path_found symbols base ->
        base' = "" \/ base_path_found symbols' base').
Proof.
  induction js as [|j rest IH]; intros symbols base symbols' base' reads Hread;
    cbn [mdebug.read_symbols] in Hread.
  - injection Hread as <- <- <-.
    split; [exists []; now rewrite app_nil_r|]. repeat split; auto.
  - apply parse_bind_inversion in Hread as (sym_entry & r1 & r2 & Hentry & Hread & ->).
    apply get_packed_inversion in Hentry as (_ & -> & Hwithin).
    apply parse_bind_inversion in Hread as (string_of_symbol & r3 & r4 & Hstring & Hread & ->).
    apply get_string_reads in Hstring as ->.
    apply IH in Hread as ((new & -> & Hnew) & Hlength & Hreads & Hkept & Hbase).
    split; [|split; [|split; [|split]]].
    + eexists (_ :: new). rewrite <- app_assoc. split; [reflexivity|]. simpl. congruence.
    + simpl. congruence.
    + constructor; [|exact Hreads]. split; [apply to_u64_nonnegative | exact Hwithin].
    + intros Hset. rewrite Hkept.
      * destruct (String.eqb_spec base ""); [contradiction | reflexivity].
      * destruct (String.eqb_spec base ""); [contradiction | exact Hset].
    + intros Hbefore. apply Hbase. clear Hbase Hkept IH.
      match goal with
      | |- context [(symbols ++ [?s])%list] => set (sym := s)
      end.
      destruct (String.eqb_spec base "") as [->|Hset]; cbn [andb].
      * destruct (_ =? _) eqn:Hiss; cbn [andb]; [|now left].
        destruct (mdebug.storage_type sym =? mdebug.LABEL) eqn:Hlabel; cbn [andb];
          [|now left].
        destruct (Z.ltb_spec 2 (Z.of_nat (length (symbols ++ [sym])%list))) as [Hsize|];
          [|now left].
        rewrite length_app in Hsize |- *. cbn [length] in Hsize |- *.
        replace (length symbols + 1 - 2)%nat with (length symbols - 1)%nat by lia.
        destruct ((symbols ++ [sym])%list !! (length symbols - 1)%nat) as [previous|]
          eqn:Hprevious; [|now left].
        destruct (mdebug.storage_type previous =? mdebug.LABEL) eqn:Hprevious_label;
          [|now left].
        right. exists (length symbols - 1)%nat, previous, sym.
        split; [lia|]. split; [exact Hprevious|].
        split.
        { replace (S (length symbols - 1)) with (length symbols) by lia.
          rewrite lookup_app_r by lia. now rewrite Nat.sub_diag. }
        split; [now apply Z.eqb_eq|]. split; [now apply Z.eqb_eq | reflexivity].
      * right. destruct Hbefore as [?|Hfound]; [contradiction|].
        now apply base_path_found_app.
Qed.

(** What one round of the loop over the file descriptors yields. *)
Lemma read_file_descriptor_spec image hdrr i fd reads :
  mdebug.read_file_descriptor image hdrr i = (inr fd, reads) ->
  mdebug.header_ fd = mdebug.FileDescriptor_at image (file_descriptor_offset hdrr i)
  /\ mdebug.f_big_endian (mdebug.header_ fd) = 0
  /\ length (mdebug.symbols fd) = Z.to_nat (mdebug.symbol_count (mdebug.header_ fd))
  /\ length reads = S (length (mdebug.symbols fd))
  /\ Forall (read_within image) reads
  /\ (mdebug.base_path fd = "" \/ base_path_found (mdebug.symbols fd) (mdebug.base_path fd))
  /\ (mdebug.base_path fd = ""
      -> mdebug.full_path fd = mdebug.map_string mdebug.slashes (mdebug.raw_path fd)).
Proof.
  intros Hread. unfold mdebug.read_file_descriptor in Hread.
  apply parse_bind_inversion in Hread as (fd_header & r1 & r2 & Hheader & Hread & ->).
  apply get_packed_inversion in Hheader as (-> & -> & Hwithin).
  apply parse_bind_inversion in Hread as ([] & r3 & r4 & Hverify & Hread & ->).
  apply verify_inversion in Hverify as (Hlittle & ->).
  apply parse_bind_inversion in Hread as (raw & r5 & r6 & Hraw & Hread & ->).
  apply get_string_reads in Hraw as ->.
  apply parse_bind_inversion in Hread as ([symbols base] & r7 & r8 & Hsymbols & Hread & ->).
  injection Hread as <- <-.
  apply read_symbols_spec in Hsymbols as ((new & -> & Hnew) & Hlength & Hreads & _ & Hbase).
  cbn [mdebug.header_ mdebug.symbols mdebug.base_path mdebug.full_path mdebug.raw_path].
  split; [reflexivity|]. split; [now apply Z.eqb_eq|].
  split; [cbn [app]; now rewrite Hnew, length_seqZ|].
  split; [cbn [app length]; rewrite app_nil_r; cbn [app] in *; congruence|].
  split.
  { cbn [app]. rewrite app_nil_r. constructor; [|exact Hreads].
    split; [apply to_u64_nonnegative | exact Hwithin]. }
  split; [apply Hbase; now left|].
  intros ->.
  replace (mdebug.map_string mdebug.slashes "") with "" by reflexivity.
  reflexivity.
Qed.

End ReaderFacts.

Section ReaderExtras.

Context `{mdebug.Declarations}.

(** X14. A symbol table that [parse_symbol_table] returns holds the
    symbolic header found at the offset of the section, with the magic
    0x7009, and the offsets of the three tables copied from it; it has one
    file for each index below [file_descriptor_count], in order (and none
    for a count that is not positive); each file holds the file descriptor
    decoded at [file_descriptors_offset + i * 0x48], which is little
    endian, and as many symbols as its [symbol_count] says. *)
Theorem symbol_table_shape image file_offset table reads :
  mdebug.parse_symbol_table image file_offset = (inr table, reads) ->
  let hdrr := mdebug.SymbolicHeader_at image file_offset in
  mdebug.header table = hdrr
  /\ mdebug.magic hdrr = 0x7009
  /\ mdebug.procedure_descriptor_table_offset table = mdebug.procedure_descriptors_offset hdrr
  /\ mdebug.local_symbol_table_offset table = mdebug.local_symbols_offset hdrr
  /\ mdebug.file_descriptor_table_offset table = mdebug.file_descriptors_offset hdrr
  /\ length (mdebug.files table) = Z.to_nat (mdebug.file_descriptor_count hdrr)
  /\ Forall2
       (fun i fd =>
          mdebug.header_ fd = mdebug.FileDescriptor_at image (file_descriptor_offset hdrr i)
          /\ mdebug.f_big_endian (mdebug.header_ fd) = 0
          /\ length (mdebug.symbols fd)
             = Z.to_nat (mdebug.symbol_count (mdebug.header_ fd)))
       (seqZ 0 (mdebug.file_descriptor_count hdrr)) (mdebug.files table).
Proof.
  intros Hparse hdrr. unfold mdebug.parse_symbol_table in Hparse.
  apply parse_bind_inversion in Hparse as (header & r1 & r2 & Hheader & Hparse & ->).
  apply get_packed_inversion in Hheader as (-> & -> & Hwithin). fold hdrr in Hparse.
  apply parse_bind_inversion in Hparse as ([] & r3 & r4 & Hverify & Hparse & ->).
  apply verify_inversion in Hverify as (Hmagic & ->).
  apply parse_bind_inversion in Hparse as (files & r5 & r6 & Hfiles & [= <- <-] & ->).
  apply parse_for_each_inversion in Hfiles as (traces & -> & Hall & Hlength & Htraces).
  cbn [mdebug.header mdebug.files mdebug.procedure_descriptor_table_offset
       mdebug.local_symbol_table_offset mdebug.file_descriptor_table_offset].
  split; [reflexivity|]. split; [now apply Z.eqb_eq|]. do 3 (split; [reflexivity|]).
  split; [now rewrite Hlength, length_seqZ|].
  apply Forall2_same_length_lookup_2; [now rewrite Hlength|].
  intros k i fd Hi Hfd.
  destruct (lookup_lt_is_Some_2 traces k) as [trace Htrace].
  { rewrite Htraces. now apply lookup_lt_is_Some_1; eauto. }
  assert (Hpair : zip files traces !! k = Some (fd, trace)).
  { rewrite lookup_zip_with, Hfd. simpl. now rewrite Htrace. }
  pose proof (Forall2_lookup_lr _ _ _ _ _ _ Hall Hi Hpair) as Hread.
  cbn [fst snd] in Hread. apply read_file_descriptor_spec in Hread.
  destruct Hread as (Hdecoded & Hlittle & Hcount & _). auto.
Qed.

(** X15. The base path of a file is empty, or it is the string of a
    symbol of the file that is a label, that is not the first symbol and
    that is directly followed by another label; and when it is empty the
    full path is the raw path, with every backslash turned into a
    slash. *)
Theorem base_path_is_a_label image file_offset table reads fd :
  mdebug.parse_symbol_table image file_offset = (inr table, reads) ->
  In fd (mdebug.files table) ->
  (mdebug.base_path fd <> "" -> base_path_found (mdebug.symbols fd) (mdebug.base_path fd))
  /\ (mdebug.base_path fd = ""
      -> mdebug.full_path fd = mdebug.map_string mdebug.slashes (mdebug.raw_path fd)).
Proof.
  intros Hparse Hin. unfold mdebug.parse_symbol_table in Hparse.
  apply parse_bind_inversion in Hparse as (header & r1 & r2 & _ & Hparse & _).
  apply parse_bind_inversion in Hparse as ([] & r3 & r4 & _ & Hparse & _).
  apply parse_bind_inversion in Hparse as (files & r5 & r6 & Hfiles & [= <- _] & _).
  cbn [mdebug.files] in Hin.
  apply parse_for_each_inversion in Hfiles as (traces & _ & Hall & Hlength & Htraces).
  apply list_elem_of_In, list_elem_of_lookup in Hin as [k Hfd].
  destruct (lookup_lt_is_Some_2 traces k) as [trace Htrace].
  { rewrite Htraces, <- Hlength. now apply lookup_lt_is_Some_1; eauto. }
  assert (Hpair : zip files traces !! k = Some (fd, trace)).
  { rewrite lookup_zip_with, Hfd. simpl. now rewrite Htrace. }
  destruct (Forall2_lookup_r _ _ _ _ _ Hall Hpair) as (i & _ & Hread).
  cbn [fst snd] in Hread. apply read_file_descriptor_spec in Hread.
  destruct Hread as (_ & _ & _ & _ & _ & Hbase & Hfull).
  split; [|exact Hfull]. intros Hset. destruct Hbase; [contradiction | assumption].
Qed.

(** X16. On the way to a symbol table, [parse_symbol_table] reads the
    symbolic header, one file descriptor per file and one local symbol per
    symbol, and nothing else; each of these records lies within the
    image. *)
Theorem records_lie_within_the_image image file_offset table reads :
  0 <= file_offset ->
  mdebug.parse_symbol_table image file_offset = (inr table, reads) ->
  Forall (read_within image) reads
  /\ length reads
     = (1 + length (mdebug.files table)
        + list_sum (map (fun fd => length (mdebug.symbols fd)) (mdebug.files table)))%nat.
Proof.
  intros Hoffset Hparse. unfold mdebug.parse_symbol_table in Hparse.
  apply parse_bind_inversion in Hparse as (header & r1 & r2 & Hheader & Hparse & ->).
  apply get_packed_inversion in Hheader as (-> & -> & Hwithin).
  apply parse_bind_inversion in Hparse as ([] & r3 & r4 & Hverify & Hparse & ->).
  apply verify_inversion in Hverify as (_ & ->).
  apply parse_bind_inversion in Hparse as (files & r5 & r6 & Hfiles & [= <- <-] & ->).
  cbn [mdebug.files]. rewrite app_nil_r. cbn [app].
  apply parse_for_each_inversion in Hfiles as (traces & -> & Hall & Hlength & Htraces).
  assert (Heach : Forall2
    (fun fd trace =>
       Forall (read_within image) trace /\ length trace = S (length (mdebug.symbols fd)))
    files traces).
  { apply Forall2_same_length_lookup_2; [congruence|].
    intros k fd trace Hfd Htrace.
    assert (Hpair : zip files traces !! k = Some (fd, trace)).
    { rewrite lookup_zip_with, Hfd. simpl. now rewrite Htrace. }
    destruct (Forall2_lookup_r _ _ _ _ _ Hall Hpair) as (i & _ & Hread).
    cbn [fst snd] in Hread. apply read_file_descriptor_spec in Hread.
    destruct Hread as (_ & _ & _ & Htrace_length & Htrace_within & _). auto. }
  clear Hall Hlength Htraces. split.
  - constructor; [split; [exact Hoffset | exact Hwithin]|].
    induction Heach as [|fd trace files traces [Hin _] _ IH]; [constructor|].
    simpl. apply Forall_app. auto.
  - assert (Hsum : length (concat traces)
                   = (length files
                      + list_sum (map (fun fd => length (mdebug.symbols fd)) files))%nat).
    { induction Heach as [|fd trace files traces [_ Hlen] _ IH]; [reflexivity|].
      change (length (trace ++ concat traces)
              = (S (length files)
                 + (length (mdebug.symbols fd)
                    + list_sum (map (fun fd => length (mdebug.symbols fd)) files)))%nat).
      rewrite length_app, Hlen, IH. lia. }
    cbn [length]. rewrite Hsum. lia.
Qed.

End ReaderExtras.

(** The section with one file, read. *)
Example one_file_section_is_read :
  exists table reads,
    mdebug.parse_symbol_table one_file_section 0 = (inr table, reads)
    /\ map mdebug.raw_path (mdebug.files table) = ["a.c"]
    /\ map mdebug.base_path (mdebug.files table) = ["/src"]
    /\ map mdebug.full_path (mdebug.files table) = ["/src/a.c"]
    /\ map mdebug.detected_language (mdebug.files table) = [mdebug.C]
    /\ map (fun fd => map mdebug.string_ (mdebug.symbols fd)) (mdebug.files table)
       = [[""; "/src"; "a.c"]]
    /\ reads = [ ("MIPS debug section", 0); ("file descriptor", 96);
                 ("local symbol", 168); ("local symbol", 180); ("local symbol", 192) ].
Proof. eexists _, _. vm_compute. repeat split; reflexivity. Qed.

Lemma symbol_table_shape_witness :
  exists table reads,
    mdebug.parse_symbol_table one_file_section 0 = (inr table, reads)
    /\ length (mdebug.files table) = 1%nat
    /\ mdebug.magic (mdebug.header table) = 0x7009.
Proof.
  assert (Hparse : exists table reads,
    mdebug.parse_symbol_table one_file_section 0 = (inr table, reads))
    by (eexists _, _; vm_compute; reflexivity).
  destruct Hparse as (table & reads & Hparse). exists table, reads. split; [exact Hparse|].
  destruct (symbol_table_shape one_file_section 0 table reads Hparse)
    as (Hheader & Hmagic & _ & _ & _ & Hlength & _).
  split; [rewrite Hlength; vm_compute; reflexivity | now rewrite Hheader].
Defined.

Lemma base_path_is_a_label_witness :
  exists table reads fd,
    mdebug.parse_symbol_table one_file_section 0 = (inr table, reads)
    /\ In fd (mdebug.files table)
    /\ base_path_found (mdebug.symbols fd) (mdebug.base_path fd).
Proof.
  assert (Hparse : exists table reads fd,
    mdebug.parse_symbol_table one_file_section 0 = (inr table, reads)
    /\ mdebug.files table = [fd] /\ mdebug.base_path fd = "/src").
  { eexists _, _, _. vm_compute. repeat split; reflexivity. }
  destruct Hparse as (table & reads & fd & Hparse & Hfiles & Hbase).
  exists table, reads, fd. split; [exact Hparse|].
  assert (Hin : In fd (mdebug.files table)) by (rewrite Hfiles; now left).
  split; [exact Hin|].
  apply (base_path_is_a_label one_file_section 0 table reads fd Hparse Hin).
  rewrite Hbase. discriminate.
Defined.

Lemma records_lie_within_the_image_witness :
  exists table reads,
    mdebug.parse_symbol_table one_file_section 0 = (inr table, reads)
    /\ Forall (read_within one_file_section) reads
    /\ length reads = 5%nat.
Proof.
  assert (Hparse : exists table reads fd,
    mdebug.parse_symbol_table one_file_section 0 = (inr table, reads)
    /\ mdebug.files table = [fd] /\ length (mdebug.symbols fd) = 3%nat).
  { eexists _, _, _. vm_compute. repeat split; reflexivity. }
  destruct Hparse as (table & reads & fd & Hparse & Hfiles & Hsymbols).
  exists table, reads. split; [exact Hparse|].
  destruct (records_lie_within_the_image one_file_section 0 table reads) as [Hwithin Hlength];
    [lia | exact Hparse |].
  split; [exact Hwithin|]. rewrite Hlength, Hfiles. simpl. rewrite Hsymbols. reflexivity.
Defined.

(** ** Properties of the strings and paths of [util.cpp] *)

Lemma byte_eqb_x00 (b : byte) : Byte.eqb b x00 = true <-> b = x00.
Proof. split; [apply Byte.byte_dec_bl | intros ->; reflexivity]. Qed.

Lemma occurs_app c a b : util.occurs c (a ++ b) = util.occurs c a || util.occurs c b.
Proof.
  induction a as [|d a IH]; [reflexivity|]. simpl. now rewrite IH, orb_assoc.
Qed.

Lemma ascii_of_byte_nul (b : byte) :
  Ascii.eqb (ascii_of_byte b) "000"%char = Byte.eqb b x00.
Proof. destruct b; reflexivity. Qed.

Lemma byte_of_ascii_nul (a : ascii) :
  Byte.eqb (byte_of_ascii a) x00 = Ascii.eqb a "000"%char.
Proof. rewrite <- (ascii_of_byte_of_ascii a) at 2. now rewrite ascii_of_byte_nul. Qed.

Lemma list_byte_of_string_cons (a : ascii) (s : string) :
  list_byte_of_string (String a s) = byte_of_ascii a :: list_byte_of_string s.
Proof. reflexivity. Qed.

(** The C string at the head of a byte sequence that holds a NUL. *)
Lemma c_string_at_spec (bytes : list byte) (s : string) :
  existsb (fun c => Byte.eqb c x00) bytes = true /\ util.c_string_at bytes = s
  <-> util.occurs "000"%char s = false
      /\ exists rest, bytes = (list_byte_of_string s ++ x00 :: rest)%list.
Proof.
  split.
  - revert s. induction bytes as [|b bytes IH]; intros s [Hnul Hs]; [discriminate|].
    cbn [util.c_string_at existsb] in *.
    destruct (Byte.eqb b x00) eqn:Hb.
    + apply byte_eqb_x00 in Hb as ->. subst s. split; [reflexivity|]. now exists bytes.
    + cbn [orb] in Hnul. subst s.
      destruct (IH _ (conj Hnul eq_refl)) as [Hfree [rest Hrest]].
      split.
      * cbn [util.occurs]. now rewrite ascii_of_byte_nul, Hb.
      * exists rest. rewrite list_byte_of_string_cons. cbn [app].
        now rewrite byte_of_ascii_of_byte, <- Hrest.
  - revert bytes. induction s as [|a s IH]; intros bytes [Hfree [rest ->]].
    + split; reflexivity.
    + cbn [util.occurs] in Hfree. apply orb_false_elim in Hfree as [Ha Hfree].
      rewrite list_byte_of_string_cons. cbn [app util.c_string_at existsb].
      rewrite byte_of_ascii_nul, Ha. cbn [orb].
      destruct (IH _ (conj Hfree (ex_intro _ rest eq_refl))) as [Hnul Hs].
      split; [exact Hnul|]. now rewrite ascii_of_byte_of_ascii, Hs.
Qed.

Lemma c_string_of_c_string_at (bytes : list byte) :
  mdebug.c_string_of bytes
  = if existsb (fun c => Byte.eqb c x00) bytes then Some (util.c_string_at bytes) else None.
Proof.
  induction bytes as [|b bytes IH]; [reflexivity|].
  cbn [mdebug.c_string_of util.c_string_at existsb].
  destruct (Byte.eqb b x00); [reflexivity|]. cbn [orb]. rewrite IH.
  now destruct (existsb _ bytes).
Qed.

(** X17. For an offset within the buffer or at its end, [get_string]
    returns the characters from the offset up to the first NUL at or after
    it, and fails exactly when no NUL is left in the buffer; so reading at
    the place where a string without NUL was written, followed by a NUL,
    gives the string back. There the reader of the symbol table, whose
    [get_string] follows the specification, reads the same string and
    fails in the same cases. *)
Theorem get_string_reads_to_the_terminator (bytes : list byte) (offset : Z) :
  0 <= offset <= Z.of_nat (length bytes) ->
  (forall s,
     util.get_string bytes offset = util.Done (Success s)
     <-> util.occurs "000"%char s = false
         /\ exists rest,
              drop (Z.to_nat offset) bytes = (list_byte_of_string s ++ x00 :: rest)%list)
  /\ (util.get_string bytes offset
      = util.Done (Failure "Unexpected end of buffer while reading string.")
      <-> Forall (fun b => b <> x00) (drop (Z.to_nat offset) bytes))
  /\ (exists result, util.get_string bytes offset = util.Done result)
  /\ mdebug.get_string bytes offset
     = match util.get_string bytes offset with
       | util.Done (Success s) => (inr s, [])
       | _ => (inl (mdebug.UnterminatedString offset), [])
       end.
Proof.
  intros [Hlow Hhigh].
  unfold util.get_string, mdebug.get_string. rewrite c_string_of_c_string_at.
  destruct (Z.leb_spec 0 offset); [|lia].
  destruct (Z.leb_spec offset (Z.of_nat (length bytes))); [|lia].
  cbn [andb].
  set (rest := drop (Z.to_nat offset) bytes).
  split; [|split; [|split]].
  - intros s. rewrite <- c_string_at_spec.
    destruct (existsb _ rest); split.
    + intros [= <-]. auto.
    + intros [_ ->]. reflexivity.
    + discriminate.
    + intros [Hnul _]. discriminate.
  - destruct (existsb _ rest) eqn:Hnul; split.
    + discriminate.
    + intros Hall. apply existsb_exists in Hnul as (b & Hin & Hb).
      apply byte_eqb_x00 in Hb. rewrite Forall_forall in Hall.
      apply list_elem_of_In in Hin. now apply Hall in Hin.
    + intros _. apply Forall_forall. intros b Hin ->.
      apply list_elem_of_In in Hin.
      assert (existsb (fun c => Byte.eqb c x00) rest = true)
        by (apply existsb_exists; exists x00; auto).
      congruence.
    + reflexivity.
  - eauto.
  - now destruct (existsb _ rest).
Qed.

Lemma get_string_reads_to_the_terminator_witness :
  util.get_string (string_bytes "ab" ++ string_bytes "cd") 3 = util.Done (Success "cd").
Proof.
  destruct (get_string_reads_to_the_terminator (string_bytes "ab" ++ string_bytes "cd") 3)
    as (Hstring & _); [split; vm_compute; discriminate|].
  apply Hstring. split; [reflexivity|]. exists []. reflexivity.
Defined.

(** X18. [guess_is_windows_path] holds exactly for the paths whose first
    separator is a backslash: a path without separator is not taken for a
    Windows path, and what follows the first separator does not count. *)
Theorem first_separator_decides (path : string) :
  util.guess_is_windows_path path = true
  <-> exists before after,
        path = before ++ String "\"%char after
        /\ util.occurs "/"%char before = false
        /\ util.occurs "\"%char before = false
        /\ util.occurs "000"%char before = false.
Proof.
  induction path as [|c path IH]; cbn [util.guess_is_windows_path].
  - split; [discriminate|]. intros (before & after & Hpath & _).
    destruct before; discriminate.
  - unfold util.is_nul.
    destruct (Ascii.eqb_spec c "000"%char) as [->|Hnul].
    { split; [discriminate|]. intros ([|d before] & after & Hpath & _ & _ & Hfree).
      - discriminate.
      - injection Hpath as <- _. discriminate. }
    destruct (Ascii.eqb_spec c "\"%char) as [->|Hback].
    { split; [|reflexivity]. intros _. exists "", path. auto. }
    destruct (Ascii.eqb_spec c "/"%char) as [->|Hforward].
    { split; [discriminate|]. intros ([|d before] & after & Hpath & Hfree & _).
      - discriminate.
      - injection Hpath as <- _. discriminate. }
    rewrite IH. split.
    + intros (before & after & -> & Hforward' & Hback' & Hnul').
      exists (String c before), after. cbn [String.append util.occurs].
      rewrite Hforward', Hback', Hnul'.
      repeat split; apply orb_false_intro; try reflexivity; now apply Ascii.eqb_neq.
    + intros ([|d before] & after & Hpath & Hforward' & Hback' & Hnul').
      * injection Hpath as -> _. contradiction.
      * injection Hpath as <- ->. cbn [util.occurs] in *.
        apply orb_false_elim in Hforward' as [_ ?], Hback' as [_ ?], Hnul' as [_ ?].
        exists before, after. auto.
Qed.

Lemma find_last_of_from_app a b c i found :
  util.find_last_of_from (a ++ b) c i found
  = util.find_last_of_from b c (i + Z.of_nat (String.length a))
      (util.find_last_of_from a c i found).
Proof.
  revert i found. induction a as [|d a IH]; intros i found; simpl.
  - f_equal. lia.
  - rewrite IH. f_equal. lia.
Qed.

Lemma find_last_of_from_absent s c i found :
  util.occurs c s = false -> util.find_last_of_from s c i found = found.
Proof.
  revert i found. induction s as [|d s IH]; intros i found Hfree; [reflexivity|].
  cbn [util.occurs] in Hfree. apply orb_false_elim in Hfree as [Hd Hfree].
  cbn [util.find_last_of_from]. rewrite Hd. now apply IH.
Qed.

Lemma find_last_of_from_range s c i found :
  util.find_last_of_from s c i found = found
  \/ i <= util.find_last_of_from s c i found < i + Z.of_nat (String.length s).
Proof.
  revert i found. induction s as [|d s IH]; intros i found; [now left|].
  cbn [util.find_last_of_from String.length].
  destruct (IH (i + 1) (if Ascii.eqb d c then i else found)) as [Hkept|Hrange].
  - rewrite Hkept. destruct (Ascii.eqb d c); [right; lia | now left].
  - right. lia.
Qed.

Lemma append_cons (c : ascii) (a b : string) : String c a ++ b = String c (a ++ b).
Proof. reflexivity. Qed.

Lemma advance_app (a b : string) : util.advance (String.length a) (a ++ b) = b.
Proof. induction a as [|d a IH]; [now destruct b|]. exact IH. Qed.

Lemma length_append (a b : string) :
  String.length (a ++ b) = (String.length a + String.length b)%nat.
Proof. induction a as [|d a IH]; [reflexivity|]. simpl. now rewrite IH. Qed.

(** A path has no separator, or it ends after its last separator with a
    component that has none. *)
Lemma last_separator (path : string) :
  (util.occurs "/"%char path = false /\ util.occurs "\"%char path = false)
  \/ exists dir sep file,
       path = dir ++ String sep file /\ util.is_separator sep = true
       /\ util.occurs "/"%char file = false /\ util.occurs "\"%char file = false.
Proof.
  induction path as [|c path IH]; [now left|].
  destruct IH as [[Hforward Hback]|(dir & sep & file & -> & Hsep & Hfree)].
  - destruct (util.is_separator c) eqn:Hc.
    + right. exists "", c, path. auto.
    + left. unfold util.is_separator in Hc. apply orb_false_elim in Hc as [? ?].
      cbn [util.occurs]. split; apply orb_false_intro; assumption.
  - right. exists (String c dir), sep, file. auto.
Qed.

Lemma extract_file_name_plain (path : string) :
  util.occurs "/"%char path = false -> util.occurs "\"%char path = false ->
  util.extract_file_name path = path.
Proof.
  intros Hforward Hback. unfold util.extract_file_name, util.find_last_of.
  rewrite !find_last_of_from_absent by assumption.
  rewrite Z.eqb_refl. now rewrite andb_false_r.
Qed.

Lemma extract_file_name_component (dir file : string) (sep : ascii) :
  Z.of_nat (String.length (dir ++ String sep file)) < util.npos ->
  util.is_separator sep = true ->
  util.occurs "/"%char file = false -> util.occurs "\"%char file = false ->
  util.extract_file_name (dir ++ String sep file)
  = if String.eqb file "" then dir ++ String sep file else file.
Proof.
  intros Hlength Hsep Hforward Hback.
  rewrite length_append in Hlength. cbn [String.length] in Hlength.
  assert (Hnpos : util.npos = 2 ^ 64 - 1) by reflexivity.
  assert (Hpos :
    (if util.find_last_of (dir ++ String sep file) "/"%char =? util.npos
     then util.find_last_of (dir ++ String sep file) "\"%char
     else if util.find_last_of (dir ++ String sep file) "\"%char =? util.npos
          then util.find_last_of (dir ++ String sep file) "/"%char
          else Z.max (util.find_last_of (dir ++ String sep file) "/"%char)
                 (util.find_last_of (dir ++ String sep file) "\"%char))
    = Z.of_nat (String.length dir)).
  { unfold util.find_last_of. rewrite !find_last_of_from_app.
    cbn [util.find_last_of_from].
    rewrite !(find_last_of_from_absent file "/"%char) by assumption.
    rewrite !(find_last_of_from_absent file "\"%char) by assumption.
    pose proof (find_last_of_from_range dir "/"%char 0 util.npos) as Hf.
    pose proof (find_last_of_from_range dir "\"%char 0 util.npos) as Hb.
    unfold util.is_separator in Hsep.
    destruct (Ascii.eqb_spec sep "/"%char) as [->|Hnot].
    - change (Ascii.eqb "/" "\") with false. cbv iota.
      destruct (Z.eqb_spec (0 + Z.of_nat (String.length dir)) util.npos); [lia|].
      destruct (Z.eqb_spec (util.find_last_of_from dir "\"%char 0 util.npos) util.npos);
        [lia|].
      lia.
    - cbn [orb] in Hsep. apply Ascii.eqb_eq in Hsep as ->.
      change (Ascii.eqb "\" "/") with false. change (Ascii.eqb "\" "\") with true.
      cbv iota.
      destruct (Z.eqb_spec (util.find_last_of_from dir "/"%char 0 util.npos) util.npos);
        [lia|].
      destruct (Z.eqb_spec (0 + Z.of_nat (String.length dir)) util.npos); [lia|].
      lia. }
  unfold util.extract_file_name. rewrite Hpos, length_append. cbn [String.length].
  rewrite Z.mod_small by lia.
  destruct (Z.eqb_spec (Z.of_nat (String.length dir)) util.npos); [lia|].
  rewrite andb_true_r.
  destruct file as [|d file].
  - cbn [String.length String.eqb].
    match goal with
    | |- context [Z.eqb ?a ?b] => destruct (Z.eqb_spec a b); [reflexivity | lia]
    end.
  - cbn [String.length String.eqb].
    match goal with
    | |- context [Z.eqb ?a ?b] => destruct (Z.eqb_spec a b); [lia|]
    end.
    cbn [negb]. unfold util.substr.
    replace (Z.to_nat (Z.of_nat (String.length dir) + 1))
      with (String.length (dir ++ String sep "")).
    + replace (dir ++ String sep (String d file))
        with ((dir ++ String sep "") ++ String d file).
      * apply advance_app.
      * clear. induction dir as [|e dir IH]; [reflexivity|].
        rewrite !append_cons. now f_equal.
    + rewrite length_append. cbn [String.length]. lia.
Qed.

(** X19. [extract_file_name] returns what follows the last separator,
    slash or backslash, of the path. A path without separator, and a path
    that ends with a separator, are returned as they are. Applying it
    twice is applying it once. *)
Theorem file_name_is_the_last_component (path : string) :
  Z.of_nat (String.length path) < util.npos ->
  (util.occurs "/"%char path = false -> util.occurs "\"%char path = false ->
   util.extract_file_name path = path)
  /\ (forall dir sep file,
        path = dir ++ String sep file ->
        util.is_separator sep = true ->
        util.occurs "/"%char file = false -> util.occurs "\"%char file = false ->
        util.extract_file_name path = if String.eqb file "" then path else file)
  /\ util.extract_file_name (util.extract_file_name path) = util.extract_file_name path.
Proof.
  intros Hlength. split; [apply extract_file_name_plain|]. split.
  - intros dir sep file -> Hsep Hforward Hback. now apply extract_file_name_component.
  - destruct (last_separator path) as [[Hforward Hback]|(dir & sep & file & -> & Hsep & Hfree)].
    + rewrite (extract_file_name_plain path Hforward Hback).
      now apply extract_file_name_plain.
    + destruct Hfree as [Hforward Hback].
      rewrite (extract_file_name_component dir file sep Hlength Hsep Hforward Hback).
      destruct file as [|d file]; cbn [String.eqb].
      * now rewrite (extract_file_name_component dir "" sep Hlength Hsep Hforward Hback).
      * now apply extract_file_name_plain.
Qed.

Lemma front_advance (n : nat) (s : string) : front (util.advance n s) = mdebug.char_at s n.
Proof.
  revert s. induction n as [|n IH]; intros [|c s]; try reflexivity.
  cbn [util.advance]. rewrite IH. reflexivity.
Qed.

Lemma length_skip_separators (s : string) :
  (String.length (util.skip_separators s) <= String.length s)%nat.
Proof.
  induction s as [|c s IH]; [reflexivity|]. cbn [util.skip_separators].
  destruct (util.is_separator c); cbn [String.length]; lia.
Qed.

Lemma append_to_back_snoc (before : list string) (part : string) (c : ascii) :
  util.append_to_back (before ++ [part]) c
  = Some (before ++ [(part ++ String c "")%string])%list.
Proof.
  induction before as [|p before IH]; [reflexivity|].
  cbn [app util.append_to_back]. rewrite IH.
  destruct (before ++ [part])%list eqn:Hempty; [now destruct before|]. reflexivity.
Qed.

(** The loop that splits the path never takes [back()] of an empty
    vector, ends within [fuel] rounds, and keeps what holds of the empty
    part and is preserved by adding a character that is no separator. *)
Lemma split_parts_spec (P : string -> Prop) :
  P "" ->
  (forall part c,
     P part -> util.is_separator c = false -> util.is_nul c = false ->
     P (part ++ String c "")) ->
  forall fuel input parts,
    (String.length input < fuel)%nat ->
    parts <> [] \/ util.is_separator (front input) = true \/ util.is_nul (front input) = true ->
    Forall P parts ->
    exists parts', util.split_parts fuel input parts = util.Done parts' /\ Forall P parts'.
Proof.
  intros Hempty Hadd. induction fuel as [|fuel IH]; intros input parts Hfuel Hback Hparts;
    [lia|].
  cbn [util.split_parts]. destruct input as [|c rest]; [eauto|].
  cbn [front String.length] in *.
  destruct (util.is_nul c) eqn:Hnul; [eauto|].
  destruct (util.is_separator c) eqn:Hsep.
  - apply IH.
    + cbn [util.skip_separators]. rewrite Hsep.
      pose proof (length_skip_separators rest). lia.
    + left. now destruct parts.
    + apply Forall_app. split; [exact Hparts | now constructor].
  - destruct Hback as [Hback|[?|?]]; [|discriminate..].
    destruct parts as [|p parts _] using rev_ind; [contradiction|].
    rewrite append_to_back_snoc. apply IH.
    + lia.
    + left. now destruct parts.
    + apply Forall_app in Hparts as [Hfront Hlast]. apply Forall_app.
      split; [exact Hfront|]. constructor; [|constructor].
      apply Hadd; [now inversion Hlast | assumption..].
Qed.

Lemma dots_resolved_take (parts : list string) (n : nat) :
  util.dots_resolved parts -> util.dots_resolved (take n parts).
Proof.
  intros [Hdot Hup]. split; [now apply Forall_take|].
  intros k Hk. apply lookup_take_Some in Hk as [Hk Hn].
  apply lookup_take_Some. split; [now apply Hup | lia].
Qed.

Lemma dots_resolved_snoc (parts : list string) (part : string) :
  util.dots_resolved parts ->
  part <> "." ->
  (part = ".." -> forall k, length parts = S k -> parts !! k = Some "..") ->
  util.dots_resolved (parts ++ [part]).
Proof.
  intros [Hdot Hup] Hpart Hprevious. split.
  - apply Forall_app. split; [exact Hdot | now constructor].
  - intros k Hk. apply lookup_snoc_Some in Hk as [[Hlength Hk]|[Hlength ->]].
    + rewrite lookup_app_l by lia. now apply Hup.
    + rewrite lookup_app_l by lia. now apply Hprevious.
Qed.

Lemma take_delete (parts : list string) (n m : nat) :
  (n <= m)%nat -> take n (delete m parts) = take n parts.
Proof.
  intros Hn. rewrite delete_take_drop, take_app.
  destruct (Nat.le_gt_cases (length parts) m) as [Hlong|Hshort].
  - rewrite (take_ge parts m) by lia. rewrite drop_ge by lia.
    now rewrite take_nil, app_nil_r.
  - rewrite length_take_le by lia. replace (n - m)%nat with 0%nat by lia.
    rewrite take_0, app_nil_r, take_take. f_equal. lia.
Qed.

(** The loop that removes the dots stays within the vector, ends within
    [fuel] rounds, keeps what holds of every part, and leaves no "." and no
    ".." behind another part. *)
Lemma remove_dot_parts_spec (P : string -> Prop) :
  forall fuel parts (n : nat),
    (n <= length parts)%nat ->
    (length parts - n < fuel)%nat ->
    Forall P parts ->
    util.dots_resolved (take n parts) ->
    exists parts',
      util.remove_dot_parts fuel parts (Z.of_nat n) = util.Done parts'
      /\ Forall P parts' /\ util.dots_resolved parts'.
Proof.
  induction fuel as [|fuel IH]; intros parts n Hn Hfuel Hparts Hresolved; [lia|].
  cbn [util.remove_dot_parts].
  destruct (Z.ltb_spec (Z.of_nat n) (Z.of_nat (length parts))) as [Hin|Hout].
  - assert (Hlt : (n < length parts)%nat) by lia.
    destruct (lookup_lt_is_Some_2 parts n Hlt) as [part Hpart].
    unfold util.at_index at 1.
    destruct (Z.ltb_spec (Z.of_nat n) 0) as [|_]; [lia|].
    rewrite Nat2Z.id, Hpart.
    assert (Herase : util.erase parts (Z.of_nat n) = Some (delete n parts)).
    { unfold util.erase. rewrite Nat2Z.id.
      destruct (Z.leb_spec 0 (Z.of_nat n)); [|lia].
      destruct (Z.ltb_spec (Z.of_nat n) (Z.of_nat (length parts))); [reflexivity | lia]. }
    assert (Hdeleted : length (delete n parts) = (length parts - 1)%nat)
      by (apply length_delete; eauto).
    assert (Hnext : util.dots_resolved (take n parts) -> part <> "." ->
                    (part = ".." ->
                     forall k, n = S k -> parts !! k = Some "..") ->
                    exists parts',
                      util.remove_dot_parts fuel parts (Z.of_nat n + 1) = util.Done parts'
                      /\ Forall P parts' /\ util.dots_resolved parts').
    { intros _ Hnot_dot Hprevious.
      replace (Z.of_nat n + 1) with (Z.of_nat (S n)) by lia.
      apply IH; [lia | lia | exact Hparts|].
      rewrite (take_S_r _ _ _ Hpart). apply dots_resolved_snoc; [assumption..|].
      intros Hdots k Hk. rewrite length_take_le in Hk by lia.
      rewrite lookup_take_lt by lia. now apply Hprevious. }
    destruct (String.eqb_spec part ".") as [->|Hnot_dot].
    { rewrite Herase. replace (Z.of_nat n - 1 + 1) with (Z.of_nat n) by lia.
      apply IH; [lia | lia | now apply Forall_delete|].
      now rewrite take_delete. }
    destruct (String.eqb_spec part "..") as [->|Hnot_dots]; cbn [andb].
    + destruct (Z.ltb_spec 0 (Z.of_nat n)) as [Hpositive|Hzero].
      * unfold util.at_index.
        destruct (Z.ltb_spec (Z.of_nat n - 1) 0) as [|_]; [lia|].
        replace (Z.to_nat (Z.of_nat n - 1)) with (n - 1)%nat by lia.
        destruct (lookup_lt_is_Some_2 parts (n - 1)) as [previous Hprevious]; [lia|].
        rewrite Hprevious.
        destruct (String.eqb_spec previous "..") as [->|Hnot]; cbn [negb].
        -- apply Hnext; [assumption | discriminate|].
           intros _ k ->. now replace k with (S k - 1)%nat by lia.
        -- rewrite Herase.
           assert (Herase' : util.erase (delete n parts) (Z.of_nat n - 1)
                             = Some (delete (n - 1)%nat (delete n parts))).
           { unfold util.erase. rewrite Hdeleted.
             replace (Z.to_nat (Z.of_nat n - 1)) with (n - 1)%nat by lia.
             destruct (Z.leb_spec 0 (Z.of_nat n - 1)); [|lia].
             destruct (Z.ltb_spec (Z.of_nat n - 1) (Z.of_nat (length parts - 1)));
               [reflexivity | lia]. }
           rewrite Herase'.
           replace (Z.of_nat n - 2 + 1) with (Z.of_nat (n - 1)) by lia.
           assert (length (delete (n - 1)%nat (delete n parts)) = (length parts - 2)%nat).
           { rewrite length_delete, Hdeleted; [lia|].
             apply lookup_lt_is_Some_2. lia. }
           apply IH; [lia | lia | now do 2 apply Forall_delete|].
           rewrite !take_delete by lia.
           replace (take (n - 1)%nat parts) with (take (n - 1)%nat (take n parts))
             by (rewrite take_take; f_equal; lia).
           now apply dots_resolved_take.
      * apply Hnext; [assumption | discriminate|]. intros _ k ->. lia.
    + destruct (0 <? Z.of_nat n); apply Hnext; auto; intros; contradiction.
  - exists parts. split; [reflexivity|]. split; [exact Hparts|].
    now rewrite take_ge in Hresolved by lia.
Qed.

Lemma is_separator_toupper (c : ascii) :
  util.isalpha c = true ->
  util.is_separator (util.toupper c) = false /\ util.is_nul (util.toupper c) = false.
Proof.
  destruct c as [[] [] [] [] [] [] [] []]; vm_compute; intros; try discriminate; auto.
Qed.

Lemma occurs_join (c : ascii) (sep : string) (parts : list string) :
  util.occurs c sep = false ->
  Forall (fun part => util.occurs c part = false) parts ->
  util.occurs c (util.join sep parts) = false.
Proof.
  intros Hsep. induction parts as [|part parts IH]; intros Hparts; [reflexivity|].
  apply Forall_cons in Hparts as [Hpart Hparts].
  destruct parts as [|next parts]; [exact Hpart|].
  change (util.join sep (part :: next :: parts))
    with (part ++ sep ++ util.join sep (next :: parts)).
  rewrite !occurs_app, Hpart, Hsep. now apply IH.
Qed.

Lemma plain_part_add (part : string) (c : ascii) :
  util.plain_part part -> util.is_separator c = false -> util.is_nul c = false ->
  util.plain_part (part ++ String c "").
Proof.
  intros (Hforward & Hback & Hnul) Hsep Hc. unfold util.plain_part.
  rewrite !occurs_app, Hforward, Hback, Hnul. cbn [util.occurs orb].
  unfold util.is_separator in Hsep. apply orb_false_elim in Hsep as [-> ->].
  unfold util.is_nul in Hc. rewrite Hc. auto.
Qed.

Lemma normalised_parts_spec (input : string) :
  exists parsed,
    util.normalised_parts input = util.Done parsed
    /\ Forall util.plain_part (util.parts parsed)
    /\ util.dots_resolved (util.parts parsed)
    /\ (forall letter,
          util.drive_letter parsed = Some letter ->
          util.is_separator letter = false /\ util.is_nul letter = false).
Proof.
  unfold util.normalised_parts.
  assert (Hbeginning : exists absolute drive parts0 rest,
    util.parse_beginning input = (absolute, drive, parts0, rest)
    /\ (parts0 <> [] \/ util.is_separator (front rest) = true
        \/ util.is_nul (front rest) = true)
    /\ Forall util.plain_part parts0
    /\ (forall letter,
          drive = Some letter ->
          util.is_separator letter = false /\ util.is_nul letter = false)).
  { assert (Hrelative : exists absolute drive parts0 rest,
      (false, @None ascii, [""], input) = (absolute, drive, parts0, rest)
      /\ (parts0 <> [] \/ util.is_separator (front rest) = true
          \/ util.is_nul (front rest) = true)
      /\ Forall util.plain_part parts0
      /\ (forall letter,
            drive = Some letter ->
            util.is_separator letter = false /\ util.is_nul letter = false)).
    { exists false, None, [""], input. split; [reflexivity|].
      split; [left; discriminate|].
      split; [constructor; [repeat split | constructor]|]. intros letter [=]. }
    unfold util.parse_beginning.
    destruct (util.is_separator (front input)) eqn:Hfront.
    - exists true, None, [], input. split; [reflexivity|]. split; [now right; left|].
      split; [constructor|]. intros letter [=].
    - destruct (util.isalpha (front input)) eqn:Halpha; cbn [andb]; [|exact Hrelative].
      destruct (Ascii.eqb (mdebug.char_at input 1) ":"%char); cbn [andb];
        [|exact Hrelative].
      destruct (util.is_separator (mdebug.char_at input 2)) eqn:Hthird; [|exact Hrelative].
      exists true, (Some (util.toupper (front input))), [], (util.advance 2 input).
      split; [reflexivity|]. split; [right; left; now rewrite front_advance|].
      split; [constructor|]. intros letter [= <-]. now apply is_separator_toupper. }
  destruct Hbeginning as (absolute & drive & parts0 & rest & -> & Hback & Hplain & Hdrive).
  destruct (split_parts_spec util.plain_part (conj eq_refl (conj eq_refl eq_refl)) plain_part_add
              (S (String.length rest)) rest parts0) as (parts1 & -> & Hparts1);
    [lia | exact Hback | exact Hplain |].
  destruct (remove_dot_parts_spec util.plain_part (S (length parts1)) parts1 0)
    as (parts2 & Hremove & Hparts2 & Hresolved);
    [lia | lia | exact Hparts1 | |].
  { rewrite take_0. split; [constructor|]. intros k Hk. discriminate. }
  change (Z.of_nat 0) with 0 in Hremove. rewrite Hremove.
  eexists. split; [reflexivity|]. cbn [util.parts util.drive_letter]. auto.
Qed.

(** X20. [normalise_path] is defined on every input: its loops end, the
    loop that splits the path never touches the back of an empty vector,
    and the loop that removes the dots never indexes or erases out of
    range. The parts it writes hold neither a separator nor a "." part, and
    a ".." part is left only at the front or behind another ".." part. *)
Theorem normalise_path_is_defined (input : string) :
  exists parsed,
    util.normalised_parts input = util.Done parsed
    /\ (forall use_backslashes,
          util.normalise_path input use_backslashes
          = util.Done (util.output parsed use_backslashes))
    /\ Forall
         (fun part =>
            util.occurs "/"%char part = false /\ util.occurs "\"%char part = false)
         (util.parts parsed)
    /\ util.dots_resolved (util.parts parsed).
Proof.
  destruct (normalised_parts_spec input) as (parsed & Hparsed & Hplain & Hresolved & _).
  exists parsed. split; [exact Hparsed|].
  split; [intros flag; unfold util.normalise_path; now rewrite Hparsed|].
  split; [|exact Hresolved].
  eapply Forall_impl; [exact Hplain|]. intros part (? & ? & _). auto.
Qed.

Lemma normalise_path_separator (input : string) (use_backslashes : bool) :
  exists path,
    util.normalise_path input use_backslashes = util.Done path
    /\ util.occurs (if use_backslashes then "/" else "\")%char path = false
    /\ util.occurs "000"%char path = false.
Proof.
  destruct (normalised_parts_spec input) as (parsed & Hparsed & Hplain & _ & Hdrive).
  unfold util.normalise_path. rewrite Hparsed. eexists. split; [reflexivity|].
  assert (Hprefix : forall c,
    (forall letter, util.drive_letter parsed = Some letter -> Ascii.eqb letter c = false) ->
    Ascii.eqb ":"%char c = false ->
    util.occurs c (util.separator use_backslashes) = false ->
    Forall (fun part => util.occurs c part = false) (util.parts parsed) ->
    util.occurs c (util.output parsed use_backslashes) = false).
  { intros c Hletter Hcolon Hsep Hparts. unfold util.output.
    rewrite occurs_app, (occurs_join c _ _ Hsep Hparts), orb_false_r.
    destruct (util.is_absolute parsed); [|reflexivity].
    rewrite occurs_app, Hsep, orb_false_r.
    destruct (util.drive_letter parsed) as [letter|]; [|reflexivity].
    cbn [util.occurs]. now rewrite (Hletter letter eq_refl), Hcolon. }
  split.
  - apply Hprefix.
    + intros letter Hsome. destruct (Hdrive letter Hsome) as [Hsep _].
      unfold util.is_separator in Hsep. apply orb_false_elim in Hsep as [? ?].
      now destruct use_backslashes.
    + now destruct use_backslashes.
    + now destruct use_backslashes.
    + eapply Forall_impl; [exact Hplain|]. intros part (? & ? & ?).
      now destruct use_backslashes.
  - apply Hprefix.
    + intros letter Hsome. now destruct (Hdrive letter Hsome) as [_ Hnul].
    + reflexivity.
    + now destruct use_backslashes.
    + eapply Forall_impl; [exact Hplain|]. now intros part (? & ? & ?).
Qed.

(** X21. [merge_paths] is defined on every pair of paths, and the path it
    returns is written with one kind of separator: the one that
    [guess_is_windows_path] finds in the base path, or in the path when
    the base path is empty. So a path below a Windows base holds no slash,
    and a path below a UNIX base holds no backslash. *)
Theorem merged_path_has_one_separator (base path : string) :
  let windows := util.guess_is_windows_path (if String.eqb base "" then path else base) in
  exists merged,
    util.merge_paths base path = util.Done merged
    /\ util.occurs (if windows then "/" else "\")%char merged = false
    /\ (exists input, util.normalise_path input windows = util.Done merged
                      /\ (input = path \/ input = base ++ "/" ++ path)).
Proof.
  intros windows. unfold util.merge_paths.
  assert (Hguess :
    (if String.eqb base "" then util.guess_is_windows_path path
     else util.guess_is_windows_path base) = windows)
    by (unfold windows; now destruct (String.eqb base "")).
  rewrite Hguess.
  destruct (_ || _ || _).
  - destruct (normalise_path_separator path windows) as (merged & Hmerged & Hsep & _).
    exists merged. split; [exact Hmerged|]. split; [exact Hsep|]. eauto.
  - destruct (normalise_path_separator (base ++ "/" ++ path) windows)
      as (merged & Hmerged & Hsep & _).
    exists merged. split; [exact Hmerged|]. split; [exact Hsep|]. eauto.
Qed.

Lemma file_name_is_the_last_component_witness :
  util.extract_file_name "src/ccc\util.cpp" = "util.cpp".
Proof.
  destruct (file_name_is_the_last_component "src/ccc\util.cpp") as (_ & Hcomponent & _);
    [reflexivity|].
  apply (Hcomponent "src/ccc" "\"%char "util.cpp"); reflexivity.
Defined.

(** Paths that are normalised, merged and cut. *)
Example paths_are_normalised :
  util.normalise_path "a/./b/../c" false = util.Done "a/c"
  /\ util.normalise_path "c:\x\..\y" true = util.Done "C:\y"
  /\ util.normalise_path "../../a/b/../../.." false = util.Done "../../.."
  /\ util.normalise_path "/.." false = util.Done "/.."
  /\ util.normalise_path "a//b/" false = util.Done "a/b/"
  /\ util.normalise_path "./c:/x" false = util.Done "c:/x"
  /\ util.normalise_path "c:/x" false = util.Done "C:/x"
  /\ util.merge_paths "C:\src" "lib/../a.c" = util.Done "C:\src\a.c"
  /\ util.merge_paths "/src" "/abs/a.c" = util.Done "/abs/a.c"
  /\ util.extract_file_name "a/b/" = "a/b/".
Proof. repeat split; vm_compute; reflexivity. Qed.

(** ** Properties of the command line and of the symbols that are parsed *)

Lemma lor_flags (m : Z) (a b c d : bool) :
  Z.lor (Z.lor (Z.lor m (if a then 1 else 0)) (if b then 2 else 0))
    (Z.lor (if c then 1 else 0) (if d then 2 else 0))
  = Z.lor m (Z.lor (if a || c then 1 else 0) (if b || d then 2 else 0)).
Proof.
  apply Z.bits_inj'. intros n Hn. rewrite !Z.lor_spec.
  destruct a, b, c, d; cbn [orb]; rewrite ?Z.bits_0;
    destruct (Z.testbit m n), (Z.testbit 1 n), (Z.testbit 2 n); reflexivity.
Qed.

Lemma read_flags_spec (args : list string) (options : stdump.Options) :
  fold_left stdump.read_flag args options
  = {| stdump.mode :=
         Z.lor (stdump.mode options)
           (Z.lor (if existsb stdump.is_symbols_flag args then 1 else 0)
                  (if existsb stdump.is_types_flag args then 2 else 0));
       stdump.input_file := stdump.input_file options;
       stdump.verbose := stdump.verbose options || existsb stdump.is_verbose_flag args |}.
Proof.
  revert options. induction args as [|arg args IH]; intros options.
  - destruct options as [m f v]. cbn. now rewrite Z.lor_0_r, orb_false_r.
  - cbn [fold_left existsb]. rewrite IH. clear IH.
    assert (Hstep :
      stdump.read_flag options arg
      = {| stdump.mode :=
             Z.lor (Z.lor (stdump.mode options)
                      (if stdump.is_symbols_flag arg then 1 else 0))
               (if stdump.is_types_flag arg then 2 else 0);
           stdump.input_file := stdump.input_file options;
           stdump.verbose := stdump.verbose options || stdump.is_verbose_flag arg |}).
    { unfold stdump.read_flag, stdump.OUTPUT_SYMBOLS, stdump.OUTPUT_TYPES.
      destruct options as [m f v].
      destruct (stdump.is_symbols_flag arg), (stdump.is_types_flag arg),
        (stdump.is_verbose_flag arg);
        cbn [stdump.mode stdump.input_file stdump.verbose];
        rewrite ?Z.lor_0_r, ?orb_true_r, ?orb_false_r; reflexivity. }
    rewrite Hstep. cbn [stdump.mode stdump.input_file stdump.verbose].
    now rewrite lor_flags, orb_assoc.
Qed.

Lemma read_input_file_filter (args : list string) (options : stdump.Options) :
  stdump.read_input_file args options
  = stdump.read_input_file (stdump.input_files args) options.
Proof.
  revert options. induction args as [|arg args IH]; intros options; [reflexivity|].
  unfold stdump.input_files. cbn [List.filter stdump.read_input_file].
  unfold stdump.is_flag.
  destruct (stdump.is_symbols_flag arg) eqn:Hs; cbn [orb negb]; [apply IH|].
  destruct (stdump.is_types_flag arg) eqn:Ht; cbn [orb negb]; [apply IH|].
  destruct (stdump.is_verbose_flag arg) eqn:Hv; cbn [orb negb]; [apply IH|].
  cbn [stdump.read_input_file]. rewrite Hs, Ht, Hv.
  destruct (String.eqb (stdump.input_file options) ""); [apply IH | reflexivity].
Qed.

Lemma last_cons_default {A} (x d : A) (l : list A) : List.last (x :: l) d = List.last l x.
Proof.
  revert x d. induction l as [|y l IH]; intros x d; [reflexivity|].
  change (List.last (x :: y :: l) d) with (List.last (y :: l) d).
  rewrite (IH y d). symmetry. apply IH.
Qed.

(** The second loop on arguments that are no flags: the input file so far
    counts as one more of them, in front. *)
Lemma read_input_file_spec (files : list string) (options : stdump.Options) :
  Forall (fun arg => stdump.is_flag arg = false) files ->
  (Forall (fun file => file = "") (removelast (stdump.input_file options :: files)) ->
   stdump.read_input_file files options
   = inr {| stdump.mode := stdump.mode options;
            stdump.input_file := List.last files (stdump.input_file options);
            stdump.verbose := stdump.verbose options |})
  /\ (~ Forall (fun file => file = "") (removelast (stdump.input_file options :: files)) ->
      stdump.read_input_file files options = inl stdump.multiple_input_files).
Proof.
  revert options. induction files as [|file files IH]; intros options Hfiles.
  - split; [|intros Hnot; exfalso; apply Hnot; constructor].
    intros _. now destruct options.
  - apply Forall_cons in Hfiles as [Hfile Hfiles].
    unfold stdump.is_flag in Hfile.
    apply orb_false_elim in Hfile as [Hfile Hv]. apply orb_false_elim in Hfile as [Hs Ht].
    cbn [stdump.read_input_file]. rewrite Hs, Ht, Hv.
    change (removelast (stdump.input_file options :: file :: files))
      with (stdump.input_file options :: removelast (file :: files)).
    destruct (String.eqb_spec (stdump.input_file options) "") as [Hempty|Hset].
    + destruct (IH {| stdump.mode := stdump.mode options; stdump.input_file := file;
                      stdump.verbose := stdump.verbose options |} Hfiles) as [Hyes Hno].
      cbn [stdump.mode stdump.input_file stdump.verbose] in Hyes, Hno.
      split.
      * intros Hall. apply Forall_cons in Hall as [_ Hall].
        rewrite (Hyes Hall). now rewrite last_cons_default.
      * intros Hnot. apply Hno. intros Hall. apply Hnot. now constructor.
    + split; [|reflexivity]. intros Hall. apply Forall_cons in Hall as [? _]. contradiction.
Qed.

(** X22. [parse_args] sets the mode and the verbosity from the flags,
    wherever they stand and however often, and takes the argument that is
    no flag for the input file. It ends the program with "error: Multiple
    input files specified." exactly when an argument that is no flag
    follows one that is neither a flag nor empty; otherwise the input file
    is its last argument that is no flag. *)
Theorem parse_args_takes_one_input_file (args : list string) :
  (Forall (fun file => file = "") (removelast (stdump.input_files args)) ->
   stdump.parse_args args
   = inr {| stdump.mode :=
              Z.lor (if existsb stdump.is_symbols_flag args then stdump.OUTPUT_SYMBOLS else 0)
                    (if existsb stdump.is_types_flag args then stdump.OUTPUT_TYPES else 0);
            stdump.input_file := List.last (stdump.input_files args) "";
            stdump.verbose := existsb stdump.is_verbose_flag args |})
  /\ (~ Forall (fun file => file = "") (removelast (stdump.input_files args)) ->
      stdump.parse_args args = inl stdump.multiple_input_files).
Proof.
  unfold stdump.parse_args. rewrite read_flags_spec, read_input_file_filter.
  cbn [stdump.mode stdump.input_file stdump.verbose orb].
  change (Z.lor stdump.OUTPUT_HELP ?m) with m.
  match goal with
  | |- context [stdump.read_input_file _ ?o] =>
      destruct (read_input_file_spec (stdump.input_files args) o) as [Hyes Hno]
  end.
  { unfold stdump.input_files. apply Forall_forall. intros arg Hin.
    apply list_elem_of_In, filter_In in Hin as [_ Hflag]. now apply negb_true_iff. }
  cbn [stdump.mode stdump.input_file stdump.verbose] in Hyes, Hno.
  assert (Hfront : forall files : list string,
    Forall (fun file => file = "") (removelast ("" :: files))
    <-> Forall (fun file => file = "") (removelast files)).
  { intros [|file files]; [split; constructor|].
    change (removelast ("" :: file :: files)) with ("" :: removelast (file :: files)).
    split; [intros Hall; now apply Forall_cons in Hall as [_ ?] | now constructor]. }
  split.
  - intros Hall. apply Hyes. now apply Hfront.
  - intros Hnot. apply Hno. intros Hall. apply Hnot. now apply Hfront.
Qed.

Lemma back_app (a b : string) : b <> "" -> stdump.back (a ++ b) = stdump.back b.
Proof.
  intros Hb. induction a as [|c a IH]; [reflexivity|].
  rewrite append_cons. cbn [stdump.back]. rewrite IH.
  destruct (a ++ b) eqn:Hempty; [|reflexivity].
  destruct a; [now apply Hb in Hempty | discriminate].
Qed.

Lemma front_app (a b : string) : a <> "" -> front (a ++ b) = front a.
Proof. now destruct a. Qed.

Section ParsedSymbols.

Context `{stdump.Declarations}.

Lemma parsed_symbols_sound symbols :
  forall prefix s,
    In s (stdump.parsed_symbols symbols prefix) ->
    s <> "" /\ front s <> "$"%char /\ stdump.back s <> "\"%char.
Proof.
  induction symbols as [|sym symbols IH]; intros prefix s Hin; [contradiction|].
  cbn [stdump.parsed_symbols] in Hin.
  destruct (stdump.is_stabs sym); [|now apply IH in Hin].
  destruct (Nat.eqb_spec (String.length (mdebug.string_ sym)) 0) as [|Hlength];
    [now apply IH in Hin|].
  destruct (Ascii.eqb_spec (stdump.back (mdebug.string_ sym)) "\"%char) as [|Hback];
    [now apply IH in Hin|].
  destruct (Ascii.eqb_spec (front (prefix ++ mdebug.string_ sym)) "$"%char) as [|Hfront];
    [now apply IH in Hin|].
  destruct Hin as [<-|Hin]; [|now apply IH in Hin].
  assert (Hstring : mdebug.string_ sym <> "") by (intros Hs; now rewrite Hs in Hlength).
  split; [|split; [exact Hfront | now rewrite back_app]].
  intros Hempty. destruct prefix; [contradiction | discriminate].
Qed.

(** X23. Every string that [print_types] hands to [parse_stabs_symbol]
    is not empty, does not start with '$' and does not end with a
    backslash; and where every STABS symbol of a file is such a string,
    the strings parsed are those of the symbols of type [NIL] and class 0,
    one by one and in order. *)
Theorem parsed_symbols_are_whole (symbol_table : mdebug.SymbolTable) :
  (forall s,
     In s (stdump.print_types symbol_table) ->
     s <> "" /\ front s <> "$"%char /\ stdump.back s <> "\"%char)
  /\ (forall fd,
        In fd (mdebug.files symbol_table) ->
        Forall
          (fun sym =>
             stdump.is_stabs sym = true ->
             mdebug.string_ sym <> "" /\ front (mdebug.string_ sym) <> "$"%char
             /\ stdump.back (mdebug.string_ sym) <> "\"%char)
          (mdebug.symbols fd) ->
        stdump.parsed_symbols (mdebug.symbols fd) ""
        = map mdebug.string_ (List.filter stdump.is_stabs (mdebug.symbols fd))).
Proof.
  split.
  - intros s Hin. unfold stdump.print_types in Hin.
    apply in_flat_map in Hin as (fd & _ & Hin). now apply parsed_symbols_sound in Hin.
  - intros fd _ Hclean. induction Hclean as [|sym symbols Hsym _ IH]; [reflexivity|].
    cbn [stdump.parsed_symbols List.filter].
    destruct (stdump.is_stabs sym); [|exact IH].
    destruct (Hsym eq_refl) as (Hstring & Hfront & Hback).
    destruct (Nat.eqb_spec (String.length (mdebug.string_ sym)) 0) as [Hlength|_].
    { destruct (mdebug.string_ sym); [contradiction | discriminate]. }
    destruct (Ascii.eqb_spec (stdump.back (mdebug.string_ sym)) "\"%char); [contradiction|].
    change ("" ++ mdebug.string_ sym) with (mdebug.string_ sym).
    destruct (Ascii.eqb_spec (front (mdebug.string_ sym)) "$"%char); [contradiction|].
    cbn [map]. now rewrite IH.
Qed.

(** X24. The prefix kept for a symbol that is split over several strings
    is not reset when the joined symbol is skipped for starting with '$':
    from a prefix that starts with '$' on, no symbol is parsed as long as
    no STABS symbol with an empty string comes by. *)
Theorem skipped_symbol_keeps_the_prefix (symbols : list mdebug.Symbol) (prefix : string) :
  front prefix = "$"%char ->
  Forall (fun sym => stdump.is_stabs sym = true -> mdebug.string_ sym <> "") symbols ->
  stdump.parsed_symbols symbols prefix = [].
Proof.
  intros Hprefix Hsymbols. revert prefix Hprefix.
  induction Hsymbols as [|sym symbols Hsym _ IH]; intros prefix Hprefix; [reflexivity|].
  assert (Hset : prefix <> "") by (intros ->; discriminate).
  cbn [stdump.parsed_symbols].
  destruct (stdump.is_stabs sym); [|now apply IH].
  destruct (Nat.eqb_spec (String.length (mdebug.string_ sym)) 0) as [Hlength|_].
  { destruct (mdebug.string_ sym) eqn:Hs; [now destruct (Hsym eq_refl) | discriminate]. }
  destruct (Ascii.eqb (stdump.back (mdebug.string_ sym)) "\"%char).
  - apply IH. now rewrite front_app.
  - rewrite front_app, Hprefix by assumption. now apply IH.
Qed.

End ParsedSymbols.

(** A symbol split over two strings, a symbol of a compiler, and a split
    symbol of a compiler, after which nothing is parsed. *)
Example symbols_are_joined :
  stdump.parsed_symbols
    [stabs_symbol "Foo:T1=s4x:"; stabs_symbol "$vf:2"; stabs_symbol "int:t2=\";
     stabs_symbol "r2;0;1;"] ""
  = ["Foo:T1=s4x:"; "int:t2=r2;0;1;"]
  /\ stdump.parsed_symbols
       [stabs_symbol "$vtbl\"; stabs_symbol "ptr"; stabs_symbol "int:t2=r2;0;1;"] ""
     = []
  /\ stdump.parsed_symbols
       [stabs_symbol "$vtbl\"; stabs_symbol "ptr"; stabs_symbol "";
        stabs_symbol "int:t2=r2;0;1;"] ""
     = ["int:t2=r2;0;1;"].
Proof. repeat split; vm_compute; reflexivity. Qed.

Example arguments_are_parsed :
  stdump.parse_args ["-s"; "game.elf"; "--verbose"]
  = inr {| stdump.mode := 1; stdump.input_file := "game.elf"; stdump.verbose := true |}
  /\ stdump.parse_args ["a.elf"; "-t"; "b.elf"] = inl stdump.multiple_input_files
  /\ stdump.parse_args [""; "-t"; "-s"; "b.elf"]
     = inr {| stdump.mode := 3; stdump.input_file := "b.elf"; stdump.verbose := false |}
  /\ stdump.parse_args ["a.elf"; ""] = inl stdump.multiple_input_files.
Proof. repeat split; vm_compute; reflexivity. Qed.

Lemma skipped_symbol_keeps_the_prefix_witness :
  stdump.parsed_symbols [stabs_symbol "ptr"; stabs_symbol "int:t2=r2;0;1;"] "$vtbl" = [].
Proof.
  apply (skipped_symbol_keeps_the_prefix
           [stabs_symbol "ptr"; stabs_symbol "int:t2=r2;0;1;"] "$vtbl");
    [reflexivity|].
  repeat constructor; discriminate.
Defined.
